(** * bunya-search: adaptive selector, response aggregator, calibration analyzer

    A shallow embedding of the algorithmic core of the questionnaire
    prototype:

    - [prototype-client/src/utils.ts]  (adaptive Likert selector and axis
      statistics),
    - [prototype-client/src/main.tsx]  (response aggregator: category,
      aptitude and tag scores, category co-occurrence; the answer handlers
      and the Likert phase),
    - [prototype-client/src/components]  (the ranking of ScenarioStep, the
      category lists of ResultStep),
    - the ScoreOptimizer tool (calibration analyzer, response quality and
      weight applier).

    Numbers.  JavaScript numbers and C# doubles are modelled as exact
    rationals ([Q]); rounding, infinities and signed zeros are outside that
    model.  Two places need more.  The aggregator manufactures a
    not-a-number from finite data (reading [weights[index]] past the end of
    the array): see [Module JsNum].  Which of two candidates the adaptive
    selector returns can depend on the rounding of their gains: the selector
    is modelled a second time over IEEE 754 binary64 values, see
    [Module Binary64]. *)

From Stdlib Require Import QArith Qabs Qround Lia Lqa Sorted.
From Stdlib Require Import String Ascii.
From Stdlib Require Import Floats.
From stdpp Require Import gmap strings list.
From Equations Require Import Equations.

Local Open Scope Q_scope.

(** ** Question bank (types.ts) *)

Record RelatedCategory := {
  rc_axis : string;
  rc_category : string;
  rc_weight : Q
}.

Record Tag := {
  tag_name : string;
  tag_weight : Q
}.

Inductive Polarity := positive | reverse.

(** Optional arrays ([relatedCategories?], [tags?]) are [option (list _)]. *)
Record LikertQuestion := {
  lq_id : string;
  lq_axis : string;
  lq_primaryCategory : string;
  lq_polarity : Polarity;
  lq_required : bool;
  lq_relatedCategories : option (list RelatedCategory);
  lq_tags : option (list Tag)
}.

(** ** Stable sort with a JavaScript comparator

    [Array.prototype.sort] is stable, and for a consistent comparator the
    result is the unique stable ordering.  [cmp a b > 0] means that [a] goes
    after [b].  An element is inserted in front of the already sorted
    elements that came after it, and moves right only past those that must
    strictly precede it. *)

Section JsSort.
Context {A : Type}.
Variable cmp : A -> A -> Q.

Fixpoint sort_insert (x : A) (l : list A) : list A :=
  match l with
  | [] => [x]
  | y :: l' =>
      if Qlt_le_dec 0 (cmp x y) then y :: sort_insert x l'
      else x :: y :: l'
  end.

Fixpoint js_sort (l : list A) : list A :=
  match l with
  | [] => []
  | x :: l' => sort_insert x (js_sort l')
  end.
End JsSort.

(** ** Adaptive selector (utils.ts)

    The selector over the rationals, for the properties that do not turn on
    the rounding of the gains (which items are candidates, required items
    first, the progress of the Likert phase).  Which candidate has the
    largest gain is settled on the binary64 selector of [Module Binary64]. *)

Record AxisStats := {
  as_sum : Q;
  as_count : Q
}.

Definition computeInformationGain
    (question : LikertQuestion) (stats : gmap string AxisStats) : Q :=
  match stats !! lq_axis question with
  | None => 1
  | Some axisState =>
      if Qeq_bool (as_count axisState) 0 then 1
      else
        let average := as_sum axisState / as_count axisState in
        let midPoint := 4 in
        let gap := Qabs (midPoint - average) in
        let relatedWeight :=
          fold_left (fun acc current => acc + rc_weight current)
                    (default [] (lq_relatedCategories question)) 0 in
        gap * (1 + relatedWeight)
  end.

(** [answers] is a plain object keyed by question id; only its key set is
    consulted. *)
Definition isAnswered (answers : gmap string Q) (q : LikertQuestion) : bool :=
  bool_decide (lq_id q ∈ dom answers).

Definition isCandidate (answers : gmap string Q) (requiredOnly : bool)
    (q : LikertQuestion) : bool :=
  negb (isAnswered answers q) && (negb requiredOnly || lq_required q).

Definition candidatesOf (questions : list LikertQuestion)
    (answers : gmap string Q) (requiredOnly : bool) : list LikertQuestion :=
  List.filter (isCandidate answers requiredOnly) questions.

Definition byInfoDesc (a b : LikertQuestion * Q) : Q := snd b - snd a.

Definition rankCandidates (stats : gmap string AxisStats)
    (candidates : list LikertQuestion) : list (LikertQuestion * Q) :=
  js_sort byInfoDesc
    (List.map (fun question => (question, computeInformationGain question stats))
              candidates).

(** The source computes the candidates, and calls itself with
    [requiredOnly = false] when there are none and [requiredOnly] is set;
    the measure is [requiredOnly] itself. *)
Equations pickNextLikertQuestion (questions : list LikertQuestion)
    (answers : gmap string Q) (stats : gmap string AxisStats)
    (requiredOnly : bool) : option LikertQuestion
    by wf (Nat.b2n requiredOnly) lt :=
  pickNextLikertQuestion questions answers stats true
    with candidatesOf questions answers true => {
    | [] := pickNextLikertQuestion questions answers stats false
    | c :: cs := fst <$> head (rankCandidates stats (c :: cs)) };
  pickNextLikertQuestion questions answers stats false :=
    fst <$> head (rankCandidates stats (candidatesOf questions answers false)).

(** *** Specification vocabulary for the selector *)

(** The head of a list sorted with the comparator [key b - key a] is read
    as "the first element of maximal key". *)
Definition first_max {A : Type} (key : A → Q) (l : list A) (m : A) : Prop :=
  ∃ before after,
    l = before ++ m :: after ∧
    (∀ y, y ∈ before → key y < key m) ∧
    (∀ y, y ∈ after → key y <= key m).

(** Number of observations recorded for an axis; an axis that is absent
    from the statistics has none. *)
Definition observations (stats : gmap string AxisStats) (axis : string) : Q :=
  match stats !! axis with
  | Some s => as_count s
  | None => 0
  end.

Definition axisMean (stats : gmap string AxisStats) (axis : string) : Q :=
  match stats !! axis with
  | Some s => as_sum s / as_count s
  | None => 0
  end.

Fixpoint sumRelatedWeights (l : list RelatedCategory) : Q :=
  match l with
  | [] => 0
  | r :: l' => rc_weight r + sumRelatedWeights l'
  end.

(** The gain as the specification words it. *)
Definition gainAsSpecified (q : LikertQuestion) (stats : gmap string AxisStats) : Q :=
  if Qeq_bool (observations stats (lq_axis q)) 0 then 1
  else Qabs (4 - axisMean stats (lq_axis q))
       * (1 + sumRelatedWeights (default [] (lq_relatedCategories q))).

(** *** A small question list used to exercise the selector *)

Module SelectorExample.
Local Open Scope string_scope.

Definition mk (id axis : string) (required : bool)
    (related : option (list RelatedCategory)) : LikertQuestion :=
  {| lq_id := id; lq_axis := axis; lq_primaryCategory := "science";
     lq_polarity := positive; lq_required := required;
     lq_relatedCategories := related; lq_tags := None |}.

Definition q1 := mk "L-01" "activity" false None.
Definition q2 := mk "L-02" "learning_style" true
  (Some [ {| rc_axis := "activity"; rc_category := "engineering"; rc_weight := 1 # 2 |} ]).
Definition q3 := mk "L-03" "learning_style" false None.
Definition q4 := mk "L-04" "values" true None.
Definition q5 := mk "L-05" "activity" false None.
Definition q6 := mk "L-06" "learning_style" false None.

Definition questions : list LikertQuestion := [q1; q2; q3; q4; q5; q6].

(** L-04, L-05 and L-06 answered with 3, 6 and 6: the required item L-02 is
    still open. *)
Definition answers : gmap string Q :=
  <["L-04" := 3]> (<["L-05" := 6]> (<["L-06" := 6]> ∅)).

(** The axis statistics of these answers. *)
Definition stats : gmap string AxisStats :=
  <["activity" := {| as_sum := 6; as_count := 1 |}]>
    (<["learning_style" := {| as_sum := 6; as_count := 1 |}]>
       (<["values" := {| as_sum := 3; as_count := 1 |}]> ∅)).

(** L-02 answered with 6 as well: both required items are answered. *)
Definition answersRequiredDone : gmap string Q := <["L-02" := 6]> answers.

Definition statsRequiredDone : gmap string AxisStats :=
  <["activity" := {| as_sum := 6; as_count := 1 |}]>
    (<["learning_style" := {| as_sum := 12; as_count := 2 |}]>
       (<["values" := {| as_sum := 3; as_count := 1 |}]> ∅)).
End SelectorExample.

(** ** The adaptive selector over binary64 numbers (utils.ts)

    A JavaScript [number] is an IEEE 754 binary64 value.  Here the selector
    is written with the arithmetic of the engine: [/], [-], [+], [*] and
    [Math.abs] are the correctly rounded operations on [float], [===] on
    numbers is the IEEE equality, and the result of a comparator counts as
    positive when it is greater than zero in the IEEE order, which a
    not-a-number is not.  The shapes are those of the selector above. *)

Module Binary64.
Local Open Scope float_scope.

Record RelatedCategory := {
  rc_axis : string;
  rc_category : string;
  rc_weight : float
}.

(** The fields of a Likert question that the selector reads. *)
Record LikertQuestion := {
  lq_id : string;
  lq_axis : string;
  lq_required : bool;
  lq_relatedCategories : option (list RelatedCategory)
}.

Section JsSort.
Context {A : Type}.
Variable cmp : A -> A -> float.

Fixpoint sort_insert (x : A) (l : list A) : list A :=
  match l with
  | [] => [x]
  | y :: l' =>
      if 0 <? cmp x y then y :: sort_insert x l'
      else x :: y :: l'
  end.

Fixpoint js_sort (l : list A) : list A :=
  match l with
  | [] => []
  | x :: l' => sort_insert x (js_sort l')
  end.
End JsSort.

Record AxisStats := {
  as_sum : float;
  as_count : float
}.

Definition computeInformationGain
    (question : LikertQuestion) (stats : gmap string AxisStats) : float :=
  match stats !! lq_axis question with
  | None => 1
  | Some axisState =>
      if as_count axisState =? 0 then 1
      else
        let average := as_sum axisState / as_count axisState in
        let midPoint := 4 in
        let gap := abs (midPoint - average) in
        let relatedWeight :=
          fold_left (fun acc current => acc + rc_weight current)
                    (default [] (lq_relatedCategories question)) 0 in
        gap * (1 + relatedWeight)
  end.

Definition isAnswered (answers : gmap string float) (q : LikertQuestion) : bool :=
  bool_decide (lq_id q ∈ dom answers).

Definition isCandidate (answers : gmap string float) (requiredOnly : bool)
    (q : LikertQuestion) : bool :=
  negb (isAnswered answers q) && (negb requiredOnly || lq_required q).

Definition candidatesOf (questions : list LikertQuestion)
    (answers : gmap string float) (requiredOnly : bool) : list LikertQuestion :=
  List.filter (isCandidate answers requiredOnly) questions.

Definition byInfoDesc (a b : LikertQuestion * float) : float := snd b - snd a.

Definition rankCandidates (stats : gmap string AxisStats)
    (candidates : list LikertQuestion) : list (LikertQuestion * float) :=
  js_sort byInfoDesc
    (List.map (fun question => (question, computeInformationGain question stats))
              candidates).

Equations pickNextLikertQuestion (questions : list LikertQuestion)
    (answers : gmap string float) (stats : gmap string AxisStats)
    (requiredOnly : bool) : option LikertQuestion
    by wf (Nat.b2n requiredOnly) lt :=
  pickNextLikertQuestion questions answers stats true
    with candidatesOf questions answers true => {
    | [] := pickNextLikertQuestion questions answers stats false
    | c :: cs := fst <$> head (rankCandidates stats (c :: cs)) };
  pickNextLikertQuestion questions answers stats false :=
    fst <$> head (rankCandidates stats (candidatesOf questions answers false)).

(** *** Specification vocabulary for the binary64 selector *)

(** Number of observations recorded for an axis; an axis that is absent
    from the statistics has none. *)
Definition observations (stats : gmap string AxisStats) (axis : string) : float :=
  match stats !! axis with
  | Some s => as_count s
  | None => 0
  end.

Definition axisMean (stats : gmap string AxisStats) (axis : string) : float :=
  match stats !! axis with
  | Some s => as_sum s / as_count s
  | None => 0
  end.

(** The weights added one after the other, in list order, starting from 0:
    in binary64 the order of the additions is part of the sum. *)
Definition sumRelatedWeights (l : list RelatedCategory) : float :=
  fold_left (fun acc r => acc + rc_weight r) l 0.

(** The gain as the specification words it, each operation rounded. *)
Definition gainAsSpecified (q : LikertQuestion) (stats : gmap string AxisStats) : float :=
  if observations stats (lq_axis q) =? 0 then 1
  else abs (4 - axisMean stats (lq_axis q))
       * (1 + sumRelatedWeights (default [] (lq_relatedCategories q))).

(** The rational number that a finite binary64 value stands for (0 for
    the infinities and the not-a-number, which stand for none). *)
Definition exact (x : float) : Q :=
  match Prim2SF x with
  | S754_finite s m e => (inject_Z (cond_Zopp s (Zpos m)) * 2 ^ e)%Q
  | _ => 0%Q
  end.

Fixpoint exactRelatedWeights (l : list RelatedCategory) : Q :=
  match l with
  | [] => 0%Q
  | r :: l' => (exact (rc_weight r) + exactRelatedWeights l')%Q
  end.

(** The gain of the specification's formula over the rationals, without any
    rounding: 1 without observations, otherwise
    |4 - sum / count| * (1 + sum of the related weights). *)
Definition exactMean (stats : gmap string AxisStats) (axis : string) : Q :=
  match stats !! axis with
  | Some s => (exact (as_sum s) / exact (as_count s))%Q
  | None => 0%Q
  end.

Definition exactGain (q : LikertQuestion) (stats : gmap string AxisStats) : Q :=
  if Qeq_bool (exact (observations stats (lq_axis q))) 0 then 1%Q
  else (Qabs (4 - exactMean stats (lq_axis q))
        * (1 + exactRelatedWeights (default [] (lq_relatedCategories q))))%Q.

(** "[q] is the candidate of maximal gain, the earliest one in the question
    list among those of equal gain", for a gain with rational values. *)
Definition firstOfMaximalGain (gain : LikertQuestion → Q)
    (questions : list LikertQuestion) (answers : gmap string float)
    (requiredOnly : bool) (q : LikertQuestion) : Prop :=
  ∃ before after,
    questions = before ++ q :: after ∧
    isCandidate answers requiredOnly q = true ∧
    (∀ c, c ∈ before → isCandidate answers requiredOnly c = true →
          (gain c < gain q)%Q) ∧
    (∀ c, c ∈ after → isCandidate answers requiredOnly c = true →
          (gain c <= gain q)%Q).

(** *** The IEEE order, read on integers

    A binary64 value that is not a not-a-number has a place on the integer
    line: a finite value m * 2^e sits at m * 2^(e + 1074) (the least
    exponent of the format is -1074), both zeros at 0, and the infinities
    beyond every finite value (every finite magnitude is below
    2^53 * 2^(971 + 1074)). *)
Definition scaled (x : spec_float) : Z :=
  match x with
  | S754_finite s m e => cond_Zopp s (Zpos m * 2 ^ (e + 1074))%Z
  | S754_infinity s => cond_Zopp s (2 ^ 2098)%Z
  | _ => 0%Z
  end.

Definition isNumber (x : spec_float) : bool :=
  match x with
  | S754_finite _ _ _ | S754_zero _ => true
  | _ => false
  end.

Definition ordered (x : spec_float) : bool :=
  match x with
  | S754_nan => false
  | _ => true
  end.

Definition orderKey (x : float) : Z := scaled (Prim2SF x).

End Binary64.

(** *** A run of the binary64 selector

    Eight items on two axes.  Three items of each axis are answered:
    3, 3 and 4 on "activity" (sum 10), 5, 5 and 4 on "values" (sum 14).  The
    two open items have no related categories. *)

Module Binary64Example.
Import Binary64.
Local Open Scope string_scope.

Definition mk (id axis : string) : LikertQuestion :=
  {| lq_id := id; lq_axis := axis; lq_required := false;
     lq_relatedCategories := None |}.

Definition openActivity := mk "L-01" "activity".
Definition openValues := mk "L-02" "values".

Definition questions : list LikertQuestion :=
  [ openActivity; openValues;
    mk "L-03" "activity"; mk "L-04" "activity"; mk "L-05" "activity";
    mk "L-06" "values"; mk "L-07" "values"; mk "L-08" "values" ].

Definition answers : gmap string float :=
  <["L-03" := 3%float]> (<["L-04" := 3%float]> (<["L-05" := 4%float]>
  (<["L-06" := 5%float]> (<["L-07" := 5%float]> (<["L-08" := 4%float]> ∅))))).

Definition stats : gmap string AxisStats :=
  <["activity" := {| as_sum := 10; as_count := 3 |}]>
    (<["values" := {| as_sum := 14; as_count := 3 |}]> ∅).

End Binary64Example.

(** ** ScoreOptimizer: calibration analyzer and weight applier (C#)

    LINQ sequences are lists; [Dictionary] values are association lists
    with distinct keys in insertion order; [double?] is [option Q]. *)

Module ScoreOptimizer.
Local Open Scope string_scope.

Record WeightedCategory := {
  wc_Axis : string;
  wc_Category : string;
  wc_Score : Q;
  wc_Weight : Q
}.

Record LikertItem := {
  li_Id : string;
  li_Axis : string;
  li_PrimaryCategory : string;
  li_Polarity : string;
  li_RelatedCategories : list RelatedCategory
}.

(** [ForcedChoiceOption] and [ScenarioOption] are two records of the same
    shape in the source, as are [ForcedChoiceItem] and [ScenarioItem]. *)
Record ChoiceOption := {
  opt_Key : string;
  opt_Primary : WeightedCategory;
  opt_Secondary : list WeightedCategory
}.

Record ChoiceItem := {
  ci_Id : string;
  ci_Required : bool;
  ci_Options : list ChoiceOption
}.

Record ResponseRecord := {
  RespondentId : string;
  ItemId : string;
  Value : Q;
  ResponseTimeMs : option Q;
  Confidence : option Q
}.

Record ItemSummary := {
  is_ItemId : string;
  is_Axis : string;
  is_Category : string;
  is_Mean : Q;
  is_Variance : Q;
  is_EffectiveWeight : Q;
  is_RecommendedWeight : Q;
  is_ItemTotalCorrelation : option Q;
  is_AverageResponseTimeMs : option Q;
  is_AverageConfidence : option Q
}.

(** *** LINQ and string helpers *)

Definition Sum (l : list Q) : Q := fold_left Qplus l 0.

Definition Count {A : Type} (l : list A) : Z := Z.of_nat (length l).

(** [Enumerable.Average] throws on an empty sequence; every call below is
    on a sequence that is not empty (a group, a guarded array, or the
    result of [DefaultIfEmpty]). *)
Definition Average (l : list Q) : Q := Sum l / inject_Z (Count l).

Definition DefaultIfEmpty (l : list Q) : list Q :=
  match l with
  | [] => [0]
  | _ => l
  end.

(** [Where(r => r.X.HasValue).Select(r => r.X!.Value)] *)
Definition presentValues {A : Type} (f : A → option Q) (l : list A) : list Q :=
  omap f l.

Fixpoint group_add {A : Type} (key : string) (x : A)
    (groups : list (string * list A)) : list (string * list A) :=
  match groups with
  | [] => [(key, [x])]
  | (k, g) :: rest =>
      if String.eqb k key then (k, (g ++ [x])%list) :: rest
      else (k, g) :: group_add key x rest
  end.

(** [GroupBy]: groups in order of first occurrence of their key, elements
    in source order. *)
Definition GroupBy {A : Type} (key : A → string) (l : list A)
    : list (string * list A) :=
  fold_left (fun groups x => group_add (key x) x groups) l [].

Fixpoint TryGetValue {V : Type} (d : list (string * V)) (key : string) : option V :=
  match d with
  | [] => None
  | (k, v) :: rest => if String.eqb k key then Some v else TryGetValue rest key
  end.

Fixpoint Contains (c : ascii) (s : string) : bool :=
  match s with
  | EmptyString => false
  | String a s' => Ascii.eqb a c || Contains c s'
  end.

Fixpoint StartsWith (p s : string) : bool :=
  match p, s with
  | EmptyString, _ => true
  | String a p', String b s' => Ascii.eqb a b && StartsWith p' s'
  | String _ _, EmptyString => false
  end.

(** [$"{item.Id}|{option.Key}"] *)
Definition compositeIdOf (item : ChoiceItem) (option : ChoiceOption) : string :=
  ci_Id item ++ "|" ++ opt_Key option.

Definition Clamp (value min max : Q) : Q :=
  if Qlt_le_dec value min then min
  else if Qlt_le_dec max value then max
  else value.

(** *** Multipliers *)

Definition CalculateTimeMultiplier (averageTimeMs : option Q) : Q :=
  match averageTimeMs with
  | None => 1
  | Some t =>
      if Qle_bool t 0 then 1
      else if Qlt_le_dec t 1500 then 85 # 100
      else if Qlt_le_dec t 2500 then 93 # 100
      else if Qlt_le_dec t 4500 then 1
      else if Qlt_le_dec t 6500 then 105 # 100
      else 11 # 10
  end.

Definition CalculateConfidenceMultiplier (averageConfidence : option Q) : Q :=
  match averageConfidence with
  | None => 1
  | Some c =>
      if Qlt_le_dec c (3 # 10) then 8 # 10
      else if Qlt_le_dec c (5 # 10) then 9 # 10
      else if Qlt_le_dec c (7 # 10) then 1
      else if Qlt_le_dec c (85 # 100) then 105 # 100
      else 11 # 10
  end.

(** [values.Length > 1 ? values.Select(v => Math.Pow(v - mean, 2)).Sum()
    / (values.Length - 1) : 0] *)
Definition sampleVariance (values : list Q) (mean : Q) : Q :=
  if (1 <? Count values)%Z
  then Sum (List.map (fun v => (v - mean) ^ 2) values)
       / inject_Z (Count values - 1)
  else 0.

(** The variance bucket of an option, clamped. *)
Definition optionRecommendedWeight (variance : Q) : Q :=
  Clamp (if Qlt_le_dec 2 variance then 12 # 10
         else if Qlt_le_dec 1 variance then 1
         else if Qlt_le_dec (5 # 10) variance then 8 # 10
         else 6 # 10)
        (5 # 10) (14 # 10).

(** *** Cronbach's alpha *)

Definition CronbachAlpha (itemVariances : list Q) (respondentCount : Z) : option Q :=
  let k := Count itemVariances in
  if ((k <? 2) || (respondentCount <? 2))%Z then None
  else
    let totalVariance := Sum itemVariances in
    if Qeq_bool totalVariance 0 then None
    else
      let averageVariance := totalVariance / inject_Z k in
      if Qeq_bool averageVariance 0 then None
      else
        Some ((inject_Z k / (inject_Z k - 1))
              * (1 - (Sum itemVariances / (inject_Z k * averageVariance)))).

(** *** The analyzer

    [Math.Sqrt] is the one primitive without a rational counterpart; the
    analyzer is parameterised by it.  It is reached only through the
    item-total correlation of Likert items. *)

Section Analyzer.
Variable Math_Sqrt : Q → Q.
Variable _likertItems : list LikertItem.
Variable _forcedChoiceItems : list ChoiceItem.
Variable _scenarioItems : list ChoiceItem.

Definition PearsonCorrelation (xs ys : list Q) : option Q :=
  if negb (Count xs =? Count ys)%Z || (Count xs <? 2)%Z then None
  else
    let mx := Average xs in
    let my := Average ys in
    let '(numerator, sumSqX, sumSqY) :=
      fold_left
        (fun '(numerator, sumSqX, sumSqY) '(x, y) =>
           let dx := x - mx in
           let dy := y - my in
           (numerator + dx * dy, sumSqX + dx * dx, sumSqY + dy * dy))
        (combine xs ys) (0, 0, 0) in
    let denominator := Math_Sqrt (sumSqX * sumSqY) in
    if Qeq_bool denominator 0 then None
    else Some (numerator / denominator).

Definition ItemTotalCorrelation (itemValues : list Q)
    (allResponses : list ResponseRecord) (itemId : string) : option Q :=
  if (Count itemValues <? 3)%Z then None
  else
    let byRespondent :=
      List.map
        (fun '(key, g) =>
           (key, List.map Value
                   (List.filter (fun r => negb (String.eqb (ItemId r) itemId)) g)))
        (GroupBy RespondentId allResponses) in
    let filtered :=
      flat_map
        (fun '(key, group) =>
           match TryGetValue byRespondent key with
           | None => []
           | Some totals =>
               if (Count totals =? 0)%Z then []
               else [(Average (List.map Value group), Average totals)]
           end)
        (GroupBy RespondentId
           (List.filter (fun r => String.eqb (ItemId r) itemId) allResponses)) in
    if (Count filtered <? 3)%Z then None
    else PearsonCorrelation (List.map fst filtered) (List.map snd filtered).

(** The part of the three loop bodies that is common: timing and
    confidence averages, effective weight, and the summary record.  A
    rational average is never NaN, so both optional averages are always
    reported. *)
Definition summarize (itemId axis category : string) (mean variance : Q)
    (recommendedWeight : Q) (correlation : option Q)
    (records : list ResponseRecord) : ItemSummary :=
  let averageTime := Average (DefaultIfEmpty (presentValues ResponseTimeMs records)) in
  let averageConfidence := Average (DefaultIfEmpty (presentValues Confidence records)) in
  let effectiveWeight :=
    recommendedWeight
    * CalculateTimeMultiplier (Some averageTime)
    * CalculateConfidenceMultiplier (Some averageConfidence) in
  {| is_ItemId := itemId; is_Axis := axis; is_Category := category;
     is_Mean := mean; is_Variance := variance;
     is_EffectiveWeight := effectiveWeight;
     is_RecommendedWeight := recommendedWeight;
     is_ItemTotalCorrelation := correlation;
     is_AverageResponseTimeMs := Some averageTime;
     is_AverageConfidence := Some averageConfidence |}.

Definition likertSummaries (responses : list ResponseRecord) : list ItemSummary :=
  let itemGroups :=
    GroupBy ItemId
      (List.filter
         (fun r => existsb (fun l => String.eqb (li_Id l) (ItemId r)) _likertItems)
         responses) in
  flat_map
    (fun item =>
       match TryGetValue itemGroups (li_Id item) with
       | None => []
       | Some records =>
           let values := List.map Value records in
           let mean := Average values in
           let variance := sampleVariance values mean in
           let correlation := ItemTotalCorrelation values responses (li_Id item) in
           let recommendedWeight :=
             match correlation with
             | Some c => Clamp (1 + c * (1 # 2)) (4 # 10) (16 # 10)
             | None => 1
             end in
           [summarize (li_Id item) (li_Axis item) (li_PrimaryCategory item)
                      mean variance recommendedWeight correlation records]
       end)
    _likertItems.

Definition axisAlphas (responses : list ResponseRecord)
    (itemSummaries : list ItemSummary) : list (string * option Q) :=
  List.map
    (fun '(axis, group) =>
       (axis,
        CronbachAlpha (List.map is_Variance group)
          (Z.max 1 (Z.quot (Count responses) (Z.max (Count group) 1)))))
    (GroupBy is_Axis itemSummaries).

Definition AnalyzeLikert (responses : list ResponseRecord)
    : list ItemSummary * list (string * option Q) :=
  let itemSummaries := likertSummaries responses in
  (itemSummaries, axisAlphas responses itemSummaries).

Definition optionSummaries (items : list ChoiceItem)
    (itemGroups : list (string * list ResponseRecord)) : list ItemSummary :=
  flat_map
    (fun item =>
       flat_map
         (fun option =>
            let compositeId := compositeIdOf item option in
            match TryGetValue itemGroups compositeId with
            | None => []
            | Some records =>
                let values := List.map Value records in
                let mean := Average values in
                let variance := sampleVariance values mean in
                let recommendedWeight := optionRecommendedWeight variance in
                [summarize compositeId (wc_Axis (opt_Primary option))
                           (wc_Category (opt_Primary option))
                           mean variance recommendedWeight None records]
            end)
         (ci_Options item))
    items.

Definition AnalyzeForcedChoice (responses : list ResponseRecord) : list ItemSummary :=
  let itemGroups :=
    GroupBy ItemId (List.filter (fun r => Contains "|" (ItemId r)) responses) in
  optionSummaries _forcedChoiceItems itemGroups.

Definition AnalyzeScenario (responses : list ResponseRecord) : list ItemSummary :=
  let itemGroups :=
    GroupBy ItemId (List.filter (fun r => StartsWith "SC-" (ItemId r)) responses) in
  optionSummaries _scenarioItems itemGroups.

End Analyzer.
End ScoreOptimizer.

(** *** Specification vocabulary for the analyzer *)

Module AnalyzerSpec.
Import ScoreOptimizer.

(** A dictionary built from groups has an entry exactly for the keys with
    at least one element. *)
Definition nonEmpty {A : Type} (l : list A) : option (list A) :=
  match l with
  | [] => None
  | _ => Some l
  end.

Fixpoint sumOf (l : list Q) : Q :=
  match l with
  | [] => 0
  | v :: l' => v + sumOf l'
  end.

Definition sizeOf (l : list Q) : Q := inject_Z (Z.of_nat (length l)).

Definition meanOf (l : list Q) : Q := sumOf l / sizeOf l.

(** Sum of squared deviations over n - 1, and 0 when n <= 1. *)
Definition besselVariance (l : list Q) : Q :=
  match l with
  | [] | [_] => 0
  | _ => sumOf (List.map (fun v => (v - meanOf l) * (v - meanOf l)) l)
         / (sizeOf l - 1)
  end.

(** All recorded values of an item, in log order. *)
Definition valuesOf (responses : list ResponseRecord) (itemId : string) : list Q :=
  List.map Value (List.filter (fun r => String.eqb (ItemId r) itemId) responses).

(** "Every option of the catalog that has responses under its composite id
    gets a summary carrying the mean and the sample variance of those
    responses." *)
Definition optionStatisticsReported (items : list ChoiceItem)
    (responses : list ResponseRecord) (report : list ItemSummary) : Prop :=
  ∀ item option,
    In item items → In option (ci_Options item) →
    valuesOf responses (compositeIdOf item option) ≠ [] →
    ∃ s, In s report ∧
         is_ItemId s = compositeIdOf item option ∧
         is_Mean s == meanOf (valuesOf responses (compositeIdOf item option)) ∧
         is_Variance s == besselVariance (valuesOf responses (compositeIdOf item option)).

(** The confidence multiplier as the specification words it. *)
Definition confidenceMultiplierAsSpecified (averageConfidence : option Q) : Q :=
  match averageConfidence with
  | None => 1
  | Some c =>
      if Qlt_le_dec c (3 # 10) then 8 # 10
      else if Qlt_le_dec c (5 # 10) then 9 # 10
      else if Qlt_le_dec c (7 # 10) then 1
      else if Qlt_le_dec c (85 # 100) then 105 # 100
      else 11 # 10
  end.

(** Average confidence of an item's records, absent when none carries one. *)
Definition averageConfidenceOf (records : list ResponseRecord) : option Q :=
  match presentValues Confidence records with
  | [] => None
  | cs => Some (meanOf cs)
  end.

(** The summaries of one axis, in report order. *)
Definition summariesOf (axis : string) (summaries : list ItemSummary)
    : list ItemSummary :=
  List.filter (fun s => String.eqb (is_Axis s) axis) summaries.

(** (k / (k - 1)) * (1 - sum v_i / (k * mean v)) *)
Definition alphaFormula (variances : list Q) : Q :=
  (sizeOf variances / (sizeOf variances - 1))
  * (1 - sumOf variances / (sizeOf variances * meanOf variances)).

(** "Alpha equals the formula, and is undefined exactly when k < 2, the
    respondent count is below 2, or the mean item variance is 0", for one
    reported value and a given respondent count. *)
Definition alphaReportedAs (respondentCount : Z) (variances : list Q)
    (reported : option Q) : Prop :=
  (reported = None ↔
     (Count variances < 2)%Z ∨ (respondentCount < 2)%Z ∨ meanOf variances == 0) ∧
  (∀ alpha, reported = Some alpha → alpha == alphaFormula variances).

(** The respondents backing an axis: the distinct respondent ids among the
    records of the Likert items of that axis. *)
Definition respondentsOf (items : list LikertItem)
    (responses : list ResponseRecord) (axis : string) : list string :=
  nodup string_dec
    (List.map RespondentId
       (List.filter
          (fun r => existsb (fun l => String.eqb (li_Id l) (ItemId r)
                                      && String.eqb (li_Axis l) axis) items)
          responses)).

(** What the analyzer passes for the respondent count of an axis with k
    summaries: the number of records of the whole log divided by k (integer
    division), and at least 1. *)
Definition respondentEstimate (responses : list ResponseRecord) (k : Z) : Z :=
  Z.max 1 (Z.quot (Count responses) k).

End AnalyzerSpec.

(** *** A small calibration run used in the examples *)

Module AnalyzerExample.
Import ScoreOptimizer.
Local Open Scope string_scope.

(** An instance of [Math.Sqrt] that is exact on squares of integers. *)
Definition integerSqrt (x : Q) : Q := inject_Z (Z.sqrt (Qfloor x)).

Definition record (respondent item : string) (value : Q)
    (time confidence : option Q) : ResponseRecord :=
  {| RespondentId := respondent; ItemId := item; Value := value;
     ResponseTimeMs := time; Confidence := confidence |}.

Definition choice (key category : string) : ChoiceOption :=
  {| opt_Key := key;
     opt_Primary := {| wc_Axis := "activity"; wc_Category := category;
                       wc_Score := 1; wc_Weight := 1 |};
     opt_Secondary := [] |}.

Definition likertItems : list LikertItem :=
  [ {| li_Id := "L-01"; li_Axis := "activity"; li_PrimaryCategory := "science";
       li_Polarity := "positive"; li_RelatedCategories := [] |} ].

(** One answer to L-01, timed, without a confidence value. *)
Definition unratedLog : list ResponseRecord :=
  [ record "r1" "L-01" 5 (Some 3000) None ].

(** A scenario question whose id does not follow the "SC-" convention,
    and the same question under a conventional id. *)
Definition plainQuestion : ChoiceItem :=
  {| ci_Id := "S1"; ci_Required := true;
     ci_Options := [choice "A" "science"; choice "B" "arts"] |}.

Definition prefixedQuestion : ChoiceItem :=
  {| ci_Id := "SC-1"; ci_Required := true;
     ci_Options := [choice "A" "science"; choice "B" "arts"] |}.

Definition scenarioPlain : list ChoiceItem := [plainQuestion].

Definition scenarioPrefixed : list ChoiceItem := [prefixedQuestion].

Definition plainLog : list ResponseRecord :=
  [ record "r1" "S1|A" 1 None None; record "r2" "S1|A" 3 None None ].

Definition prefixedLog : list ResponseRecord :=
  [ record "r1" "SC-1|A" 1 None None; record "r2" "SC-1|A" 3 None None ].

(** Three items of one axis.  In [partialLog] two respondents answer:
    r1 all three items, r2 the first two.  In [repeatedLog] a single
    respondent answers the first two items twice. *)
Definition axisItems : list LikertItem :=
  [ {| li_Id := "L-01"; li_Axis := "activity"; li_PrimaryCategory := "science";
       li_Polarity := "positive"; li_RelatedCategories := [] |};
    {| li_Id := "L-02"; li_Axis := "activity"; li_PrimaryCategory := "science";
       li_Polarity := "positive"; li_RelatedCategories := [] |};
    {| li_Id := "L-03"; li_Axis := "activity"; li_PrimaryCategory := "arts";
       li_Polarity := "positive"; li_RelatedCategories := [] |} ].

Definition partialLog : list ResponseRecord :=
  [ record "r1" "L-01" 1 None None; record "r1" "L-02" 2 None None;
    record "r1" "L-03" 3 None None;
    record "r2" "L-01" 3 None None; record "r2" "L-02" 5 None None ].

Definition repeatedLog : list ResponseRecord :=
  [ record "r1" "L-01" 1 None None; record "r1" "L-02" 2 None None;
    record "r1" "L-01" 3 None None; record "r1" "L-02" 5 None None ].

End AnalyzerExample.

(** ** Response aggregator (main.tsx) *)

(** *** JavaScript values the aggregator relies on *)

Module JsNum.

(** A number is a rational or NaN. *)
Inductive num :=
  | Fin (q : Q)
  | NaN.

Definition add (a b : num) : num :=
  match a, b with
  | Fin x, Fin y => Fin (x + y)
  | _, _ => NaN
  end.

Definition sub (a b : num) : num :=
  match a, b with
  | Fin x, Fin y => Fin (x - y)
  | _, _ => NaN
  end.

Definition mul (a b : num) : num :=
  match a, b with
  | Fin x, Fin y => Fin (x * y)
  | _, _ => NaN
  end.

(** An array read is [undefined] out of range, and [undefined] used as a
    factor is NaN. *)
Definition ofRead (o : option Q) : num :=
  match o with
  | Some q => Fin q
  | None => NaN
  end.

(** [Array.prototype.sort] reads a NaN comparator result as +0. *)
Definition sortOrder (v : num) : Q :=
  match v with
  | Fin q => q
  | NaN => 0
  end.

(** [a >= b]: false as soon as one side is NaN. *)
Definition geb (a b : num) : bool :=
  match a, b with
  | Fin x, Fin y => Qle_bool y x
  | _, _ => false
  end.

Definition isFinite (a : num) : bool :=
  match a with
  | Fin _ => true
  | NaN => false
  end.

End JsNum.

(** [s.split(c)]: never empty, one more piece than separators. *)
Fixpoint split (c : ascii) (s : string) : list string :=
  match s with
  | EmptyString => [EmptyString]
  | String a s' =>
      if Ascii.eqb a c then EmptyString :: split c s'
      else match split c s' with
           | [] => [String a EmptyString]
           | piece :: pieces => String a piece :: pieces
           end
  end.

(** A [Map] (and a plain object with non-numeric keys) keeps its entries
    in insertion order; [set] on a present key keeps its position. *)
Fixpoint assoc_get {V : Type} (key : string) (m : list (string * V)) : option V :=
  match m with
  | [] => None
  | (k, v) :: rest => if String.eqb k key then Some v else assoc_get key rest
  end.

Fixpoint assoc_set {V : Type} (key : string) (value : V) (m : list (string * V))
    : list (string * V) :=
  match m with
  | [] => [(key, value)]
  | (k, v) :: rest =>
      if String.eqb k key then (k, value) :: rest
      else (k, v) :: assoc_set key value rest
  end.

(** *** Question bank, continued (types.ts) *)

Record WeightedCategory := {
  wc_axis : string;
  wc_category : string;
  wc_score : Q;
  wc_weight : Q
}.

(** [ForcedChoiceOption] and [ScenarioOption] are the same interface. *)
Record ChoiceOption := {
  o_key : string;
  o_label : string;
  o_primary : WeightedCategory;
  o_secondary : option (list WeightedCategory);
  o_tags : option (list Tag)
}.

Record ForcedChoiceQuestion := {
  fq_id : string;
  fq_required : bool;
  fq_prompt : string;
  fq_options : list ChoiceOption
}.

Record ScenarioQuestion := {
  sq_id : string;
  sq_required : bool;
  sq_title : string;
  sq_scenario : string;
  sq_options : list ChoiceOption
}.

Record QuestionBank := {
  likert : list LikertQuestion;
  forcedChoice : list ForcedChoiceQuestion;
  scenario : list ScenarioQuestion
}.

(** *** Session answers.  Each answer object is given by its
    [Object.entries], in insertion order. *)

Record LikertAnswerState := {
  la_value : Q;
  la_responseTimeMs : option Q
}.

Record ForcedAnswerState := {
  fa_optionKey : string;
  fa_confidence : Q;
  fa_responseTimeMs : option Q
}.

Record ScenarioAnswerState := {
  sa_rankedOptions : list string;
  sa_responseTimeMs : option Q
}.

Module Aggregator.
Import JsNum.
Local Open Scope string_scope.

(** [const weights = [1.0, 0.5, 0.25]] *)
Definition weights : list Q := [1; 1 # 2; 1 # 4].

(** [weights[index]] as a factor. *)
Definition rankWeightAt (index : nat) : num := ofRead (weights !! index).

Definition normalize (polarity : Polarity) (value : Q) : Q :=
  match polarity with
  | reverse => 8 - value
  | positive => value
  end.

Definition isAptitudeAxis (axis : string) : bool :=
  String.eqb axis "activity" || String.eqb axis "learning_style".

Definition findLikert (questionBank : QuestionBank) (id : string) :=
  List.find (fun q => String.eqb (lq_id q) id) (likert questionBank).

Definition findForced (questionBank : QuestionBank) (questionId : string) :=
  List.find (fun q => String.eqb (fq_id q) questionId) (forcedChoice questionBank).

Definition findScenario (questionBank : QuestionBank) (id : string) :=
  List.find (fun q => String.eqb (sq_id q) id) (scenario questionBank).

Definition findOption (options : list ChoiceOption) (optionKey : string) :=
  List.find (fun o => String.eqb (o_key o) optionKey) options.

(** [const [questionId] = id.split('|')] *)
Definition questionIdOf (id : string) : string := List.hd "" (split "|" id).

(** [rankedOptions.forEach((optionKey, index) => ...)] *)
Definition forEachIndexed {S : Type} (body : S → string → nat → S)
    (rankedOptions : list string) (s : S) : S :=
  fold_left (fun s '(index, optionKey) => body s optionKey index)
            (combine (seq 0 (length rankedOptions)) rankedOptions) s.

(** **** categoryScore *)

Definition addScore (key : string) (value : num) (scores : list (string * num))
    : list (string * num) :=
  assoc_set key (add (default (Fin 0) (assoc_get key scores)) value) scores.

Definition byScoreDesc (a b : string * num) : Q := sortOrder (sub (snd b) (snd a)).

Definition categoryLikert (questionBank : QuestionBank)
    (scores : list (string * num)) (entry : string * LikertAnswerState) :=
  let '(id, answer) := entry in
  match findLikert questionBank id with
  | None => scores
  | Some question =>
      let normalized := normalize (lq_polarity question) (la_value answer) in
      let scores := addScore (lq_primaryCategory question) (Fin normalized) scores in
      fold_left
        (fun scores rel =>
           addScore (rc_category rel) (Fin (normalized * rc_weight rel)) scores)
        (default [] (lq_relatedCategories question)) scores
  end.

Definition categoryForced (questionBank : QuestionBank)
    (scores : list (string * num)) (entry : string * ForcedAnswerState) :=
  let '(id, answer) := entry in
  if String.eqb (fa_optionKey answer) "SKIP" then scores
  else
    match findForced questionBank (questionIdOf id) with
    | None => scores
    | Some question =>
        match findOption (fq_options question) (fa_optionKey answer) with
        | None => scores
        | Some option =>
            let primary := o_primary option in
            let scores :=
              addScore (wc_category primary)
                (Fin (wc_score primary * wc_weight primary * fa_confidence answer))
                scores in
            fold_left
              (fun scores sec =>
                 addScore (wc_category sec)
                   (Fin (wc_score sec * wc_weight sec * fa_confidence answer)) scores)
              (default [] (o_secondary option)) scores
        end
    end.

Definition categoryScenario (questionBank : QuestionBank)
    (scores : list (string * num)) (entry : string * ScenarioAnswerState) :=
  let '(id, answer) := entry in
  match findScenario questionBank id with
  | None => scores
  | Some question =>
      forEachIndexed
        (fun scores optionKey index =>
           match findOption (sq_options question) optionKey with
           | None => scores
           | Some option =>
               let rankWeight := rankWeightAt index in
               let primary := o_primary option in
               let scores :=
                 addScore (wc_category primary)
                   (mul (Fin (wc_score primary * wc_weight primary)) rankWeight)
                   scores in
               fold_left
                 (fun scores sec =>
                    addScore (wc_category sec)
                      (mul (Fin (wc_score sec * wc_weight sec)) rankWeight) scores)
                 (default [] (o_secondary option)) scores
           end)
        (sa_rankedOptions answer) scores
  end.

Definition categoryScore (questionBank : QuestionBank)
    (likertAnswers : list (string * LikertAnswerState))
    (forcedAnswers : list (string * ForcedAnswerState))
    (scenarioAnswers : list (string * ScenarioAnswerState))
    : list (string * num) :=
  let scores := [] in
  let scores := fold_left (categoryLikert questionBank) likertAnswers scores in
  let scores := fold_left (categoryForced questionBank) forcedAnswers scores in
  let scores := fold_left (categoryScenario questionBank) scenarioAnswers scores in
  js_sort byScoreDesc scores.

(** **** aptitudeScores: the same walk, gated by the axis of each
    contribution *)

Definition addAptitude (axis key : string) (value : num)
    (scores : list (string * num)) : list (string * num) :=
  if isAptitudeAxis axis then addScore key value scores else scores.

Definition aptitudeLikert (questionBank : QuestionBank)
    (scores : list (string * num)) (entry : string * LikertAnswerState) :=
  let '(id, answer) := entry in
  match findLikert questionBank id with
  | None => scores
  | Some question =>
      let normalized := normalize (lq_polarity question) (la_value answer) in
      let scores :=
        addAptitude (lq_axis question) (lq_primaryCategory question)
                    (Fin normalized) scores in
      fold_left
        (fun scores rel =>
           addAptitude (rc_axis rel) (rc_category rel)
                       (Fin (normalized * rc_weight rel)) scores)
        (default [] (lq_relatedCategories question)) scores
  end.

Definition aptitudeForced (questionBank : QuestionBank)
    (scores : list (string * num)) (entry : string * ForcedAnswerState) :=
  let '(id, answer) := entry in
  if String.eqb (fa_optionKey answer) "SKIP" then scores
  else
    match findForced questionBank (questionIdOf id) with
    | None => scores
    | Some question =>
        match findOption (fq_options question) (fa_optionKey answer) with
        | None => scores
        | Some option =>
            let primary := o_primary option in
            let scores :=
              addAptitude (wc_axis primary) (wc_category primary)
                (Fin (wc_score primary * wc_weight primary * fa_confidence answer))
                scores in
            fold_left
              (fun scores sec =>
                 addAptitude (wc_axis sec) (wc_category sec)
                   (Fin (wc_score sec * wc_weight sec * fa_confidence answer)) scores)
              (default [] (o_secondary option)) scores
        end
    end.

Definition aptitudeScenario (questionBank : QuestionBank)
    (scores : list (string * num)) (entry : string * ScenarioAnswerState) :=
  let '(id, answer) := entry in
  match findScenario questionBank id with
  | None => scores
  | Some question =>
      forEachIndexed
        (fun scores optionKey index =>
           match findOption (sq_options question) optionKey with
           | None => scores
           | Some option =>
               let rankWeight := rankWeightAt index in
               let primary := o_primary option in
               let scores :=
                 addAptitude (wc_axis primary) (wc_category primary)
                   (mul (Fin (wc_score primary * wc_weight primary)) rankWeight)
                   scores in
               fold_left
                 (fun scores sec =>
                    addAptitude (wc_axis sec) (wc_category sec)
                      (mul (Fin (wc_score sec * wc_weight sec)) rankWeight) scores)
                 (default [] (o_secondary option)) scores
           end)
        (sa_rankedOptions answer) scores
  end.

Definition aptitudeScores (questionBank : QuestionBank)
    (likertAnswers : list (string * LikertAnswerState))
    (forcedAnswers : list (string * ForcedAnswerState))
    (scenarioAnswers : list (string * ScenarioAnswerState))
    : list (string * num) :=
  let scores := [] in
  let scores := fold_left (aptitudeLikert questionBank) likertAnswers scores in
  let scores := fold_left (aptitudeForced questionBank) forcedAnswers scores in
  let scores := fold_left (aptitudeScenario questionBank) scenarioAnswers scores in
  js_sort byScoreDesc scores.

(** **** tagScores *)

Record TagEntry := {
  score : num;
  questions : list string
}.

Definition includes (l : list string) (x : string) : bool :=
  existsb (String.eqb x) l.

(** The [addScore] closure of [tagScores]. *)
Definition addTagScore (key : string) (value : num) (questionId : string)
    (scores : list (string * TagEntry)) : list (string * TagEntry) :=
  let entry := default {| score := Fin 0; questions := [] |} (assoc_get key scores) in
  assoc_set key
    {| score := add (score entry) value;
       questions := if includes (questions entry) questionId
                    then questions entry
                    else (questions entry ++ [questionId])%list |}
    scores.

Definition byTagScoreDesc (a b : string * TagEntry) : Q :=
  sortOrder (sub (score (snd b)) (score (snd a))).

Definition tagLikert (questionBank : QuestionBank)
    (scores : list (string * TagEntry)) (entry : string * LikertAnswerState) :=
  let '(id, answer) := entry in
  match findLikert questionBank id with
  | None => scores
  | Some question =>
      let normalized := normalize (lq_polarity question) (la_value answer) in
      fold_left
        (fun scores tag =>
           addTagScore (tag_name tag) (Fin (normalized * tag_weight tag)) id scores)
        (default [] (lq_tags question)) scores
  end.

Definition tagForced (questionBank : QuestionBank)
    (scores : list (string * TagEntry)) (entry : string * ForcedAnswerState) :=
  let '(id, answer) := entry in
  if String.eqb (fa_optionKey answer) "SKIP" then scores
  else
    let questionId := questionIdOf id in
    match findForced questionBank questionId with
    | None => scores
    | Some question =>
        match findOption (fq_options question) (fa_optionKey answer) with
        | None => scores
        | Some option =>
            let primary := o_primary option in
            fold_left
              (fun scores tag =>
                 addTagScore (tag_name tag)
                   (Fin (wc_score primary * wc_weight primary
                         * fa_confidence answer * tag_weight tag))
                   questionId scores)
              (default [] (o_tags option)) scores
        end
    end.

Definition tagScenario (questionBank : QuestionBank)
    (scores : list (string * TagEntry)) (entry : string * ScenarioAnswerState) :=
  let '(id, answer) := entry in
  match findScenario questionBank id with
  | None => scores
  | Some question =>
      forEachIndexed
        (fun scores optionKey index =>
           match findOption (sq_options question) optionKey with
           | None => scores
           | Some option =>
               let rankWeight := rankWeightAt index in
               let primary := o_primary option in
               fold_left
                 (fun scores tag =>
                    addTagScore (tag_name tag)
                      (mul (mul (Fin (wc_score primary * wc_weight primary)) rankWeight)
                           (Fin (tag_weight tag)))
                      id scores)
                 (default [] (o_tags option)) scores
           end)
        (sa_rankedOptions answer) scores
  end.

(** The map of tag entries before sorting. *)
Definition tagEntries (questionBank : QuestionBank)
    (likertAnswers : list (string * LikertAnswerState))
    (forcedAnswers : list (string * ForcedAnswerState))
    (scenarioAnswers : list (string * ScenarioAnswerState))
    : list (string * TagEntry) :=
  let scores := [] in
  let scores := fold_left (tagLikert questionBank) likertAnswers scores in
  let scores := fold_left (tagForced questionBank) forcedAnswers scores in
  fold_left (tagScenario questionBank) scenarioAnswers scores.

Definition tagScores (questionBank : QuestionBank)
    (likertAnswers : list (string * LikertAnswerState))
    (forcedAnswers : list (string * ForcedAnswerState))
    (scenarioAnswers : list (string * ScenarioAnswerState))
    : list (string * TagEntry) :=
  take 10
    (js_sort byTagScoreDesc
       (tagEntries questionBank likertAnswers forcedAnswers scenarioAnswers)).

(** **** cooccurrenceData

    [matrix] is a plain object of plain objects used as a two-level map.
    Category names are taken not to be canonical array indices or names
    inherited from [Object.prototype], so that enumeration follows
    insertion order and a missing key reads [undefined]. *)

Record Cell := {
  x : string;
  y : string;
  z : Z
}.

Definition increment (topCategories : list string) (cat1 cat2 : string)
    (matrix : list (string * list (string * Z))) : list (string * list (string * Z)) :=
  if includes topCategories cat1 && includes topCategories cat2
     && negb (String.eqb cat1 cat2)
  then
    let key1 := if String.ltb cat1 cat2 then cat1 else cat2 in
    let key2 := if String.ltb cat1 cat2 then cat2 else cat1 in
    let row := default [] (assoc_get key1 matrix) in
    let cell :=
      match assoc_get key2 row with
      | None => 0%Z
      | Some n => if (n =? 0)%Z then 0%Z else n
      end in
    assoc_set key1 (assoc_set key2 (cell + 1)%Z row) matrix
  else matrix.

(** [for i, for j > i: increment(categories[i], categories[j])] *)
Fixpoint pairsOf (categories : list string) : list (string * string) :=
  match categories with
  | [] => []
  | c :: rest => (List.map (pair c) rest ++ pairsOf rest)%list
  end.

Definition incrementAll (topCategories : list string) (categories : list string)
    (matrix : list (string * list (string * Z))) :=
  fold_left (fun matrix '(c1, c2) => increment topCategories c1 c2 matrix)
            (pairsOf categories) matrix.

Definition likertCategories (q : LikertQuestion) : list string :=
  lq_primaryCategory q :: List.map rc_category (default [] (lq_relatedCategories q)).

Definition optionCategories (o : ChoiceOption) : list string :=
  wc_category (o_primary o) :: List.map wc_category (default [] (o_secondary o)).

Definition cooccurrenceMatrix (questionBank : QuestionBank)
    (topCategories : list string) : list (string * list (string * Z)) :=
  let matrix := [] in
  let matrix :=
    fold_left (fun matrix q => incrementAll topCategories (likertCategories q) matrix)
              (likert questionBank) matrix in
  let matrix :=
    fold_left
      (fun matrix q =>
         fold_left (fun matrix o => incrementAll topCategories (optionCategories o) matrix)
                   (fq_options q) matrix)
      (forcedChoice questionBank) matrix in
  fold_left
    (fun matrix q =>
       fold_left (fun matrix o => incrementAll topCategories (optionCategories o) matrix)
                 (sq_options q) matrix)
    (scenario questionBank) matrix.

Definition cooccurrenceData (questionBank : QuestionBank)
    (categoryScore : list (string * num)) : list Cell :=
  if (length categoryScore =? 0)%nat then []
  else
    let topCategories := List.map fst categoryScore in
    let matrix := cooccurrenceMatrix questionBank topCategories in
    flat_map
      (fun '(cat1, row) =>
         List.map (fun '(cat2, count) => {| x := cat1; y := cat2; z := count |}) row)
      matrix.

End Aggregator.

(** *** A small session used to exercise the aggregator *)

Module AggregatorExample.
Import JsNum Aggregator.
Local Open Scope string_scope.

Definition tagged (name : string) : option (list Tag) :=
  Some [ {| tag_name := name; tag_weight := 1 |} ].

Definition option (key axis category : string) (score : Q)
    (tags : option (list Tag)) : ChoiceOption :=
  {| o_key := key; o_label := key;
     o_primary := {| wc_axis := axis; wc_category := category;
                     wc_score := score; wc_weight := 1 |};
     o_secondary := None; o_tags := tags |}.

(** One Likert item, related to a second category, and one scenario with
    four options. *)
Definition bank : QuestionBank :=
  {| likert :=
       [ {| lq_id := "L-01"; lq_axis := "values"; lq_primaryCategory := "law";
            lq_polarity := positive; lq_required := true;
            lq_relatedCategories :=
              Some [ {| rc_axis := "values"; rc_category := "business";
                        rc_weight := 1 # 2 |} ];
            lq_tags := tagged "debate" |} ];
     forcedChoice := [];
     scenario :=
       [ {| sq_id := "SC-01"; sq_required := true; sq_title := "Festival";
            sq_scenario := "Pick a role";
            sq_options :=
              [ option "A" "activity" "science" 4 (tagged "lab");
                option "B" "activity" "arts" 4 (tagged "stage");
                option "C" "learning_style" "business" 3 None;
                option "D" "activity" "engineering" 2 (tagged "lab") ] |} ] |}.

Definition likertAnswers : list (string * LikertAnswerState) :=
  [ ("L-01", {| la_value := 1; la_responseTimeMs := None |}) ].

(** The ranking the scenario step submits: every option of the question. *)
Definition rankAll : list (string * ScenarioAnswerState) :=
  [ ("SC-01", {| sa_rankedOptions := ["A"; "B"; "C"; "D"];
                 sa_responseTimeMs := None |}) ].

(** The same ranking cut after its third entry. *)
Definition rankThree : list (string * ScenarioAnswerState) :=
  [ ("SC-01", {| sa_rankedOptions := ["A"; "B"; "C"];
                 sa_responseTimeMs := None |}) ].

End AggregatorExample.

(** ** Weight applier (ScoreOptimizer, C#)

    The catalog file is handled as a generic JSON tree.  A JSON [null] and
    an absent property are both the C# [null] node.  Property names of one
    object are taken to be distinct. *)

Module WeightApplier.
Import ScoreOptimizer.
Local Open Scope string_scope.

#[warnings="-register-all"]
Inductive JsonNode :=
  | JsonNull
  | JsonBool (b : bool)
  | JsonNumber (value : Q)
  | JsonString (value : string)
  | JsonArray (nodes : list JsonNode)
  | JsonObject (properties : list (string * JsonNode)).

(** A computation that may throw ([InvalidOperationException] from the
    node accessors); a throw leaves [ApplyToFile] before anything is
    written. *)
Inductive result (A : Type) :=
  | Ok (a : A)
  | Throws.
Arguments Ok {A} a.
Arguments Throws {A}.

Definition bind {A B : Type} (r : result A) (k : A → result B) : result B :=
  match r with
  | Ok a => k a
  | Throws => Throws
  end.

Notation "x <- r ;; k" := (bind r (fun x => k))
  (at level 100, r at next level, right associativity).

(** [node?[name]]: [null] stays [null], an object yields the property or
    [null], any other node throws. *)
Definition getProperty (node : JsonNode) (name : string) : result JsonNode :=
  match node with
  | JsonNull => Ok JsonNull
  | JsonObject properties => Ok (default JsonNull (assoc_get name properties))
  | _ => Throws
  end.

(** [node?.GetValue<string>()] *)
Definition getString (node : JsonNode) : result (option string) :=
  match node with
  | JsonNull => Ok None
  | JsonString s => Ok (Some s)
  | _ => Throws
  end.

(** [node?.GetValue<double?>()] *)
Definition getDouble (node : JsonNode) : result (option Q) :=
  match node with
  | JsonNull => Ok None
  | JsonNumber v => Ok (Some v)
  | _ => Throws
  end.

(** [value == wanted] for a [string?] on the left. *)
Definition stringEquals (value : option string) (wanted : string) : bool :=
  match value with
  | Some s => String.eqb s wanted
  | None => false
  end.

(** [node => node?[name]?.GetValue<string>() == wanted] *)
Definition hasString (name wanted : string) (node : JsonNode) : result bool :=
  property <- getProperty node name ;;
  value <- getString property ;;
  Ok (stringEquals value wanted).

(** [FirstOrDefault(predicate)], with the position of the node found. *)
Fixpoint FirstOrDefault (predicate : JsonNode → result bool)
    (nodes : list JsonNode) (index : nat) : result (option (nat * JsonNode)) :=
  match nodes with
  | [] => Ok None
  | node :: rest =>
      found <- predicate node ;;
      if found then Ok (Some (index, node))
      else FirstOrDefault predicate rest (S index)
  end.

Definition setProperty (node : JsonNode) (name : string) (value : JsonNode) : JsonNode :=
  match node with
  | JsonObject properties => JsonObject (assoc_set name value properties)
  | _ => node
  end.

(** Where a summary lands in the catalog: the item, its options array, the
    option and its [primary] object. *)
Record Target := {
  itemIndex : nat;
  itemNode : JsonNode;
  optionsArray : list JsonNode;
  optionIndex : nat;
  optionNode : JsonNode;
  primary : list (string * JsonNode)
}.

(** The lookups of the loop body; [Ok None] is a [continue]. *)
Definition locate (itemsArray : list JsonNode) (summary : ItemSummary)
    : result (option Target) :=
  match split "|" (is_ItemId summary) with
  | [itemId; optionKey] =>
      foundItem <- FirstOrDefault (hasString "id" itemId) itemsArray 0 ;;
      match foundItem with
      | None => Ok None
      | Some (i, itemNode) =>
          options <- getProperty itemNode "options" ;;
          match options with
          | JsonArray optionsArray =>
              foundOption <- FirstOrDefault (hasString "key" optionKey) optionsArray 0 ;;
              match foundOption with
              | None => Ok None
              | Some (j, optionNode) =>
                  primaryNode <- getProperty optionNode "primary" ;;
                  match primaryNode with
                  | JsonObject primary =>
                      Ok (Some {| itemIndex := i; itemNode := itemNode;
                                  optionsArray := optionsArray;
                                  optionIndex := j; optionNode := optionNode;
                                  primary := primary |})
                  | _ => Ok None
                  end
              end
          | _ => Ok None
          end
      end
  | _ => Ok None
  end.

(** [primary["weight"]?.GetValue<double?>() ?? 1.0] *)
Definition currentWeightOf (primary : list (string * JsonNode)) : result Q :=
  weight <- getDouble (default JsonNull (assoc_get "weight" primary)) ;;
  Ok (default 1 weight).

(** [primary["weight"] = summary.RecommendedWeight], seen from the items
    array. *)
Definition writeWeight (itemsArray : list JsonNode) (t : Target) (weight : Q)
    : list JsonNode :=
  let primary' := JsonObject (assoc_set "weight" (JsonNumber weight) (primary t)) in
  let option' := setProperty (optionNode t) "primary" primary' in
  let options' := JsonArray (<[optionIndex t := option']> (optionsArray t)) in
  <[itemIndex t := setProperty (itemNode t) "options" options']> itemsArray.

(** One iteration of [foreach (var summary in summaries)]. *)
Definition applySummary (tolerance : Q) (state : list JsonNode * Z)
    (summary : ItemSummary) : result (list JsonNode * Z) :=
  let '(itemsArray, updated) := state in
  target <- locate itemsArray summary ;;
  match target with
  | None => Ok (itemsArray, updated)
  | Some t =>
      currentWeight <- currentWeightOf (primary t) ;;
      if Qlt_le_dec (Qabs (currentWeight - is_RecommendedWeight summary)) tolerance
      then Ok (itemsArray, updated)
      else Ok (writeWeight itemsArray t (is_RecommendedWeight summary),
               (updated + 1)%Z)
  end.

Fixpoint applyAll (tolerance : Q) (state : list JsonNode * Z)
    (summaries : list ItemSummary) : result (list JsonNode * Z) :=
  match summaries with
  | [] => Ok state
  | summary :: rest =>
      state' <- applySummary tolerance state summary ;;
      applyAll tolerance state' rest
  end.

(** [file] is the parsed content of the file at [path], [None] when the
    file does not exist.  The result is the document written back, if any,
    and the number of updates. *)
Definition ApplyToFile (file : option JsonNode) (summaries : list ItemSummary)
    (tolerance : Q) : result (option JsonNode * Z) :=
  match file with
  | None => Ok (None, 0%Z)
  | Some root =>
      items <- getProperty root "items" ;;
      match items with
      | JsonArray itemsArray =>
          final <- applyAll tolerance (itemsArray, 0%Z) summaries ;;
          let '(itemsArray', updated) := final in
          Ok (Some (setProperty root "items" (JsonArray itemsArray')), updated)
      | _ => Ok (None, 0%Z)
      end
  end.

(** Default of [--tolerance]. *)
Definition defaultTolerance : Q := 5 # 100.

End WeightApplier.

(** *** A small catalog used to exercise the weight applier *)

Module WeightApplierExample.
Import ScoreOptimizer WeightApplier.
Local Open Scope string_scope.

Definition optionJson (key : string) (weight : Q) : JsonNode :=
  JsonObject
    [ ("key", JsonString key);
      ("label", JsonString "label");
      ("primary",
       JsonObject [ ("axis", JsonString "activity");
                    ("category", JsonString "science");
                    ("score", JsonNumber 1);
                    ("weight", JsonNumber weight) ]);
      ("note", JsonNull) ].

Definition itemsOf (weightA : Q) : list JsonNode :=
  [ JsonObject
      [ ("id", JsonString "FC-01");
        ("required", JsonBool true);
        ("options", JsonArray [ optionJson "A" weightA;
                                optionJson "B" (8 # 10) ]) ] ].

(** [{"version": 3, "items": [{"id": "FC-01", ..., "options": [A, B]}]}],
    the weight of option A being the argument. *)
Definition catalog (weightA : Q) : JsonNode :=
  JsonObject [ ("version", JsonNumber 3); ("items", JsonArray (itemsOf weightA)) ].

Definition recommend (itemId : string) (weight : Q) : ItemSummary :=
  {| is_ItemId := itemId; is_Axis := "activity"; is_Category := "science";
     is_Mean := 0; is_Variance := 0; is_EffectiveWeight := weight;
     is_RecommendedWeight := weight; is_ItemTotalCorrelation := None;
     is_AverageResponseTimeMs := None; is_AverageConfidence := None |}.

End WeightApplierExample.

(** *** Specification vocabulary for the aggregator *)

Module AggregatorSpec.
Import JsNum Aggregator.

(** The category lists of all questions and options, in the order in which
    the co-occurrence pass visits them. *)
Definition categoryLists (questionBank : QuestionBank) : list (list string) :=
  (List.map likertCategories (likert questionBank)
   ++ flat_map (fun q => List.map optionCategories (fq_options q))
               (forcedChoice questionBank)
   ++ flat_map (fun q => List.map optionCategories (sq_options q))
               (scenario questionBank))%list.

(** Every position pair i < j of every category list. *)
Definition positionPairs (questionBank : QuestionBank) : list (string * string) :=
  flat_map pairsOf (categoryLists questionBank).

Definition unorderedMatch (a b : string) (pair : string * string) : bool :=
  (String.eqb (fst pair) a && String.eqb (snd pair) b)
  || (String.eqb (fst pair) b && String.eqb (snd pair) a).

(** How often [a] and [b] stand at two positions of one category list. *)
Definition coOccurrences (questionBank : QuestionBank) (a b : string) : Z :=
  Z.of_nat (length (List.filter (unorderedMatch a b) (positionPairs questionBank))).

(** The two categories with the lexicographically smaller one first. *)
Definition canonical (a b : string) : string * string :=
  if String.ltb a b then (a, b) else (b, a).

(** The cells of the output keyed exactly [(k1, k2)]. *)
Definition listed (data : list Cell) (k1 k2 : string) : list Cell :=
  List.filter (fun c => String.eqb (x c) k1 && String.eqb (y c) k2) data.

(** "The pair appears exactly once, smaller category first." *)
Definition pairListedOnce (data : list Cell) (a b : string) : Prop :=
  length (listed data (fst (canonical a b)) (snd (canonical a b))) = 1%nat.

Definition lookup2 (matrix : list (string * list (string * Z))) (k1 k2 : string)
    : option Z :=
  match assoc_get k1 matrix with
  | Some row => assoc_get k2 row
  | None => None
  end.

(** Does a call [increment(c1, c2)] count towards the cell [(k1, k2)]? *)
Definition countsFor (topCategories : list string) (k1 k2 : string)
    (call : string * string) : bool :=
  let '(c1, c2) := call in
  includes topCategories c1 && includes topCategories c2
  && negb (String.eqb c1 c2)
  && String.eqb (if String.ltb c1 c2 then c1 else c2) k1
  && String.eqb (if String.ltb c1 c2 then c2 else c1) k2.

(** One call of [increment], as a step of the run over all position pairs. *)
Definition step (topCategories : list string)
    (matrix : list (string * list (string * Z))) (call : string * string) :=
  let '(c1, c2) := call in increment topCategories c1 c2 matrix.

(** Number of calls that count towards the cell [(k1, k2)]. *)
Definition tally (topCategories : list string) (k1 k2 : string)
    (calls : list (string * string)) : Z :=
  Z.of_nat (length (List.filter (countsFor topCategories k1 k2) calls)).

Definition wellKeyed (matrix : list (string * list (string * Z))) : Prop :=
  List.NoDup (List.map fst matrix) ∧
  ∀ k row, In (k, row) matrix → List.NoDup (List.map fst row).

Definition flatten (matrix : list (string * list (string * Z))) : list Cell :=
  flat_map
    (fun '(cat1, row) =>
       List.map (fun '(cat2, count) => {| x := cat1; y := cat2; z := count |}) row)
    matrix.

End AggregatorSpec.

Module ScoreSpec.
Import JsNum Aggregator.

(** Descending order under JavaScript's [>=]: every earlier score is [>=]
    every later one. *)
Definition sortedDescending (scores : list num) : Prop :=
  ∀ i j a b, (i < j)%nat → scores !! i = Some a → scores !! j = Some b →
             geb a b = true.

Definition tagScoreColumn (entries : list (string * TagEntry)) : list num :=
  List.map (fun entry => score (snd entry)) entries.

(** No score of the list is NaN. *)
Definition allFinite (scores : list (string * num)) : Prop :=
  Forall (fun entry => isFinite (snd entry) = true) scores.

(** The forced-choice answers that chose an option. *)
Definition chosen (forcedAnswers : list (string * ForcedAnswerState))
    : list (string * ForcedAnswerState) :=
  List.filter (fun entry => negb (String.eqb (fa_optionKey (snd entry)) "SKIP"))
              forcedAnswers.

End ScoreSpec.

(** ** Scenario step (components/ScenarioStep.tsx) and its answer handler *)

Module ScenarioStep.

Inductive Direction := up | down.

Section Ranking.
Context {A : Type}.

(** The value an empty destructuring reads: [const [movedOption] = []]. *)
Variable undefined : A.

(** [moveOption(index, direction)] on the state [rankedOptions]; a plain
    [return] leaves the state as it is.  [splice(index, 1)] removes the
    element at [index] if there is one, and [splice(targetIndex, 0, x)]
    inserts [x] at [targetIndex], clamped to the length. *)
Definition moveOption (index : nat) (direction : Direction)
    (rankedOptions : list A) : list A :=
  let newRankedOptions := rankedOptions in
  let targetIndex : Z :=
    match direction with
    | up => (Z.of_nat index - 1)%Z
    | down => (Z.of_nat index + 1)%Z
    end in
  if ((targetIndex <? 0) || (Z.of_nat (length newRankedOptions) <=? targetIndex))%Z
  then rankedOptions
  else
    let movedOption := nth index newRankedOptions undefined in
    let newRankedOptions := take index newRankedOptions ++ drop (S index) newRankedOptions in
    take (Z.to_nat targetIndex) newRankedOptions
    ++ movedOption :: drop (Z.to_nat targetIndex) newRankedOptions.

End Ranking.

(** The position the element at [index] is exchanged with: its neighbour in
    the given direction, or [index] itself at the end of the list. *)
Definition neighbour (index : nat) (direction : Direction) (size : nat) : nat :=
  match direction with
  | up => Nat.pred index
  | down => if (S index <? size)%nat then S index else index
  end.

Definition exchanged (index other j : nat) : nat :=
  if (j =? index)%nat then other
  else if (j =? other)%nat then index
  else j.

(** [array.indexOf(x)]: the first position of [x], or -1. *)
Fixpoint indexOf (l : list string) (x : string) : Z :=
  match l with
  | [] => (-1)%Z
  | y :: rest =>
      if String.eqb y x then 0%Z
      else let i := indexOf rest x in
           if (i <? 0)%Z then (-1)%Z else (i + 1)%Z
  end.

Definition byPreviousRanking (previousRanking : list string) (a b : ChoiceOption) : Q :=
  inject_Z (indexOf previousRanking (o_key a) - indexOf previousRanking (o_key b)).

(** The effect that initialises [rankedOptions] when a question is shown:
    the stored ranking of the question, if any, orders its options. *)
Definition initialRanking (question : ScenarioQuestion)
    (scenarioAnswers : list (string * ScenarioAnswerState)) : list ChoiceOption :=
  match sa_rankedOptions <$> assoc_get (sq_id question) scenarioAnswers with
  | Some previousRanking =>
      js_sort (byPreviousRanking previousRanking) (sq_options question)
  | None => sq_options question
  end.

(** [handleScenarioAnswer]: [{...prev, [question.id]: {rankedOptions,
    responseTimeMs}}]. *)
Definition handleScenarioAnswer (question : ScenarioQuestion)
    (rankedOptions : list string) (timeMs : option Q)
    (prev : list (string * ScenarioAnswerState)) : list (string * ScenarioAnswerState) :=
  assoc_set (sq_id question)
    {| sa_rankedOptions := rankedOptions; sa_responseTimeMs := timeMs |} prev.

(** [handleProceed]: the keys of the options in their current order are
    stored as the answer. *)
Definition handleProceed (question : ScenarioQuestion)
    (rankedOptions : list ChoiceOption) (timeMs : option Q)
    (prev : list (string * ScenarioAnswerState)) : list (string * ScenarioAnswerState) :=
  let rankedKeys := List.map o_key rankedOptions in
  handleScenarioAnswer question rankedKeys timeMs prev.

End ScenarioStep.

(** ** Forced-choice answer keys (main.tsx) *)

Module ForcedAnswers.
Local Open Scope string_scope.

(** [handleForcedAnswer]: the answer is stored under
    [`${question.id}|${optionKey}`]. *)
Definition handleForcedAnswer (question : ForcedChoiceQuestion) (optionKey : string)
    (confidence : Q) (timeMs : option Q)
    (prev : list (string * ForcedAnswerState)) : list (string * ForcedAnswerState) :=
  let key := fq_id question ++ "|" ++ optionKey in
  assoc_set key
    {| fa_optionKey := optionKey; fa_confidence := confidence;
       fa_responseTimeMs := timeMs |} prev.

(** [handleForcedSkip], without the move to the next question. *)
Definition handleForcedSkip (question : ForcedChoiceQuestion) (timeMs : option Q)
    (prev : list (string * ForcedAnswerState)) : list (string * ForcedAnswerState) :=
  let key := fq_id question ++ "|SKIP" in
  assoc_set key
    {| fa_optionKey := "SKIP"; fa_confidence := 0; fa_responseTimeMs := timeMs |} prev.

End ForcedAnswers.

(** Number of occurrences of a character. *)
Fixpoint occurrences (c : ascii) (s : string) : nat :=
  match s with
  | EmptyString => 0
  | String a s' => (if Ascii.eqb a c then 1 else 0) + occurrences c s'
  end.

Module ScenarioStepExample.
Local Open Scope string_scope.

Definition festival : ScenarioQuestion :=
  {| sq_id := "SC-01"; sq_required := true; sq_title := "Festival";
     sq_scenario := "Pick a role";
     sq_options :=
       [ AggregatorExample.option "A" "activity" "science" 4 None;
         AggregatorExample.option "B" "activity" "arts" 4 None;
         AggregatorExample.option "C" "learning_style" "business" 3 None;
         AggregatorExample.option "D" "activity" "engineering" 2 None ] |}.

(** B moved in front of A. *)
Definition reordered : list ChoiceOption :=
  [ AggregatorExample.option "B" "activity" "arts" 4 None;
    AggregatorExample.option "A" "activity" "science" 4 None;
    AggregatorExample.option "C" "learning_style" "business" 3 None;
    AggregatorExample.option "D" "activity" "engineering" 2 None ].

End ScenarioStepExample.

(** ** Axis statistics (utils.ts) and the Likert phase (main.tsx) *)

Definition initialiseAxisStats (questions : list LikertQuestion) : gmap string AxisStats :=
  fold_left
    (fun map q =>
       match map !! lq_axis q with
       | Some _ => map
       | None => <[lq_axis q := {| as_sum := 0; as_count := 0 |}]> map
       end)
    questions ∅.

Definition recordLikertStat (map : gmap string AxisStats) (axis : string)
    (value : Q) (polarity : Polarity) : gmap string AxisStats :=
  let stats := default {| as_sum := 0; as_count := 0 |} (map !! axis) in
  let normalized := Aggregator.normalize polarity value in
  <[axis := {| as_sum := as_sum stats + normalized;
               as_count := as_count stats + 1 |}]> map.

(** [answers] is given by its [Object.entries]. *)
Definition recomputeAxisStats (questions : list LikertQuestion)
    (answers : list (string * Q)) : gmap string AxisStats :=
  fold_left
    (fun stats '(id, value) =>
       match List.find (fun q => String.eqb (lq_id q) id) questions with
       | Some question =>
           recordLikertStat stats (lq_axis question) value (lq_polarity question)
       | None => stats
       end)
    answers (initialiseAxisStats questions).

Module LikertPhase.

Inductive StepId := profile | likertStep | forcedChoiceStep | scenarioStep | result.

(** The part of the component state that the Likert phase reads and
    writes. *)
Record State := {
  likertAnswers : list (string * LikertAnswerState);
  currentLikertId : option string;
  step : StepId
}.

(** [valueMap]: the answers reduced to their values, as entries and as the
    object the selector consults. *)
Definition valueEntries (answers : list (string * LikertAnswerState))
    : list (string * Q) :=
  List.map (fun '(id, answer) => (id, la_value answer)) answers.

Definition valueMap (answers : list (string * LikertAnswerState)) : gmap string Q :=
  list_to_map (valueEntries answers).

Definition requiredLikertCount (questionBank : QuestionBank) : nat :=
  length (List.filter lq_required (likert questionBank)).

(** [Object.keys(likertAnswers).filter((id) => requiredIds.has(id)).length] *)
Definition requiredLikertAnswered (questionBank : QuestionBank)
    (answers : list (string * LikertAnswerState)) : nat :=
  let requiredIds := List.map lq_id (List.filter lq_required (likert questionBank)) in
  length (List.filter (fun id => Aggregator.includes requiredIds id)
                      (List.map fst answers)).

Definition likertComplete (questionBank : QuestionBank)
    (answers : list (string * LikertAnswerState)) : bool :=
  (requiredLikertCount questionBank <=? requiredLikertAnswered questionBank answers)%nat.

(** [currentLikertQuestion]: [null] when [currentLikertId] is [null] or the
    empty string, else the first question with that id. *)
Definition currentLikertQuestion (questionBank : QuestionBank) (s : State)
    : option LikertQuestion :=
  match currentLikertId s with
  | None => None
  | Some id =>
      if String.eqb id "" then None else Aggregator.findLikert questionBank id
  end.

(** [handleLikertAnswer(value)], [timeMs] being the measured response
    time. *)
Definition handleLikertAnswer (questionBank : QuestionBank) (value : Q)
    (timeMs : option Q) (s : State) : State :=
  match currentLikertQuestion questionBank s with
  | None => s
  | Some currentLikertQuestion =>
      let nextAnswers :=
        assoc_set (lq_id currentLikertQuestion)
          {| la_value := value; la_responseTimeMs := timeMs |}
          (likertAnswers s) in
      let nextStats :=
        recomputeAxisStats (likert questionBank) (valueEntries nextAnswers) in
      let requiredAnswered :=
        length
          (List.filter
             (fun '(id, _) =>
                match Aggregator.findLikert questionBank id with
                | Some q => lq_required q
                | None => false
                end)
             nextAnswers) in
      let needRequired :=
        (requiredAnswered <? requiredLikertCount questionBank)%nat in
      match pickNextLikertQuestion (likert questionBank) (valueMap nextAnswers)
              nextStats needRequired with
      | Some nextQuestion =>
          {| likertAnswers := nextAnswers;
             currentLikertId := Some (lq_id nextQuestion);
             step := step s |}
      | None =>
          {| likertAnswers := nextAnswers;
             currentLikertId := None;
             step := forcedChoiceStep |}
      end
  end.


(** The normalized values recorded for an axis: those of the answers whose
    id is the id of a question of that axis, in answer order. *)
Definition recordedFor (questions : list LikertQuestion) (axis : string)
    (answers : list (string * Q)) : list Q :=
  flat_map
    (fun '(id, value) =>
       match List.find (fun q => String.eqb (lq_id q) id) questions with
       | Some question =>
           if String.eqb (lq_axis question) axis
           then [Aggregator.normalize (lq_polarity question) value]
           else []
       | None => []
       end)
    answers.

End LikertPhase.

(** *** A session over the selector's question list *)

Module LikertPhaseExample.
Import LikertPhase.
Local Open Scope string_scope.

Definition selectorBank : QuestionBank :=
  {| likert := SelectorExample.questions; forcedChoice := []; scenario := [] |}.

(** L-04 is being shown, nothing is answered yet. *)
Definition asking : State :=
  {| likertAnswers := []; currentLikertId := Some "L-04"; step := likertStep |}.


Definition bothRequired : list (string * LikertAnswerState) :=
  [ ("L-02", {| la_value := 6; la_responseTimeMs := None |});
    ("L-04", {| la_value := 3; la_responseTimeMs := Some 2100 |}) ].

End LikertPhaseExample.

(** ** ScoreOptimizer: response quality (C#)

    String comparison is ordinal, as in the other analyzers. *)

Module QualityReport.
Import ScoreOptimizer.
Local Open Scope string_scope.

Record RespondentQuality := {
  rq_RespondentId : string;
  rq_LikertResponseCount : Z;
  rq_LikertUniqueCount : Z;
  rq_ForcedChoiceCount : Z;
  rq_AverageTimeMs : option Q;
  rq_StdTimeMs : option Q;
  rq_AverageConfidence : option Q;
  rq_FlagStraightliner : bool;
  rq_FlagFastResponder : bool;
  rq_FlagLowConfidence : bool
}.

(** [Distinct()] on doubles: the first occurrence of every value. *)
Fixpoint Distinct (l : list Q) : list Q :=
  match l with
  | [] => []
  | v :: l' => v :: List.filter (fun w => negb (Qeq_bool w v)) (Distinct l')
  end.

Section Quality.
Variable Math_Sqrt : Q → Q.
Variable _likertItems : list LikertItem.
Variable _forcedChoiceItems : list ChoiceItem.

(** [likertIds.Contains(r.ItemId)] *)
Definition isLikertResponse (r : ResponseRecord) : bool :=
  existsb (String.eqb (ItemId r)) (List.map li_Id _likertItems).

(** [forcedPrefixes.Any(prefix => r.ItemId.StartsWith(prefix + "|"))] *)
Definition isForcedResponse (r : ResponseRecord) : bool :=
  existsb (fun prefix => StartsWith (prefix ++ "|") (ItemId r))
          (List.map ci_Id _forcedChoiceItems).

(** The body of [foreach (var group in responses.GroupBy(r => r.RespondentId))]. *)
Definition respondentQuality (key : string) (group : list ResponseRecord)
    : RespondentQuality :=
  let likertValues := List.map Value (List.filter isLikertResponse group) in
  let fcValues := List.filter isForcedResponse group in
  let times := presentValues ResponseTimeMs group in
  let confidences := presentValues Confidence group in
  let avgTime := if (0 <? Count times)%Z then Some (Average times) else None in
  let stdTime :=
    match avgTime with
    | Some average =>
        if (1 <? Count times)%Z
        then Some (Math_Sqrt
                     (Sum (List.map (fun t => (t - average) ^ 2) times)
                      / inject_Z (Count times - 1)))
        else None
    | None => None
    end in
  let avgConfidence :=
    if (0 <? Count confidences)%Z then Some (Average confidences) else None in
  let uniqueLikertCount := Count (Distinct likertValues) in
  let straightliner := ((10 <=? Count likertValues) && (uniqueLikertCount <=? 2))%Z in
  let fastResponder :=
    match avgTime with
    | Some average => if Qlt_le_dec average 1500 then true else false
    | None => false
    end in
  let lowConfidence :=
    match avgConfidence with
    | Some average => if Qlt_le_dec average (4 # 10) then true else false
    | None => false
    end in
  {| rq_RespondentId := key;
     rq_LikertResponseCount := Count likertValues;
     rq_LikertUniqueCount := uniqueLikertCount;
     rq_ForcedChoiceCount := Count fcValues;
     rq_AverageTimeMs := avgTime;
     rq_StdTimeMs := stdTime;
     rq_AverageConfidence := avgConfidence;
     rq_FlagStraightliner := straightliner;
     rq_FlagFastResponder := fastResponder;
     rq_FlagLowConfidence := lowConfidence |}.

(** The respondents and the flagged respondents. *)
Definition AnalyzeQuality (responses : list ResponseRecord)
    : list RespondentQuality * list RespondentQuality :=
  let respondentSummaries :=
    List.map (fun '(key, group) => respondentQuality key group)
             (GroupBy RespondentId responses) in
  let flagged :=
    List.filter
      (fun r => rq_FlagStraightliner r || rq_FlagFastResponder r || rq_FlagLowConfidence r)
      respondentSummaries in
  (respondentSummaries, flagged).

End Quality.

(** Sum of a column of counts. *)
Definition total (counts : list Z) : Z := fold_right Z.add 0%Z counts.

End QualityReport.

(** *** A log with a quiet respondent and a hesitant one *)

Module QualityExample.
Import ScoreOptimizer.
Local Open Scope string_scope.

Definition log : list ResponseRecord :=
  [ AnalyzerExample.record "r1" "L-01" 5 None None;
    AnalyzerExample.record "r2" "L-01" 3 (Some 900) (Some (2 # 10));
    AnalyzerExample.record "r1" "S1|A" 1 None None ].

End QualityExample.

(** ** Result page (ResultStep.tsx) *)

Module ResultStep.

(** [categoryScore.slice(0, 3).map(([category]) => category)] *)
Definition topCategories {V : Type} (categoryScore : list (string * V)) : list string :=
  List.map fst (take 3 categoryScore).

(** [categoryScore.slice(-5).map(([category]) => category)]: the last five
    entries, all of them when there are fewer. *)
Definition bottomCategories {V : Type} (categoryScore : list (string * V)) : list string :=
  List.map fst (drop (length categoryScore - 5) categoryScore).

End ResultStep.

(** *** Properties of the stable sort *)

Section JsSortFacts.
Context {A : Type}.
Variable cmp : A -> A -> Q.

Lemma sort_insert_head (x : A) (l : list A) :
  head (sort_insert cmp x l) =
  match head l with
  | None => Some x
  | Some y => if Qlt_le_dec 0 (cmp x y) then Some y else Some x
  end.
Proof.
  destruct l as [|y l']; simpl; [reflexivity|].
  destruct (Qlt_le_dec 0 (cmp x y)); reflexivity.
Qed.

Lemma sort_insert_perm (x : A) (l : list A) :
  Permutation (x :: l) (sort_insert cmp x l).
Proof.
  induction l as [|y l' IH]; simpl; [reflexivity|].
  destruct (Qlt_le_dec 0 (cmp x y)); [|reflexivity].
  rewrite <- IH. apply perm_swap.
Qed.

Lemma js_sort_perm (l : list A) : Permutation l (js_sort cmp l).
Proof.
  induction l as [|x l' IH]; simpl; [reflexivity|].
  rewrite <- sort_insert_perm. by constructor.
Qed.

Lemma js_sort_length (l : list A) : length (js_sort cmp l) = length l.
Proof. symmetry. apply Permutation_length, js_sort_perm. Qed.

Lemma js_sort_nil_inv (l : list A) : js_sort cmp l = [] → l = [].
Proof.
  intros H. apply nil_length_inv. rewrite <- js_sort_length, H. reflexivity.
Qed.
End JsSortFacts.

Lemma js_sort_desc_head {A : Type} (key : A → Q) (l : list A) :
  l ≠ [] →
  ∃ m, head (js_sort (fun a b => key b - key a) l) = Some m ∧ first_max key l m.
Proof.
  induction l as [|x l' IH]; [done|]. intros _. simpl.
  rewrite sort_insert_head.
  destruct l' as [|x' l''].
  - simpl. exists x. split; [done|]. exists [], [].
    split; [done|]. split; intros y Hy; by apply elem_of_nil in Hy.
  - destruct IH as (m & Hm & before & after & Hl & Hb & Ha); [done|].
    rewrite Hm.
    destruct (Qlt_le_dec 0 (key m - key x)) as [Hlt|Hle].
    + exists m. split; [done|]. exists (x :: before), after.
      split; [by rewrite Hl|]. split; [|done].
      intros y Hy. apply elem_of_cons in Hy as [->|Hy]; [|by apply Hb].
      apply (Qplus_lt_l _ _ (- key x)). by rewrite Qplus_opp_r.
    + exists x. split; [done|]. exists [], (x' :: l'').
      split; [done|]. split; [intros y Hy; by apply elem_of_nil in Hy|].
      assert (Hmx : key m <= key x).
      { apply (Qplus_le_l _ _ (- key x)). by rewrite Qplus_opp_r. }
      intros y Hy. rewrite Hl in Hy.
      apply elem_of_app in Hy as [Hy|Hy].
      * apply Qlt_le_weak. eapply Qlt_le_trans; [by apply Hb|done].
      * apply elem_of_cons in Hy as [->|Hy]; [done|].
        eapply Qle_trans; [by apply Ha|done].
Qed.

(** For a comparator that is the difference of a key on the elements at
    hand, the result is in descending key order. *)
Lemma sort_insert_descending {A : Type} (cmp : A → A → Q) (key : A → Q)
    (P : A → Prop) (x : A) (l : list A) :
  (∀ a b, P a → P b → cmp a b == key b - key a) →
  P x → Forall P l →
  StronglySorted (fun a b => key b <= key a) l →
  StronglySorted (fun a b => key b <= key a) (sort_insert cmp x l).
Proof.
  intros Hcmp Hx HP Hsorted.
  induction l as [|y l' IH]; simpl.
  - constructor; constructor.
  - apply Forall_cons in HP as [Hy HP].
    apply StronglySorted_inv in Hsorted as [Hsorted Hall].
    destruct (Qlt_le_dec 0 (cmp x y)) as [Hlt|Hle].
    + rewrite (Hcmp x y Hx Hy) in Hlt.
      assert (Hxy : key x <= key y).
      { apply Qlt_le_weak. apply (Qplus_lt_l _ _ (- key x)).
        by rewrite Qplus_opp_r. }
      constructor; [by apply IH|].
      apply List.Forall_forall. intros z Hz.
      apply (Permutation_in _ (Permutation_sym (sort_insert_perm cmp x l'))) in Hz.
      destruct Hz as [<-|Hz]; [done|].
      by apply (proj1 (List.Forall_forall _ _) Hall).
    + rewrite (Hcmp x y Hx Hy) in Hle.
      assert (Hyx : key y <= key x).
      { apply (Qplus_le_l _ _ (- key x)). by rewrite Qplus_opp_r. }
      constructor; [by constructor|].
      constructor; [done|].
      apply List.Forall_forall. intros z Hz.
      eapply Qle_trans; [|exact Hyx].
      by apply (proj1 (List.Forall_forall _ _) Hall).
Qed.

Lemma js_sort_descending {A : Type} (cmp : A → A → Q) (key : A → Q)
    (P : A → Prop) (l : list A) :
  (∀ a b, P a → P b → cmp a b == key b - key a) →
  Forall P l →
  StronglySorted (fun a b => key b <= key a) (js_sort cmp l).
Proof.
  intros Hcmp HP. induction l as [|x l' IH]; simpl; [constructor|].
  apply Forall_cons in HP as [Hx HP].
  apply (sort_insert_descending cmp key P); [done|done| |by apply IH].
  apply List.Forall_forall. intros z Hz.
  apply (Permutation_in _ (Permutation_sym (js_sort_perm cmp l'))) in Hz.
  by apply (proj1 (List.Forall_forall _ _) HP).
Qed.

(** *** Selector *)

Lemma filter_split {A : Type} (f : A → bool) (l before : list A) (q : A) (after : list A) :
  List.filter f l = before ++ q :: after →
  ∃ before' after',
    l = before' ++ q :: after' ∧
    List.filter f before' = before ∧ List.filter f after' = after ∧ f q = true.
Proof.
  revert before. induction l as [|x l' IH]; intros before Hf; simpl in Hf.
  - by destruct before.
  - destruct (f x) eqn:Hx.
    + destruct before as [|b before]; simpl in Hf.
      * injection Hf as -> Hf. exists [], l'. by rewrite Hx.
      * injection Hf as -> Hf.
        destruct (IH _ Hf) as (b' & a' & -> & Hb & Ha & Hq).
        exists (b :: b'), a'. simpl. rewrite Hx, Hb. done.
    + destruct (IH _ Hf) as (b' & a' & -> & Hb & Ha & Hq).
      exists (x :: b'), a'. simpl. rewrite Hx. done.
Qed.

Lemma fold_left_related_weights (l : list RelatedCategory) (acc : Q) :
  fold_left (fun a current => a + rc_weight current) l acc
  == acc + sumRelatedWeights l.
Proof.
  revert acc. induction l as [|r l' IH]; intros acc; simpl.
  - by rewrite Qplus_0_r.
  - rewrite IH. by rewrite Qplus_assoc.
Qed.

Lemma computeInformationGain_spec (q : LikertQuestion) (stats : gmap string AxisStats) :
  computeInformationGain q stats == gainAsSpecified q stats.
Proof.
  unfold computeInformationGain, gainAsSpecified, observations, axisMean.
  destruct (stats !! lq_axis q) as [s|]; [|reflexivity].
  destruct (Qeq_bool (as_count s) 0); [reflexivity|].
  rewrite fold_left_related_weights, Qplus_0_l. reflexivity.
Qed.

Lemma rank_head (stats : gmap string AxisStats) (cands : list LikertQuestion) :
  cands ≠ [] →
  ∃ q, fst <$> head (rankCandidates stats cands) = Some q ∧
       first_max (fun c => computeInformationGain c stats) cands q.
Proof.
  intros Hne. unfold rankCandidates, byInfoDesc.
  destruct (js_sort_desc_head snd
              (List.map (fun question => (question, computeInformationGain question stats)) cands))
    as (m & Hm & before & after & Hl & Hb & Ha).
  { by destruct cands. }
  rewrite Hm. exists (fst m). split; [done|].
  apply map_eq_app in Hl as (b' & r & -> & Hb' & Hr).
  apply map_eq_cons in Hr as (q & a' & -> & Hq & Ha').
  subst m before after. simpl in *.
  exists b', a'. split; [done|]. split; intros y Hy.
  - apply (Hb (y, computeInformationGain y stats)).
    apply list_elem_of_In, in_map_iff. exists y. by rewrite <- list_elem_of_In.
  - apply (Ha (y, computeInformationGain y stats)).
    apply list_elem_of_In, in_map_iff. exists y. by rewrite <- list_elem_of_In.
Qed.

Lemma pickNext_unfold_false questions answers stats :
  pickNextLikertQuestion questions answers stats false =
  fst <$> head (rankCandidates stats (candidatesOf questions answers false)).
Proof. by simp pickNextLikertQuestion. Qed.

Lemma pickNext_unfold_true questions answers stats :
  pickNextLikertQuestion questions answers stats true =
  match candidatesOf questions answers true with
  | [] => pickNextLikertQuestion questions answers stats false
  | c :: cs => fst <$> head (rankCandidates stats (c :: cs))
  end.
Proof.
  simp pickNextLikertQuestion.
  destruct (candidatesOf questions answers true); by simp pickNextLikertQuestion.
Qed.

Lemma pickNext_candidates questions answers stats requiredOnly :
  candidatesOf questions answers requiredOnly ≠ [] →
  pickNextLikertQuestion questions answers stats requiredOnly =
  fst <$> head (rankCandidates stats (candidatesOf questions answers requiredOnly)).
Proof.
  intros Hne. destruct requiredOnly.
  - rewrite pickNext_unfold_true.
    by destruct (candidatesOf questions answers true).
  - apply pickNext_unfold_false.
Qed.

Lemma candidatesOf_elem questions answers requiredOnly q :
  q ∈ candidatesOf questions answers requiredOnly ↔
  q ∈ questions ∧ isCandidate answers requiredOnly q = true.
Proof. unfold candidatesOf. rewrite !list_elem_of_In. apply filter_In. Qed.

Lemma candidatesOf_nil questions answers requiredOnly :
  candidatesOf questions answers requiredOnly = [] ↔
  ∀ q, q ∈ questions → isCandidate answers requiredOnly q = false.
Proof.
  split.
  - intros Hnil q Hq. destruct (isCandidate answers requiredOnly q) eqn:Hc; [|done].
    assert (Hin : q ∈ candidatesOf questions answers requiredOnly)
      by by apply candidatesOf_elem.
    rewrite Hnil in Hin. by apply elem_of_nil in Hin.
  - intros Hall. destruct (candidatesOf questions answers requiredOnly) as [|c cs] eqn:Hc; [done|].
    assert (Hin : c ∈ candidatesOf questions answers requiredOnly)
      by (rewrite Hc; apply list_elem_of_here).
    apply candidatesOf_elem in Hin as [Hin Hcand].
    by rewrite (Hall c Hin) in Hcand.
Qed.

Lemma isCandidate_any answers q :
  isCandidate answers false q = negb (isAnswered answers q).
Proof. unfold isCandidate. simpl. by rewrite andb_true_r. Qed.

Lemma pickNext_none_iff questions answers stats requiredOnly :
  pickNextLikertQuestion questions answers stats requiredOnly = None ↔
  candidatesOf questions answers false = [].
Proof.
  assert (Hfalse : pickNextLikertQuestion questions answers stats false = None ↔
                   candidatesOf questions answers false = []).
  { rewrite pickNext_unfold_false. split.
    - intros Hnone.
      destruct (candidatesOf questions answers false) as [|c cs] eqn:Hc; [done|].
      destruct (rank_head stats (c :: cs)) as (q & Hq & _); [done|]. congruence.
    - by intros ->. }
  destruct requiredOnly; [|done].
  rewrite pickNext_unfold_true.
  destruct (candidatesOf questions answers true) as [|c cs] eqn:Hc; [done|].
  destruct (rank_head stats (c :: cs)) as (q & Hq & _); [done|].
  rewrite Hq. split; [done|]. intros Hnil.
  assert (Hin : c ∈ candidatesOf questions answers true)
    by (rewrite Hc; apply list_elem_of_here).
  apply candidatesOf_elem in Hin as [Hin Hcand].
  apply candidatesOf_nil with (q := c) in Hnil; [|done].
  rewrite isCandidate_any in Hnil. unfold isCandidate in Hcand.
  destruct (isAnswered answers c); done.
Qed.

(** C5.  With [requiredOnly] set and a required item still unanswered, the
    selector returns a required unanswered item; with [requiredOnly] set and
    no required item unanswered, the call is one retry with [requiredOnly]
    unset, that is the non-recursive ranking of all unanswered items; and
    the selector returns nothing exactly when no question is unanswered. *)
Theorem pickNext_required_first
    (questions : list LikertQuestion) (answers : gmap string Q)
    (stats : gmap string AxisStats) :
  ((∃ r, r ∈ questions ∧ lq_required r = true ∧ isAnswered answers r = false) →
   ∃ q, pickNextLikertQuestion questions answers stats true = Some q ∧
        q ∈ questions ∧ lq_required q = true ∧ isAnswered answers q = false) ∧
  ((∀ r, r ∈ questions → lq_required r = true → isAnswered answers r = true) →
   pickNextLikertQuestion questions answers stats true =
     pickNextLikertQuestion questions answers stats false ∧
   pickNextLikertQuestion questions answers stats true =
     fst <$> head (rankCandidates stats
                     (List.filter (fun q => negb (isAnswered answers q)) questions))) ∧
  (∀ requiredOnly,
     pickNextLikertQuestion questions answers stats requiredOnly = None ↔
     ∀ q, q ∈ questions → isAnswered answers q = true).
Proof.
  split; [|split].
  - intros (r & Hr & Hreq & Hun).
    assert (Hne : candidatesOf questions answers true ≠ []).
    { intros Hnil. apply candidatesOf_nil with (q := r) in Hnil; [|done].
      unfold isCandidate in Hnil. by rewrite Hun, Hreq in Hnil. }
    rewrite pickNext_candidates by done.
    destruct (rank_head stats _ Hne) as (q & Hq & before & after & Hl & _).
    exists q. split; [done|].
    assert (Hin : q ∈ candidatesOf questions answers true).
    { rewrite Hl. apply elem_of_app. right. apply list_elem_of_here. }
    apply candidatesOf_elem in Hin as [Hin Hcand].
    unfold isCandidate in Hcand. simpl in Hcand.
    apply andb_true_iff in Hcand as [Ha Hb].
    split; [done|]. split; [done|]. by apply negb_true_iff.
  - intros Hall.
    assert (Hnil : candidatesOf questions answers true = []).
    { apply candidatesOf_nil. intros q Hq. unfold isCandidate. simpl.
      destruct (lq_required q) eqn:Hreq.
      - by rewrite (Hall q Hq Hreq).
      - by rewrite andb_false_r. }
    assert (Heq : pickNextLikertQuestion questions answers stats true =
                  pickNextLikertQuestion questions answers stats false).
    { rewrite pickNext_unfold_true. by rewrite Hnil. }
    split; [done|]. rewrite Heq, pickNext_unfold_false.
    unfold candidatesOf. do 3 f_equal.
    apply filter_ext. intros q. apply isCandidate_any.
  - intros requiredOnly. rewrite pickNext_none_iff, candidatesOf_nil.
    split; intros H q Hq; specialize (H q Hq); rewrite isCandidate_any in *.
    + by apply negb_false_iff.
    + by rewrite H.
Qed.

Lemma pickNext_required_first_witness :
  (∃ q, pickNextLikertQuestion SelectorExample.questions SelectorExample.answers
          SelectorExample.stats true = Some q ∧
        q ∈ SelectorExample.questions ∧ lq_required q = true ∧
        isAnswered SelectorExample.answers q = false) ∧
  pickNextLikertQuestion SelectorExample.questions SelectorExample.answersRequiredDone
    SelectorExample.statsRequiredDone true =
  pickNextLikertQuestion SelectorExample.questions SelectorExample.answersRequiredDone
    SelectorExample.statsRequiredDone false.
Proof.
  split.
  - apply (proj1 (pickNext_required_first SelectorExample.questions
                    SelectorExample.answers SelectorExample.stats)).
    exists SelectorExample.q2. split; [|split; reflexivity].
    apply list_elem_of_In. simpl. tauto.
  - apply (proj1 (proj2 (pickNext_required_first SelectorExample.questions
                    SelectorExample.answersRequiredDone
                    SelectorExample.statsRequiredDone))).
    intros r Hr Hreq. apply list_elem_of_In in Hr. simpl in Hr.
    destruct Hr as [<-|[<-|[<-|[<-|[<-|[<-|[]]]]]]];
      try discriminate Hreq; reflexivity.
Defined.

(** The selector on the example: the open required item first; once the
    required items are answered, the earlier of two optional items of equal
    gain; nothing when every item is answered. *)
Example pickNext_example :
  lq_id <$> pickNextLikertQuestion SelectorExample.questions SelectorExample.answers
              SelectorExample.stats true = Some "L-02"%string ∧
  lq_id <$> pickNextLikertQuestion SelectorExample.questions
              SelectorExample.answersRequiredDone
              SelectorExample.statsRequiredDone true = Some "L-01"%string ∧
  computeInformationGain SelectorExample.q1 SelectorExample.statsRequiredDone == 2 ∧
  computeInformationGain SelectorExample.q3 SelectorExample.statsRequiredDone == 2 ∧
  pickNextLikertQuestion SelectorExample.questions
    (<["L-01" := 4]> (<["L-03" := 4]> SelectorExample.answersRequiredDone))
    SelectorExample.statsRequiredDone true = None.
Proof. repeat split; reflexivity. Qed.

(** ** Calibration analyzer *)

Module AnalyzerFacts.
Import ScoreOptimizer AnalyzerSpec.

Lemma TryGetValue_group_add {A : Type} (key : string) (x : A)
    (groups : list (string * list A)) (k : string) :
  TryGetValue (group_add key x groups) k =
  if String.eqb key k then Some (default [] (TryGetValue groups key) ++ [x])
  else TryGetValue groups k.
Proof.
  induction groups as [|[k' g] rest IH]; simpl.
  - rewrite String.eqb_sym. destruct (String.eqb k key) eqn:E; [|done].
    apply String.eqb_eq in E as ->. done.
  - destruct (String.eqb k' key) eqn:E1; simpl.
    + apply String.eqb_eq in E1 as ->.
      destruct (String.eqb key k); done.
    + rewrite IH. destruct (String.eqb k' k) eqn:E2; [|done].
      apply String.eqb_eq in E2 as ->.
      rewrite String.eqb_sym, E1. done.
Qed.

Lemma filter_snoc {A : Type} (f : A → bool) (l : list A) (x : A) :
  List.filter f (l ++ [x]) = List.filter f l ++ (if f x then [x] else []).
Proof. rewrite List.filter_app. simpl. by destruct (f x). Qed.

Lemma nonEmpty_default {A : Type} (l : list A) : default [] (nonEmpty l) = l.
Proof. by destruct l. Qed.

(** The dictionary of groups, read at a key, is the sub-list of the
    elements with that key. *)
Lemma TryGetValue_GroupBy {A : Type} (key : A → string) (l : list A) (k : string) :
  TryGetValue (GroupBy key l) k =
  nonEmpty (List.filter (fun x => String.eqb (key x) k) l).
Proof.
  unfold GroupBy. induction l as [|x l IH] using rev_ind; [done|].
  rewrite fold_left_app. simpl. rewrite TryGetValue_group_add, filter_snoc.
  destruct (String.eqb (key x) k) eqn:E.
  - apply String.eqb_eq in E as <-. rewrite IH, nonEmpty_default.
    by destruct (List.filter _ l).
  - by rewrite app_nil_r.
Qed.

Lemma Sum_from (l : list Q) (acc : Q) : fold_left Qplus l acc == acc + sumOf l.
Proof.
  revert acc. induction l as [|v l IH]; intros acc; simpl.
  - by rewrite Qplus_0_r.
  - rewrite IH. by rewrite Qplus_assoc.
Qed.

Lemma Sum_sumOf (l : list Q) : Sum l == sumOf l.
Proof. unfold Sum. rewrite Sum_from. apply Qplus_0_l. Qed.

Lemma Average_meanOf (l : list Q) : Average l == meanOf l.
Proof. unfold Average, meanOf, sizeOf, Count. by rewrite Sum_sumOf. Qed.


Lemma Count_ge2_nonzero (l : list Q) : (2 <= Count l)%Z → ¬ inject_Z (Count l) == 0.
Proof.
  intros Hk Hz. unfold Qeq in Hz. simpl in Hz. lia.
Qed.

Lemma Count_sizeOf (l : list Q) : inject_Z (Count l) = sizeOf l.
Proof. reflexivity. Qed.

Lemma mean_zero_iff (l : list Q) :
  (2 <= Count l)%Z → (Sum l / inject_Z (Count l) == 0 ↔ Sum l == 0).
Proof.
  intros Hk. pose proof (Count_ge2_nonzero l Hk) as Hnz. split; intros H.
  - rewrite <- (Qmult_div_r (Sum l) (inject_Z (Count l))) by done.
    rewrite H. apply Qmult_0_r.
  - rewrite H. unfold Qdiv. apply Qmult_0_l.
Qed.

(** The body of [CronbachAlpha] once none of its guards fires. *)
Lemma CronbachAlpha_cases (itemVariances : list Q) (respondentCount : Z) :
  ((Count itemVariances < 2)%Z ∨ (respondentCount < 2)%Z ∨ Sum itemVariances == 0) ∧
    CronbachAlpha itemVariances respondentCount = None
  ∨
  ((2 <= Count itemVariances)%Z ∧ (2 <= respondentCount)%Z ∧ ¬ Sum itemVariances == 0) ∧
    CronbachAlpha itemVariances respondentCount =
      Some ((inject_Z (Count itemVariances) / (inject_Z (Count itemVariances) - 1))
            * (1 - (Sum itemVariances
                    / (inject_Z (Count itemVariances)
                       * (Sum itemVariances / inject_Z (Count itemVariances)))))).
Proof.
  unfold CronbachAlpha.
  destruct (Z.ltb_spec (Count itemVariances) 2) as [Hk|Hk]; simpl; [left; auto|].
  destruct (Z.ltb_spec respondentCount 2) as [Hr|Hr]; simpl; [left; auto|].
  destruct (Qeq_bool (Sum itemVariances) 0) eqn:Ht.
  - apply Qeq_bool_iff in Ht. left; auto.
  - assert (Hnz : ¬ Sum itemVariances == 0).
    { intros H. apply Qeq_bool_iff in H. congruence. }
    destruct (Qeq_bool (Sum itemVariances / inject_Z (Count itemVariances)) 0) eqn:Ha.
    + apply Qeq_bool_iff in Ha. apply mean_zero_iff in Ha; done.
    + right. split; [done|reflexivity].
Qed.

(** The helper on its own, for whatever respondent count it is given: the
    value is (k/(k-1)) * (1 - sum v_i / (k * mean v)); it is absent, and
    the function still returns, exactly when k < 2, that count is below 2,
    or the mean item variance is 0. *)
Lemma CronbachAlpha_formula (itemVariances : list Q) (respondentCount : Z) :
  (CronbachAlpha itemVariances respondentCount = None ↔
     (Count itemVariances < 2)%Z ∨ (respondentCount < 2)%Z ∨
     meanOf itemVariances == 0) ∧
  (∀ alpha, CronbachAlpha itemVariances respondentCount = Some alpha →
     alpha == (sizeOf itemVariances / (sizeOf itemVariances - 1))
              * (1 - sumOf itemVariances
                     / (sizeOf itemVariances * meanOf itemVariances))).
Proof.
  destruct (CronbachAlpha_cases itemVariances respondentCount)
    as [[Hg ->]|[(Hk & Hr & Ht) ->]]; split.
  - split; [|done]. intros _.
    destruct Hg as [Hk|[Hr|Ht]]; [by left|by right; left|].
    right; right. unfold meanOf. rewrite <- Sum_sumOf, Ht.
    unfold Qdiv. apply Qmult_0_l.
  - done.
  - split; [done|]. intros [Hk'|[Hr'|Hm]]; [lia|lia|].
    exfalso. apply Ht. apply mean_zero_iff; [done|].
    by rewrite Sum_sumOf, Count_sizeOf.
  - intros alpha [= <-]. unfold meanOf. rewrite !Count_sizeOf, !Sum_sumOf.
    reflexivity.
Qed.

(** C9.  Whenever alpha is defined its value is 0: the subtracted quotient
    divides the sum of the variances by k times their own mean. *)
Theorem CronbachAlpha_is_zero (itemVariances : list Q) (respondentCount : Z) :
  (2 <= Count itemVariances)%Z → (2 <= respondentCount)%Z →
  ¬ Sum itemVariances == 0 →
  ∃ alpha, CronbachAlpha itemVariances respondentCount = Some alpha ∧ alpha == 0.
Proof.
  intros Hk Hr Ht.
  destruct (CronbachAlpha_cases itemVariances respondentCount)
    as [[Hg _]|[_ ->]]; [destruct Hg as [?|[?|?]]; [lia|lia|done]|].
  eexists. split; [reflexivity|].
  pose proof (Count_ge2_nonzero itemVariances Hk) as Hnz.
  set (k := inject_Z (Count itemVariances)) in *.
  set (t := Sum itemVariances) in *.
  assert (Hone : t / (k * (t / k)) == 1) by (field; split; done).
  rewrite Hone. ring.
Qed.

Lemma CronbachAlpha_is_zero_witness :
  ∃ alpha, CronbachAlpha [1; 3 # 2; 1 # 4] 5 = Some alpha ∧ alpha == 0.
Proof.
  apply (CronbachAlpha_is_zero [1; 3 # 2; 1 # 4] 5); [done|done|].
  vm_compute. discriminate.
Defined.

Lemma group_add_keys {A : Type} (key : string) (x : A)
    (groups : list (string * list A)) (k : string) :
  In k (List.map fst (group_add key x groups)) ↔
  k = key ∨ In k (List.map fst groups).
Proof.
  induction groups as [|[k' g] rest IH]; simpl.
  - intuition.
  - destruct (String.eqb k' key) eqn:E; simpl.
    + apply String.eqb_eq in E as ->. intuition.
    + rewrite IH. intuition.
Qed.

Lemma group_add_NoDup {A : Type} (key : string) (x : A)
    (groups : list (string * list A)) :
  List.NoDup (List.map fst groups) →
  List.NoDup (List.map fst (group_add key x groups)).
Proof.
  induction groups as [|[k' g] rest IH]; simpl; intros Hnd.
  - constructor; [intros []|constructor].
  - apply List.NoDup_cons_iff in Hnd as [Hnotin Hnd].
    destruct (String.eqb k' key) eqn:E; simpl.
    + by constructor.
    + constructor; [|by apply IH].
      rewrite group_add_keys. intros [->|Hin]; [|done].
      by rewrite String.eqb_refl in E.
Qed.

Lemma GroupBy_NoDup {A : Type} (key : A → string) (l : list A) :
  List.NoDup (List.map fst (GroupBy key l)).
Proof.
  unfold GroupBy. induction l as [|x l IH] using rev_ind; [constructor|].
  rewrite fold_left_app. simpl. by apply group_add_NoDup.
Qed.

Lemma TryGetValue_In {V : Type} (d : list (string * V)) (k : string) (v : V) :
  List.NoDup (List.map fst d) → In (k, v) d → TryGetValue d k = Some v.
Proof.
  induction d as [|[k' v'] rest IH]; simpl; [done|]. intros Hnd Hin.
  apply List.NoDup_cons_iff in Hnd as [Hnotin Hnd].
  destruct Hin as [[= -> ->]|Hin].
  - by rewrite String.eqb_refl.
  - destruct (String.eqb k' k) eqn:E; [|by apply IH].
    apply String.eqb_eq in E as ->. exfalso. apply Hnotin.
    apply in_map_iff. by exists (k, v).
Qed.

Lemma TryGetValue_Some_In {V : Type} (d : list (string * V)) (k : string) (v : V) :
  TryGetValue d k = Some v → In (k, v) d.
Proof.
  induction d as [|[k' v'] rest IH]; simpl; [done|].
  destruct (String.eqb k' k) eqn:E.
  - apply String.eqb_eq in E as ->. intros [= ->]. by left.
  - intros H. right. by apply IH.
Qed.

(** The alpha dictionary has one entry per axis, computed from the
    variances of that axis's summaries and the respondent estimate. *)
Lemma axisAlphas_entry (responses : list ResponseRecord)
    (itemSummaries : list ItemSummary) (axis : string) (reported : option Q) :
  In (axis, reported) (axisAlphas responses itemSummaries) →
  ∃ group,
    nonEmpty (List.filter (fun s => String.eqb (is_Axis s) axis) itemSummaries)
      = Some group ∧
    reported = CronbachAlpha (List.map is_Variance group)
                 (Z.max 1 (Z.quot (Count responses) (Z.max (Count group) 1))).
Proof.
  unfold axisAlphas. intros Hin. apply in_map_iff in Hin as ([a group] & Heq & Hin).
  injection Heq as -> <-. exists group. split; [|done].
  rewrite <- TryGetValue_GroupBy.
  apply TryGetValue_In; [apply GroupBy_NoDup|done].
Qed.

(** *** Option statistics *)

Lemma Contains_composite (id rest : string) :
  Contains "|" (id ++ "|" ++ rest)%string = true.
Proof.
  induction id as [|a id IH]; simpl; [done|].
  rewrite IH. apply orb_true_r.
Qed.

(** The separator is none of the characters of the prefix, so the prefix
    test on a composite id is decided by the question id alone. *)
Lemma StartsWith_composite (id rest : string) :
  StartsWith "SC-" (id ++ "|" ++ rest)%string = StartsWith "SC-" id.
Proof.
  destruct id as [|a [|b [|c id]]]; simpl.
  - done.
  - by destruct (Ascii.eqb "S" a).
  - destruct (Ascii.eqb "S" a); [|done]. by destruct (Ascii.eqb "C" b).
  - destruct (Ascii.eqb "S" a); [|done]. destruct (Ascii.eqb "C" b); [|done].
    by destruct (Ascii.eqb "-" c).
Qed.

Lemma filter_by_id_filter (P : string → bool) (responses : list ResponseRecord)
    (k : string) :
  List.filter (fun r => String.eqb (ItemId r) k)
    (List.filter (fun r => P (ItemId r)) responses) =
  if P k then List.filter (fun r => String.eqb (ItemId r) k) responses else [].
Proof.
  induction responses as [|r rs IH]; simpl; [by destruct (P k)|].
  destruct (String.eqb (ItemId r) k) eqn:E.
  - assert (HPk : P (ItemId r) = P k).
    { apply String.eqb_eq in E. by rewrite E. }
    rewrite HPk. destruct (P k); simpl; rewrite ?E, IH; done.
  - destruct (P (ItemId r)); simpl; rewrite ?E; exact IH.
Qed.

Lemma sumOf_map_ext (f g : Q → Q) (l : list Q) :
  (∀ v, f v == g v) → sumOf (List.map f l) == sumOf (List.map g l).
Proof.
  intros Hfg. induction l as [|v l IH]; simpl; [done|]. by rewrite IH, Hfg.
Qed.

Lemma sampleVariance_bessel (values : list Q) :
  sampleVariance values (Average values) == besselVariance values.
Proof.
  unfold sampleVariance, besselVariance, Count.
  destruct values as [|v1 [|v2 values]]; [done|done|].
  set (l := v1 :: v2 :: values).
  assert (Hlen : (1 <? Z.of_nat (length l))%Z = true).
  { apply Z.ltb_lt. simpl. lia. }
  rewrite Hlen, Sum_sumOf.
  assert (Hsize : inject_Z (Z.of_nat (length l) - 1) == sizeOf l - 1).
  { unfold sizeOf, Qminus, Z.sub. by rewrite inject_Z_plus, inject_Z_opp. }
  rewrite Hsize. apply Qmult_comp; [|done].
  apply sumOf_map_ext. intros v. rewrite Average_meanOf. simpl. ring.
Qed.

(** What a lookup in the group dictionary of a filtered log yields. *)
Lemma itemGroups_lookup (P : string → bool) (responses : list ResponseRecord)
    (k : string) :
  TryGetValue
    (GroupBy ItemId (List.filter (fun r => P (ItemId r)) responses)) k =
  if P k then nonEmpty (List.filter (fun r => String.eqb (ItemId r) k) responses)
  else None.
Proof.
  rewrite TryGetValue_GroupBy, filter_by_id_filter. by destruct (P k).
Qed.

Lemma optionSummaries_In (items : list ChoiceItem)
    (itemGroups : list (string * list ResponseRecord)) (s : ItemSummary) :
  In s (optionSummaries items itemGroups) ↔
  ∃ item option records,
    In item items ∧ In option (ci_Options item) ∧
    TryGetValue itemGroups (compositeIdOf item option) = Some records ∧
    s = summarize (compositeIdOf item option)
          (wc_Axis (opt_Primary option)) (wc_Category (opt_Primary option))
          (Average (List.map Value records))
          (sampleVariance (List.map Value records) (Average (List.map Value records)))
          (optionRecommendedWeight
             (sampleVariance (List.map Value records) (Average (List.map Value records))))
          None records.
Proof.
  unfold optionSummaries. rewrite in_flat_map. split.
  - intros (item & Hitem & Hs). apply in_flat_map in Hs as (option & Hopt & Hs).
    destruct (TryGetValue itemGroups (compositeIdOf item option)) as [records|] eqn:E;
      [|done].
    destruct Hs as [<-|[]]. by exists item, option, records.
  - intros (item & option & records & Hitem & Hopt & E & ->).
    exists item. split; [done|]. apply in_flat_map. exists option. split; [done|].
    rewrite E. by left.
Qed.

(** Completeness and soundness of the option summaries built from a log
    filtered by a test [P] on item ids. *)
Lemma optionSummaries_statistics (P : string → bool) (items : list ChoiceItem)
    (responses : list ResponseRecord) :
  let report :=
    optionSummaries items
      (GroupBy ItemId (List.filter (fun r => P (ItemId r)) responses)) in
  (∀ item option,
     In item items → In option (ci_Options item) →
     P (compositeIdOf item option) = true →
     valuesOf responses (compositeIdOf item option) ≠ [] →
     ∃ s, In s report ∧ is_ItemId s = compositeIdOf item option) ∧
  (∀ s, In s report →
     P (is_ItemId s) = true ∧
     valuesOf responses (is_ItemId s) ≠ [] ∧
     is_Mean s == meanOf (valuesOf responses (is_ItemId s)) ∧
     is_Variance s == besselVariance (valuesOf responses (is_ItemId s))).
Proof.
  intros report. subst report. split.
  - intros item option Hitem Hopt HP Hvals.
    destruct (List.filter (fun r => String.eqb (ItemId r) (compositeIdOf item option))
                responses) as [|r rs] eqn:Hf.
    { exfalso. apply Hvals. unfold valuesOf. by rewrite Hf. }
    eexists. split.
    + apply optionSummaries_In. exists item, option, (r :: rs).
      split; [done|]. split; [done|]. split; [|reflexivity].
      rewrite itemGroups_lookup, HP, Hf. done.
    + done.
  - intros s Hs. apply optionSummaries_In in Hs
      as (item & option & records & Hitem & Hopt & E & ->).
    rewrite itemGroups_lookup in E. simpl.
    destruct (P (compositeIdOf item option)); [|done]. split; [done|].
    unfold valuesOf.
    destruct (List.filter _ responses) as [|r rs]; [done|].
    injection E as <-. split; [done|]. split.
    + apply Average_meanOf.
    + apply sampleVariance_bessel.
Qed.

(** C3 (amended).  Every forced-choice option with responses under its
    composite id gets a summary with the mean and the Bessel-corrected
    variance of exactly those responses; for scenario options the same holds
    when the question id starts with "SC-", and no summary is produced for
    an option of a scenario question whose id does not. *)
Theorem option_statistics_by_composite_id
    (forcedChoiceItems scenarioItems : list ChoiceItem)
    (responses : list ResponseRecord) :
  optionStatisticsReported forcedChoiceItems responses
    (AnalyzeForcedChoice forcedChoiceItems responses) ∧
  optionStatisticsReported
    (List.filter (fun item => StartsWith "SC-" (ci_Id item)) scenarioItems)
    responses (AnalyzeScenario scenarioItems responses) ∧
  (∀ s, In s (AnalyzeScenario scenarioItems responses) →
        StartsWith "SC-" (is_ItemId s) = true).
Proof.
  unfold AnalyzeForcedChoice, AnalyzeScenario.
  destruct (optionSummaries_statistics (Contains "|") forcedChoiceItems responses)
    as [Hfc_complete Hfc_sound].
  destruct (optionSummaries_statistics (StartsWith "SC-") scenarioItems responses)
    as [Hsc_complete Hsc_sound].
  split; [|split].
  - intros item option Hitem Hopt Hvals.
    destruct (Hfc_complete item option Hitem Hopt) as (s & Hs & Hid);
      [apply Contains_composite|done|].
    exists s. split; [done|]. split; [done|].
    destruct (Hfc_sound s Hs) as (_ & _ & Hmean & Hvar).
    rewrite Hid in Hmean, Hvar. done.
  - intros item option Hitem Hopt Hvals.
    apply filter_In in Hitem as [Hitem Hprefix].
    destruct (Hsc_complete item option Hitem Hopt) as (s & Hs & Hid);
      [unfold compositeIdOf; by rewrite StartsWith_composite|done|].
    exists s. split; [done|]. split; [done|].
    destruct (Hsc_sound s Hs) as (_ & _ & Hmean & Hvar).
    rewrite Hid in Hmean, Hvar. done.
  - intros s Hs. by destruct (Hsc_sound s Hs) as [HP _].
Qed.

Lemma option_statistics_by_composite_id_witness :
  ∃ s, In s (AnalyzeScenario AnalyzerExample.scenarioPrefixed AnalyzerExample.prefixedLog) ∧
       is_ItemId s = "SC-1|A"%string ∧ is_Mean s == 2 ∧ is_Variance s == 2.
Proof.
  destruct (option_statistics_by_composite_id [] AnalyzerExample.scenarioPrefixed
              AnalyzerExample.prefixedLog) as (_ & Hsc & _).
  destruct (Hsc AnalyzerExample.prefixedQuestion (AnalyzerExample.choice "A" "science"))
    as (s & Hs & Hid & Hmean & Hvar).
  - simpl. by left.
  - simpl. by left.
  - vm_compute. discriminate.
  - exists s. split; [done|]. split; [done|]. split.
    + rewrite Hmean. reflexivity.
    + rewrite Hvar. reflexivity.
Defined.

(** C3, as stated, fails for a scenario question whose id does not start
    with "SC-": its option has two responses and no summary. *)
Lemma scenario_statistics_counterexample :
  ¬ optionStatisticsReported AnalyzerExample.scenarioPlain AnalyzerExample.plainLog
      (AnalyzeScenario AnalyzerExample.scenarioPlain AnalyzerExample.plainLog).
Proof.
  intros Hclaim.
  destruct (Hclaim AnalyzerExample.plainQuestion (AnalyzerExample.choice "A" "science"))
    as (s & Hs & _).
  - simpl. by left.
  - simpl. by left.
  - vm_compute. discriminate.
  - vm_compute in Hs. exact Hs.
Qed.

(** *** Effective weight *)

Lemma summarize_effective (itemId axis category : string) (mean variance : Q)
    (recommendedWeight : Q) (correlation : option Q) (records : list ResponseRecord) :
  let s := summarize itemId axis category mean variance recommendedWeight
             correlation records in
  is_EffectiveWeight s =
  is_RecommendedWeight s
  * CalculateTimeMultiplier (is_AverageResponseTimeMs s)
  * CalculateConfidenceMultiplier (is_AverageConfidence s).
Proof. reflexivity. Qed.

Lemma CalculateConfidenceMultiplier_compat (c c' : Q) :
  c == c' →
  CalculateConfidenceMultiplier (Some c) = CalculateConfidenceMultiplier (Some c').
Proof.
  intros Heq. unfold CalculateConfidenceMultiplier.
  repeat match goal with
         | |- context [Qlt_le_dec ?x ?y] =>
             destruct (Qlt_le_dec x y) as [?Hlt|?Hle]
         end;
    try reflexivity; exfalso;
    rewrite ?Heq in *;
    repeat match goal with
           | H1 : ?a < ?b, H2 : ?b <= ?a |- _ => exact (Qlt_not_le _ _ H1 H2)
           end.
Qed.

(** With at least one confidence value among the records, the multiplier
    applied by the analyzer is the specified bucket of their average. *)
Lemma confidence_multiplier_present (records : list ResponseRecord) :
  presentValues Confidence records ≠ [] →
  CalculateConfidenceMultiplier
    (Some (Average (DefaultIfEmpty (presentValues Confidence records)))) =
  confidenceMultiplierAsSpecified (averageConfidenceOf records).
Proof.
  intros Hne. unfold averageConfidenceOf.
  destruct (presentValues Confidence records) as [|c cs]; [done|].
  simpl DefaultIfEmpty.
  rewrite (CalculateConfidenceMultiplier_compat _ _ (Average_meanOf (c :: cs))).
  reflexivity.
Qed.

(** Without any confidence value the average of the defaulted sequence is
    0, which falls into the lowest bucket. *)
Lemma confidence_multiplier_absent (records : list ResponseRecord) :
  presentValues Confidence records = [] →
  CalculateConfidenceMultiplier
    (Some (Average (DefaultIfEmpty (presentValues Confidence records)))) = 8 # 10 ∧
  confidenceMultiplierAsSpecified (averageConfidenceOf records) = 1.
Proof.
  intros Hnil. unfold averageConfidenceOf. rewrite Hnil. split; reflexivity.
Qed.

(** C2 (defect).  One timed answer without a confidence value: the
    recommended weight is 1 and the time multiplier is 1, yet the effective
    weight is 0.8, not the 1.0 that an absent confidence is specified to
    give. *)
Theorem effectiveWeight_without_confidence :
  ∃ s,
    fst (AnalyzeLikert AnalyzerExample.integerSqrt AnalyzerExample.likertItems
           AnalyzerExample.unratedLog) = [s] ∧
    averageConfidenceOf AnalyzerExample.unratedLog = None ∧
    is_RecommendedWeight s == 1 ∧
    CalculateTimeMultiplier (is_AverageResponseTimeMs s) == 1 ∧
    is_EffectiveWeight s == 8 # 10 ∧
    ¬ is_EffectiveWeight s ==
        is_RecommendedWeight s
        * CalculateTimeMultiplier (is_AverageResponseTimeMs s)
        * confidenceMultiplierAsSpecified (averageConfidenceOf AnalyzerExample.unratedLog).
Proof.
  eexists. split; [reflexivity|]. split; [reflexivity|].
  split; [reflexivity|]. split; [reflexivity|]. split; [reflexivity|].
  vm_compute. discriminate.
Qed.

(** *** Alpha by axis *)

Lemma GroupBy_key_set {A : Type} (key : A → string) (l : list A) (k : string) :
  In k (List.map fst (GroupBy key l)) ↔ In k (List.map key l).
Proof.
  unfold GroupBy. induction l as [|x l IH] using rev_ind; [done|].
  rewrite fold_left_app, List.map_app, in_app_iff. cbn [fold_left List.map In].
  rewrite group_add_keys, IH. intuition.
Qed.

Lemma axisAlphas_keys (responses : list ResponseRecord)
    (itemSummaries : list ItemSummary) :
  List.map fst (axisAlphas responses itemSummaries)
  = List.map fst (GroupBy is_Axis itemSummaries).
Proof.
  unfold axisAlphas. rewrite List.map_map. apply List.map_ext.
  by intros [axis group].
Qed.

(** C4 (amended).  The alpha dictionary of [AnalyzeLikert] has exactly one
    entry for every axis that has an item summary.  With v_1..v_k the
    variances of the summaries of the axis (k >= 1), the reported alpha
    equals (k/(k-1)) * (1 - sum v_i / (k * mean v)), and it is undefined
    (absent, the analyzer still returns) exactly when k < 2, or the
    analyzer's respondent estimate is below 2, or the mean item variance is
    0.  The respondent estimate is the number of records of the whole log
    divided by k (integer division), and at least 1. *)
Theorem AnalyzeLikert_alpha_by_axis (Math_Sqrt : Q → Q)
    (items : list LikertItem) (responses : list ResponseRecord) :
  let report := AnalyzeLikert Math_Sqrt items responses in
  List.NoDup (List.map fst (snd report)) ∧
  (∀ axis, In axis (List.map fst (snd report))
           ↔ In axis (List.map is_Axis (fst report))) ∧
  Forall (fun entry =>
            let variances :=
              List.map is_Variance (summariesOf (fst entry) (fst report)) in
            variances ≠ [] ∧
            alphaReportedAs (respondentEstimate responses (Count variances))
              variances (snd entry))
         (snd report).
Proof.
  cbn zeta. cbn [AnalyzeLikert fst snd].
  set (summaries := likertSummaries Math_Sqrt items responses).
  rewrite axisAlphas_keys. split; [apply GroupBy_NoDup|].
  split; [intros axis; apply GroupBy_key_set|].
  apply List.Forall_forall. intros [axis reported] Hin. cbn [fst snd].
  apply axisAlphas_entry in Hin as (group & Hgroup & ->).
  unfold summariesOf.
  destruct (List.filter (fun s => String.eqb (is_Axis s) axis) summaries)
    as [|s group'] eqn:Hf; [done|].
  injection Hgroup as <-. split; [done|].
  assert (Hk : Z.max (Count (s :: group')) 1
               = Count (List.map is_Variance (s :: group'))).
  { unfold Count. rewrite length_map. cbn [length]. lia. }
  rewrite Hk. apply CronbachAlpha_formula.
Qed.

(** The two logs of the example.  In the first, two respondents answer
    three items of the axis in five records: 5 / 3 is 1, and no alpha is
    reported.  In the second a single respondent answers two items twice:
    4 / 2 is 2, and an alpha is reported. *)
Example AnalyzeLikert_alpha_runs :
  snd (AnalyzeLikert AnalyzerExample.integerSqrt AnalyzerExample.axisItems
         AnalyzerExample.partialLog) = [("activity"%string, None)] ∧
  respondentsOf AnalyzerExample.axisItems AnalyzerExample.partialLog "activity"
    = ["r1"%string; "r2"%string] ∧
  List.map (fun s => Qred (is_Variance s))
    (fst (AnalyzeLikert AnalyzerExample.integerSqrt AnalyzerExample.axisItems
            AnalyzerExample.partialLog)) = [2; 9 # 2; 0] ∧
  (∃ alpha, snd (AnalyzeLikert AnalyzerExample.integerSqrt AnalyzerExample.axisItems
                   AnalyzerExample.repeatedLog) = [("activity"%string, Some alpha)]
            ∧ alpha == 0) ∧
  respondentsOf AnalyzerExample.axisItems AnalyzerExample.repeatedLog "activity"
    = ["r1"%string].
Proof.
  split; [by vm_compute|]. split; [by vm_compute|]. split; [by vm_compute|].
  split; [|by vm_compute]. eexists. split; by vm_compute.
Qed.

(** C4, as stated, fails on the first log: the axis has three item
    variances with a mean that is not 0 and two respondents behind them,
    and no alpha is reported. *)
Lemma alpha_respondents_counterexample :
  ∃ axis reported,
    In (axis, reported)
       (snd (AnalyzeLikert AnalyzerExample.integerSqrt AnalyzerExample.axisItems
               AnalyzerExample.partialLog)) ∧
    ¬ alphaReportedAs
        (Count (respondentsOf AnalyzerExample.axisItems AnalyzerExample.partialLog axis))
        (List.map is_Variance
           (summariesOf axis
              (fst (AnalyzeLikert AnalyzerExample.integerSqrt AnalyzerExample.axisItems
                      AnalyzerExample.partialLog))))
        reported.
Proof.
  exists "activity"%string, None. split; [vm_compute; by left|].
  intros [Hnone _]. destruct (proj1 Hnone eq_refl) as [Hk|[Hr|Hm]].
  - vm_compute in Hk. discriminate Hk.
  - vm_compute in Hr. discriminate Hr.
  - vm_compute in Hm. discriminate Hm.
Qed.

End AnalyzerFacts.

(** ** Response aggregator *)

Module AssocFacts.

Lemma assoc_get_set_eq {V : Type} (key : string) (value : V) (m : list (string * V)) :
  assoc_get key (assoc_set key value m) = Some value.
Proof.
  induction m as [|[k v] rest IH]; simpl.
  - by rewrite String.eqb_refl.
  - destruct (String.eqb k key) eqn:E; simpl; by rewrite E.
Qed.

Lemma assoc_get_set_ne {V : Type} (key key' : string) (value : V)
    (m : list (string * V)) :
  key ≠ key' → assoc_get key' (assoc_set key value m) = assoc_get key' m.
Proof.
  intros Hne. induction m as [|[k v] rest IH]; simpl.
  - destruct (String.eqb_spec key key'); done.
  - destruct (String.eqb k key) eqn:E; simpl.
    + apply String.eqb_eq in E as ->. destruct (String.eqb_spec key key'); done.
    + by rewrite IH.
Qed.

Lemma assoc_get_set {V : Type} (key key' : string) (value : V) (m : list (string * V)) :
  assoc_get key' (assoc_set key value m) =
  if String.eqb key key' then Some value else assoc_get key' m.
Proof.
  destruct (String.eqb_spec key key') as [<-|Hne].
  - apply assoc_get_set_eq.
  - by apply assoc_get_set_ne.
Qed.

Lemma assoc_set_keys {V : Type} (key : string) (value : V) (m : list (string * V)) :
  List.map fst (assoc_set key value m) =
  match assoc_get key m with
  | Some _ => List.map fst m
  | None => List.map fst m ++ [key]
  end.
Proof.
  induction m as [|[k v] rest IH]; simpl; [done|].
  destruct (String.eqb k key) eqn:E; simpl; [done|].
  rewrite IH. by destruct (assoc_get key rest).
Qed.

Lemma assoc_get_None {V : Type} (key : string) (m : list (string * V)) :
  assoc_get key m = None ↔ ¬ In key (List.map fst m).
Proof.
  induction m as [|[k v] rest IH]; simpl; [tauto|].
  destruct (String.eqb_spec k key) as [->|Hne].
  - split; [done|]. intros H. exfalso. apply H. by left.
  - rewrite IH. tauto.
Qed.

Lemma assoc_set_NoDup {V : Type} (key : string) (value : V) (m : list (string * V)) :
  List.NoDup (List.map fst m) → List.NoDup (List.map fst (assoc_set key value m)).
Proof.
  intros Hnd. rewrite assoc_set_keys.
  destruct (assoc_get key m) eqn:E; [done|].
  apply assoc_get_None in E.
  apply NoDup_ListNoDup, NoDup_app. apply NoDup_ListNoDup in Hnd.
  split; [done|]. split; [|apply NoDup_singleton].
  intros k Hk Hk'. apply list_elem_of_singleton in Hk' as ->.
  by apply list_elem_of_In in Hk.
Qed.

Lemma assoc_get_In {V : Type} (key : string) (value : V) (m : list (string * V)) :
  List.NoDup (List.map fst m) →
  (In (key, value) m ↔ assoc_get key m = Some value).
Proof.
  induction m as [|[k v] rest IH]; simpl; intros Hnd; [split; [tauto|done]|].
  apply List.NoDup_cons_iff in Hnd as [Hnotin Hnd].
  destruct (String.eqb_spec k key) as [->|Hne].
  - split.
    + intros [[= ->]|Hin]; [done|]. exfalso. apply Hnotin.
      apply in_map_iff. by exists (key, value).
    + intros [= ->]. by left.
  - rewrite <- IH by done. split; [|tauto].
    intros [[= -> ->]|Hin]; done.
Qed.

Lemma assoc_set_In {V : Type} (key : string) (value : V) (m : list (string * V))
    (k : string) (v : V) :
  In (k, v) (assoc_set key value m) → (k = key ∧ v = value) ∨ In (k, v) m.
Proof.
  induction m as [|[k' v'] rest IH]; simpl.
  - intros [[= <- <-]|[]]. by left.
  - destruct (String.eqb_spec k' key) as [->|Hne]; simpl.
    + intros [[= <- <-]|Hin]; [by left|right; by right].
    + intros [Heq|Hin]; [right; by left|].
      destruct (IH Hin) as [?|?]; [by left|right; by right].
Qed.

(** Filtering an association list with distinct keys by one key. *)
Lemma flat_map_at_key {V B : Type} (key : string) (h : V → list B)
    (m : list (string * V)) :
  List.NoDup (List.map fst m) →
  flat_map (fun '(k, v) => if String.eqb k key then h v else []) m =
  match assoc_get key m with
  | Some v => h v
  | None => []
  end.
Proof.
  induction m as [|[k v] rest IH]; simpl; intros Hnd; [done|].
  apply List.NoDup_cons_iff in Hnd as [Hnotin Hnd].
  destruct (String.eqb_spec k key) as [->|Hne].
  - assert (Hnone : assoc_get key rest = None) by by apply assoc_get_None.
    rewrite IH, Hnone by done. apply app_nil_r.
  - by rewrite IH.
Qed.

End AssocFacts.

Module CooccurrenceFacts.
Import JsNum Aggregator AggregatorSpec AssocFacts.

Lemma fold_left_flat_map {A B S : Type} (f : S → B → S) (g : A → list B)
    (l : list A) (s : S) :
  fold_left f (flat_map g l) s = fold_left (fun s a => fold_left f (g a) s) l s.
Proof.
  revert s. induction l as [|a l IH]; intros s; simpl; [done|].
  by rewrite fold_left_app, IH.
Qed.

Lemma fold_left_map {A B S : Type} (f : S → B → S) (g : A → B) (l : list A) (s : S) :
  fold_left f (List.map g l) s = fold_left (fun s a => f s (g a)) l s.
Proof.
  revert s. induction l as [|a l IH]; intros s; simpl; [done|]. by rewrite IH.
Qed.

Lemma fold_left_ext {A S : Type} (f g : S → A → S) (l : list A) (s s' : S) :
  (∀ s a, f s a = g s a) → s = s' → fold_left f l s = fold_left g l s'.
Proof.
  intros Hfg <-. revert s. induction l as [|a l IH]; intros s; simpl; [done|].
  by rewrite Hfg, IH.
Qed.

(** The three passes over the bank are one run of [increment] over all
    position pairs. *)
Lemma cooccurrenceMatrix_calls (questionBank : QuestionBank) (topCategories : list string) :
  cooccurrenceMatrix questionBank topCategories =
  fold_left (step topCategories) (positionPairs questionBank) [].
Proof.
  unfold cooccurrenceMatrix, positionPairs, categoryLists, incrementAll.
  rewrite !flat_map_app, !fold_left_app. symmetry.
  rewrite (fold_left_flat_map _ pairsOf (flat_map _ (scenario questionBank))).
  rewrite (fold_left_flat_map _ _ (scenario questionBank)).
  apply fold_left_ext; [intros s q; by rewrite fold_left_map|].
  rewrite (fold_left_flat_map _ pairsOf (flat_map _ (forcedChoice questionBank))).
  rewrite (fold_left_flat_map _ _ (forcedChoice questionBank)).
  apply fold_left_ext; [intros s q; by rewrite fold_left_map|].
  rewrite fold_left_flat_map, fold_left_map. reflexivity.
Qed.

Lemma lookup2_increment (topCategories : list string) (c1 c2 : string)
    (matrix : list (string * list (string * Z))) (k1 k2 : string) :
  lookup2 (increment topCategories c1 c2 matrix) k1 k2 =
  if countsFor topCategories k1 k2 (c1, c2)
  then Some (default 0 (lookup2 matrix k1 k2) + 1)%Z
  else lookup2 matrix k1 k2.
Proof.
  unfold increment, countsFor.
  destruct (includes topCategories c1 && includes topCategories c2
            && negb (String.eqb c1 c2)); simpl; [|done].
  set (key1 := if String.ltb c1 c2 then c1 else c2).
  set (key2 := if String.ltb c1 c2 then c2 else c1).
  unfold lookup2. rewrite assoc_get_set.
  destruct (String.eqb_spec key1 k1) as [<-|Hne1]; simpl; [|done].
  rewrite assoc_get_set.
  destruct (String.eqb_spec key2 k2) as [<-|Hne2].
  - f_equal. f_equal.
    destruct (assoc_get key1 matrix) as [row|]; simpl; [|done].
    destruct (assoc_get key2 row) as [n|]; simpl; [|done].
    destruct (Z.eqb_spec n 0); congruence.
  - by destruct (assoc_get key1 matrix).
Qed.

Lemma lookup2_calls (topCategories : list string) (calls : list (string * string))
    (matrix : list (string * list (string * Z))) (k1 k2 : string) :
  lookup2 (fold_left (step topCategories) calls matrix) k1 k2 =
  if (tally topCategories k1 k2 calls =? 0)%Z then lookup2 matrix k1 k2
  else Some (default 0 (lookup2 matrix k1 k2) + tally topCategories k1 k2 calls)%Z.
Proof.
  revert matrix. induction calls as [|[c1 c2] calls IH]; intros matrix; [done|].
  cbn [fold_left]. rewrite IH.
  change (step topCategories matrix (c1, c2))
    with (increment topCategories c1 c2 matrix).
  rewrite lookup2_increment.
  unfold tally. cbn [List.filter].
  destruct (countsFor topCategories k1 k2 (c1, c2)); [|done].
  cbn [length default]. 
  generalize (length (List.filter (countsFor topCategories k1 k2) calls)).
  intros n.
  destruct (Z.eqb_spec (Z.of_nat n) 0) as [Hz|Hz];
    destruct (Z.eqb_spec (Z.of_nat (S n)) 0) as [Hs|Hs]; try lia.
  - apply f_equal. lia.
  - apply f_equal. unfold id. lia.
Qed.

Lemma increment_wellKeyed (topCategories : list string) (c1 c2 : string)
    (matrix : list (string * list (string * Z))) :
  wellKeyed matrix → wellKeyed (increment topCategories c1 c2 matrix).
Proof.
  intros [Hkeys Hrows]. unfold increment.
  destruct (includes topCategories c1 && includes topCategories c2
            && negb (String.eqb c1 c2)); [|done].
  set (key1 := if String.ltb c1 c2 then c1 else c2).
  set (key2 := if String.ltb c1 c2 then c2 else c1).
  split; [by apply assoc_set_NoDup|].
  intros k row Hin. apply assoc_set_In in Hin as [[-> ->]|Hin]; [|by eapply Hrows].
  apply assoc_set_NoDup.
  destruct (assoc_get key1 matrix) as [row|] eqn:E; simpl; [|constructor].
  apply (Hrows key1). by apply assoc_get_In.
Qed.

Lemma calls_wellKeyed (topCategories : list string) (calls : list (string * string))
    (matrix : list (string * list (string * Z))) :
  wellKeyed matrix → wellKeyed (fold_left (step topCategories) calls matrix).
Proof.
  revert matrix. induction calls as [|[c1 c2] calls IH]; intros matrix Hwk; [done|].
  simpl. apply IH. by apply increment_wellKeyed.
Qed.

Lemma wellKeyed_nil : wellKeyed [].
Proof. split; [constructor|]. intros k row []. Qed.

(** The cells listed under one key pair are read off the matrix. *)
Lemma listed_flatten (matrix : list (string * list (string * Z))) (k1 k2 : string) :
  wellKeyed matrix →
  listed (flatten matrix) k1 k2 =
  match lookup2 matrix k1 k2 with
  | Some n => [ {| x := k1; y := k2; z := n |} ]
  | None => []
  end.
Proof.
  intros [Hkeys Hrows]. unfold listed, flatten, lookup2.
  assert (Hfilter :
    List.filter (fun c => String.eqb (x c) k1 && String.eqb (y c) k2)
      (flat_map (fun '(cat1, row) =>
                   List.map (fun '(cat2, count) => {| x := cat1; y := cat2; z := count |}) row)
                matrix) =
    flat_map (fun '(cat1, row) =>
                if String.eqb cat1 k1
                then flat_map (fun '(cat2, count) =>
                                 if String.eqb cat2 k2
                                 then [ {| x := k1; y := k2; z := count |} ] else []) row
                else [])
             matrix).
  { clear. induction matrix as [|[cat1 row] rest IH]; simpl; [done|].
    rewrite List.filter_app, IH. f_equal.
    destruct (String.eqb cat1 k1) eqn:E1.
    - apply String.eqb_eq in E1 as ->.
      induction row as [|[cat2 count] row IHr]; simpl; [done|].
      rewrite String.eqb_refl. simpl.
      destruct (String.eqb cat2 k2) eqn:E2; simpl; rewrite IHr; [|done].
      apply String.eqb_eq in E2 as ->. done.
    - induction row as [|[cat2 count] row IHr]; simpl; [done|].
      rewrite E1. simpl. exact IHr. }
  rewrite Hfilter, flat_map_at_key by done.
  destruct (assoc_get k1 matrix) as [row|] eqn:E; [|done].
  rewrite flat_map_at_key by (apply (Hrows k1); by apply assoc_get_In).
  by destruct (assoc_get k2 row).
Qed.

Lemma flatten_In (matrix : list (string * list (string * Z))) (c : Cell) :
  wellKeyed matrix →
  In c (flatten matrix) → lookup2 matrix (x c) (y c) = Some (z c).
Proof.
  intros [Hkeys Hrows] Hin. unfold flatten in Hin.
  apply in_flat_map in Hin as ([cat1 row] & Hrow & Hin).
  apply in_map_iff in Hin as ([cat2 count] & <- & Hcell). simpl.
  unfold lookup2. apply assoc_get_In in Hrow as Hget; [|done]. rewrite Hget.
  apply assoc_get_In; [|done]. by apply (Hrows cat1).
Qed.


Lemma ltb_irrefl (a : string) : String.ltb a a = false.
Proof.
  unfold String.ltb. pose proof (String.compare_antisym a a) as H.
  destruct (String.compare a a); done.
Qed.

Lemma ltb_asym (a b : string) : String.ltb a b = true → String.ltb b a = false.
Proof.
  unfold String.ltb. rewrite (String.compare_antisym a b).
  by destruct (String.compare b a).
Qed.

Lemma ltb_total (a b : string) : a ≠ b → String.ltb a b = false → String.ltb b a = true.
Proof.
  unfold String.ltb. intros Hne. rewrite (String.compare_antisym a b).
  destruct (String.compare b a) eqn:E; simpl; try done.
  apply String.compare_eq_iff in E. congruence.
Qed.

Lemma includes_In (l : list string) (a : string) : includes l a = true ↔ In a l.
Proof.
  unfold includes. rewrite existsb_exists. split.
  - intros (b & Hb & E). apply String.eqb_eq in E as ->. done.
  - intros Hin. exists a. by rewrite String.eqb_refl.
Qed.

(** A counted call names its two keys, in one order or the other; both are
    top categories and the first key is the smaller. *)
Lemma countsFor_true (topCategories : list string) (k1 k2 c1 c2 : string) :
  countsFor topCategories k1 k2 (c1, c2) = true →
  In k1 topCategories ∧ In k2 topCategories ∧ String.ltb k1 k2 = true ∧
  ((c1 = k1 ∧ c2 = k2) ∨ (c1 = k2 ∧ c2 = k1)).
Proof.
  unfold countsFor. rewrite !andb_true_iff, negb_true_iff, !String.eqb_eq, !includes_In.
  intros ((((H1 & H2) & Hne) & Hk1) & Hk2). apply String.eqb_neq in Hne.
  destruct (String.ltb c1 c2) eqn:E; subst k1 k2.
  - split; [done|]. split; [done|]. split; [done|]. by left.
  - split; [done|]. split; [done|]. split; [by apply ltb_total|]. by right.
Qed.

Lemma countsFor_canonical (topCategories : list string) (a b : string)
    (call : string * string) :
  In a topCategories → In b topCategories → a ≠ b →
  countsFor topCategories (fst (canonical a b)) (snd (canonical a b)) call =
    unorderedMatch a b call ∧
  countsFor topCategories (snd (canonical a b)) (fst (canonical a b)) call = false.
Proof.
  intros Ha Hb Hne. destruct call as [c1 c2].
  assert (Hlt : String.ltb (fst (canonical a b)) (snd (canonical a b)) = true).
  { unfold canonical. destruct (String.ltb a b) eqn:E; simpl; [done|by apply ltb_total]. }
  assert (Hkeys : (fst (canonical a b) = a ∧ snd (canonical a b) = b) ∨
                  (fst (canonical a b) = b ∧ snd (canonical a b) = a)).
  { unfold canonical. destruct (String.ltb a b); simpl; tauto. }
  split.
  - destruct (countsFor topCategories (fst (canonical a b)) (snd (canonical a b)) (c1, c2))
      eqn:E.
    + apply countsFor_true in E as (_ & _ & _ & Hc). symmetry.
      unfold unorderedMatch. simpl.
      rewrite orb_true_iff, !andb_true_iff, !String.eqb_eq.
      destruct Hkeys as [[Hk1 Hk2]|[Hk1 Hk2]]; rewrite Hk1, Hk2 in Hc; tauto.
    + symmetry. apply not_true_is_false. intros Hm. 
      unfold unorderedMatch in Hm. simpl in Hm.
      rewrite orb_true_iff, !andb_true_iff, !String.eqb_eq in Hm.
      assert (Htrue : countsFor topCategories (fst (canonical a b)) (snd (canonical a b))
                        (c1, c2) = true); [|congruence].
      unfold countsFor.
      rewrite !andb_true_iff, negb_true_iff, !String.eqb_eq, !includes_In, String.eqb_neq.
      unfold canonical in *.
      destruct Hm as [[-> ->]|[-> ->]].
      * destruct (String.ltb a b); simpl; tauto.
      * destruct (String.ltb a b) eqn:Eab; simpl.
        -- rewrite (ltb_asym _ _ Eab). split; [|done]. split; [|done].
           split; [tauto|]. congruence.
        -- rewrite (ltb_total _ _ Hne Eab). split; [|done]. split; [|done].
           split; [tauto|]. congruence.
  - apply not_true_is_false. intros E.
    apply countsFor_true in E as (_ & _ & Hgt & _).
    apply ltb_asym in Hlt. congruence.
Qed.

Lemma tally_canonical (questionBank : QuestionBank) (topCategories : list string)
    (a b : string) :
  In a topCategories → In b topCategories → a ≠ b →
  tally topCategories (fst (canonical a b)) (snd (canonical a b))
        (positionPairs questionBank) = coOccurrences questionBank a b ∧
  tally topCategories (snd (canonical a b)) (fst (canonical a b))
        (positionPairs questionBank) = 0%Z.
Proof.
  intros Ha Hb Hne. unfold tally, coOccurrences. split.
  - do 2 f_equal. apply filter_ext. intros call.
    by apply countsFor_canonical.
  - assert (Hnil : List.filter
             (countsFor topCategories (snd (canonical a b)) (fst (canonical a b)))
             (positionPairs questionBank) = []); [|by rewrite Hnil].
    induction (positionPairs questionBank) as [|call calls IH]; simpl; [done|].
    destruct (countsFor_canonical topCategories a b call Ha Hb Hne) as [_ ->]. done.
Qed.

Lemma unorderedMatch_sym (a b : string) (call : string * string) :
  unorderedMatch a b call = unorderedMatch b a call.
Proof. unfold unorderedMatch. apply orb_comm. Qed.

Lemma coOccurrences_sym (questionBank : QuestionBank) (a b : string) :
  coOccurrences questionBank a b = coOccurrences questionBank b a.
Proof.
  unfold coOccurrences. do 2 f_equal. apply filter_ext. intros call.
  apply unorderedMatch_sym.
Qed.

Lemma cooccurrenceData_flatten (questionBank : QuestionBank)
    (categoryScore : list (string * num)) :
  categoryScore ≠ [] →
  cooccurrenceData questionBank categoryScore =
  flatten (fold_left (step (List.map fst categoryScore))
                     (positionPairs questionBank) []).
Proof.
  intros Hne. unfold cooccurrenceData.
  destruct categoryScore as [|entry rest]; [done|].
  cbn [length Nat.eqb]. by rewrite cooccurrenceMatrix_calls.
Qed.

(** C8 (amended).  For two distinct top categories the count is the same
    in both orders; the pair is listed once, smaller category first, when
    the two categories occur together in some category list, and not at all
    otherwise; it is never listed in the other order.  Every listed cell has
    two top categories, the smaller first (so no self-pair), and carries the
    number of their joint occurrences. *)
Theorem cooccurrence_pairs (questionBank : QuestionBank)
    (categoryScore : list (string * num)) :
  let data := cooccurrenceData questionBank categoryScore in
  let topCategories := List.map fst categoryScore in
  (∀ a b, In a topCategories → In b topCategories → a ≠ b →
     coOccurrences questionBank a b = coOccurrences questionBank b a ∧
     listed data (snd (canonical a b)) (fst (canonical a b)) = [] ∧
     listed data (fst (canonical a b)) (snd (canonical a b)) =
       if (0 <? coOccurrences questionBank a b)%Z
       then [ {| x := fst (canonical a b); y := snd (canonical a b);
                 z := coOccurrences questionBank a b |} ]
       else []) ∧
  (∀ c, In c data →
     In (x c) topCategories ∧ In (y c) topCategories ∧
     String.ltb (x c) (y c) = true ∧
     z c = coOccurrences questionBank (x c) (y c) ∧ (0 < z c)%Z).
Proof.
  intros data topCategories. subst data topCategories.
  destruct categoryScore as [|entry rest].
  { split; [intros a b []|intros c []]. }
  set (scores := entry :: rest).
  assert (Hne : scores ≠ []) by done. clearbody scores.
  rewrite cooccurrenceData_flatten by done.
  set (topCategories := List.map fst scores).
  pose proof (calls_wellKeyed topCategories (positionPairs questionBank) []
                wellKeyed_nil) as Hwk.
  split.
  - intros a b Ha Hb Hab.
    destruct (tally_canonical questionBank topCategories a b Ha Hb Hab) as [Hfwd Hrev].
    split; [apply coOccurrences_sym|].
    rewrite !(listed_flatten _ _ _ Hwk), !lookup2_calls. rewrite Hfwd, Hrev. simpl.
    split; [done|].
    assert (Hnonneg : (0 <= coOccurrences questionBank a b)%Z)
      by (unfold coOccurrences; lia).
    destruct (Z.eqb_spec (coOccurrences questionBank a b) 0) as [Hz|Hz];
      destruct (Z.ltb_spec 0 (coOccurrences questionBank a b)); try lia; done.
  - intros c Hc. apply flatten_In in Hc; [|done].
    rewrite lookup2_calls in Hc. simpl in Hc.
    destruct (Z.eqb_spec (tally topCategories (x c) (y c) (positionPairs questionBank)) 0)
      as [Hz|Hz]; [done|].
    injection Hc as Hc.
    assert (Hex : ∃ call, countsFor topCategories (x c) (y c) call = true).
    { unfold tally in Hz.
      destruct (List.filter (countsFor topCategories (x c) (y c))
                  (positionPairs questionBank)) as [|call calls] eqn:Hf; [done|].
      exists call.
      assert (Hin : In call (List.filter (countsFor topCategories (x c) (y c))
                               (positionPairs questionBank)))
        by (rewrite Hf; by left).
      by apply filter_In in Hin as [_ ?]. }
    destruct Hex as ([c1 c2] & Hcall).
    apply countsFor_true in Hcall as (Hx & Hy & Hlt & _).
    split; [done|]. split; [done|]. split; [done|].
    assert (Hxy : x c ≠ y c).
    { intros Heq. rewrite Heq, ltb_irrefl in Hlt. done. }
    destruct (tally_canonical questionBank topCategories (x c) (y c) Hx Hy Hxy)
      as [Hfwd _].
    unfold canonical in Hfwd. rewrite Hlt in Hfwd. simpl in Hfwd.
    rewrite Hfwd in *. split; [lia|].
    unfold coOccurrences in *. lia.
Qed.


Lemma cooccurrence_pairs_witness :
  listed
    (cooccurrenceData AggregatorExample.bank
       (categoryScore AggregatorExample.bank AggregatorExample.likertAnswers []
          AggregatorExample.rankThree))
    "business" "law"
  = [ {| x := "business"; y := "law"; z := 1 |} ].
Proof.
  destruct (cooccurrence_pairs AggregatorExample.bank
              (categoryScore AggregatorExample.bank AggregatorExample.likertAnswers []
                 AggregatorExample.rankThree)) as [Hpairs _].
  destruct (Hpairs "law"%string "business"%string) as (_ & _ & Hlisted).
  - vm_compute. tauto.
  - vm_compute. tauto.
  - discriminate.
  - exact Hlisted.
Defined.

(** C8, as stated, fails for two top categories that never stand in one
    category list: "law" and "science" both have a score, and no cell pairs
    them. *)
Lemma cooccurrence_counterexample :
  In "law"%string
     (List.map fst (categoryScore AggregatorExample.bank AggregatorExample.likertAnswers []
                      AggregatorExample.rankThree)) ∧
  In "science"%string
     (List.map fst (categoryScore AggregatorExample.bank AggregatorExample.likertAnswers []
                      AggregatorExample.rankThree)) ∧
  "law"%string ≠ "science"%string ∧
  ¬ pairListedOnce
      (cooccurrenceData AggregatorExample.bank
         (categoryScore AggregatorExample.bank AggregatorExample.likertAnswers []
            AggregatorExample.rankThree))
      "law" "science".
Proof.
  split; [vm_compute; tauto|]. split; [vm_compute; tauto|]. split; [discriminate|].
  unfold pairListedOnce. vm_compute. discriminate.
Qed.

End CooccurrenceFacts.

Module ScoreFacts.
Import JsNum Aggregator ScoreSpec AssocFacts.

Lemma rankWeightAt_first_three :
  rankWeightAt 0 = Fin 1 ∧ rankWeightAt 1 = Fin (1 # 2) ∧ rankWeightAt 2 = Fin (1 # 4).
Proof. done. Qed.

(** Past the third rank there is no weight to read. *)
Lemma rankWeightAt_beyond (index : nat) : (3 <= index)%nat → rankWeightAt index = NaN.
Proof.
  intros Hge. unfold rankWeightAt, weights.
  do 3 (destruct index as [|index]; [lia|]). done.
Qed.

Lemma contribution_beyond (product : Q) (index : nat) :
  (3 <= index)%nat → mul (Fin product) (rankWeightAt index) = NaN.
Proof. intros Hge. by rewrite rankWeightAt_beyond. Qed.

(** A NaN contribution makes the score NaN, and a NaN score stays NaN
    whatever is added later. *)
Lemma addScore_NaN (key : string) (scores : list (string * num)) :
  assoc_get key (addScore key NaN scores) = Some NaN.
Proof.
  unfold addScore. rewrite assoc_get_set_eq.
  by destruct (default (Fin 0) (assoc_get key scores)).
Qed.

Lemma addScore_NaN_stays (key k : string) (value : num) (scores : list (string * num)) :
  assoc_get key scores = Some NaN →
  assoc_get key (addScore k value scores) = Some NaN.
Proof.
  intros Hnan. unfold addScore. rewrite assoc_get_set.
  destruct (String.eqb_spec k key) as [->|Hne]; [|done].
  by rewrite Hnan.
Qed.

(** C1 (defect).  The first three ranks are weighted 1, 1/2 and 1/4, but
    the fourth rank reads no weight: with a ranking of four options the
    category, aptitude and tag scores fed by the fourth option are NaN,
    whereas the ranking cut to three entries leaves the fourth option's
    category without an entry and the shared tag at 4. *)
Theorem fourth_rank_contribution :
  rankWeightAt 0 = Fin 1 ∧ rankWeightAt 1 = Fin (1 # 2) ∧
  rankWeightAt 2 = Fin (1 # 4) ∧ rankWeightAt 3 = NaN ∧
  assoc_get "engineering"
    (categoryScore AggregatorExample.bank AggregatorExample.likertAnswers []
       AggregatorExample.rankAll) = Some NaN ∧
  assoc_get "engineering"
    (aptitudeScores AggregatorExample.bank AggregatorExample.likertAnswers []
       AggregatorExample.rankAll) = Some NaN ∧
  score <$> assoc_get "lab"
    (tagScores AggregatorExample.bank AggregatorExample.likertAnswers []
       AggregatorExample.rankAll) = Some NaN ∧
  assoc_get "engineering"
    (categoryScore AggregatorExample.bank AggregatorExample.likertAnswers []
       AggregatorExample.rankThree) = None ∧
  assoc_get "engineering"
    (aptitudeScores AggregatorExample.bank AggregatorExample.likertAnswers []
       AggregatorExample.rankThree) = None ∧
  score <$> assoc_get "lab"
    (tagScores AggregatorExample.bank AggregatorExample.likertAnswers []
       AggregatorExample.rankThree) = Some (Fin 4).
Proof. repeat split; reflexivity. Qed.

(** C10 (defect).  With the four-option ranking the tag "lab" has score
    NaN; the comparator cannot order it, and "stage" (score 2) is listed
    after "debate" (score 1): the output is not in descending order. *)
Theorem tagScores_order_with_NaN :
  List.map (fun entry => (fst entry, score (snd entry)))
    (tagScores AggregatorExample.bank AggregatorExample.likertAnswers []
       AggregatorExample.rankAll)
  = [ ("debate"%string, Fin 1); ("lab"%string, NaN); ("stage"%string, Fin (4 # 2)) ] ∧
  ¬ sortedDescending
      (tagScoreColumn
         (tagScores AggregatorExample.bank AggregatorExample.likertAnswers []
            AggregatorExample.rankAll)).
Proof.
  split; [reflexivity|]. intros Hsorted.
  specialize (Hsorted 0%nat 2%nat (Fin 1) (Fin (4 # 2))).
  assert (Hgeb : geb (Fin 1) (Fin (4 # 2)) = true).
  { apply Hsorted; [lia|reflexivity|reflexivity]. }
  discriminate Hgeb.
Qed.


(** *** What holds of the tag scores on every input *)

Lemma fold_left_preserves {A S : Type} (P : S → Prop) (f : S → A → S)
    (l : list A) (s : S) :
  (∀ s a, P s → P (f s a)) → P s → P (fold_left f l s).
Proof.
  intros Hf. revert s. induction l as [|a l IH]; intros s Hs; simpl; [done|].
  apply IH. by apply Hf.
Qed.

(** Whatever [addTagScore] preserves holds of the tag map. *)
Lemma tagEntries_preserves (P : list (string * TagEntry) → Prop)
    (questionBank : QuestionBank)
    (likertAnswers : list (string * LikertAnswerState))
    (forcedAnswers : list (string * ForcedAnswerState))
    (scenarioAnswers : list (string * ScenarioAnswerState)) :
  P [] →
  (∀ key value questionId scores,
     P scores → P (addTagScore key value questionId scores)) →
  P (tagEntries questionBank likertAnswers forcedAnswers scenarioAnswers).
Proof.
  intros Hnil Hadd. unfold tagEntries.
  apply fold_left_preserves.
  { intros scores [id answer] Hs. unfold tagScenario.
    destruct (findScenario questionBank id) as [question|]; [|done].
    unfold forEachIndexed. apply fold_left_preserves; [|done].
    intros scores' [index optionKey] Hs'.
    destruct (findOption (sq_options question) optionKey) as [option|]; [|done].
    apply fold_left_preserves; [|done]. intros; by apply Hadd. }
  apply fold_left_preserves.
  { intros scores [id answer] Hs. unfold tagForced.
    destruct (String.eqb (fa_optionKey answer) "SKIP"); [done|].
    destruct (findForced questionBank (questionIdOf id)) as [question|]; [|done].
    destruct (findOption (fq_options question) (fa_optionKey answer)) as [option|];
      [|done].
    apply fold_left_preserves; [|done]. intros; by apply Hadd. }
  apply fold_left_preserves; [|done].
  intros scores [id answer] Hs. unfold tagLikert.
  destruct (findLikert questionBank id) as [question|]; [|done].
  apply fold_left_preserves; [|done]. intros; by apply Hadd.
Qed.

Lemma assoc_get_Some_In {V : Type} (key : string) (value : V) (m : list (string * V)) :
  assoc_get key m = Some value → In (key, value) m.
Proof.
  induction m as [|[k v] rest IH]; simpl; [done|].
  destruct (String.eqb_spec k key) as [->|Hne].
  - intros [= ->]. by left.
  - intros H. right. by apply IH.
Qed.

Lemma includes_false (l : list string) (a : string) : includes l a = false → ¬ In a l.
Proof.
  intros Hf Hin. apply CooccurrenceFacts.includes_In in Hin. congruence.
Qed.

(** How one call changes the entry it addresses: the value is added, and
    the question id is appended unless it is already recorded. *)
Lemma addTagScore_entry (key : string) (value : num) (questionId : string)
    (scores : list (string * TagEntry)) :
  let before := default {| score := Fin 0; questions := [] |} (assoc_get key scores) in
  assoc_get key (addTagScore key value questionId scores) =
  Some {| score := add (score before) value;
          questions := if includes (questions before) questionId
                       then questions before
                       else questions before ++ [questionId] |}.
Proof. unfold addTagScore. apply assoc_get_set_eq. Qed.

Lemma addTagScore_other (key key' : string) (value : num) (questionId : string)
    (scores : list (string * TagEntry)) :
  key ≠ key' →
  assoc_get key' (addTagScore key value questionId scores) = assoc_get key' scores.
Proof. intros Hne. unfold addTagScore. by apply assoc_get_set_ne. Qed.

Lemma tagEntries_keys_NoDup (questionBank : QuestionBank)
    (likertAnswers : list (string * LikertAnswerState))
    (forcedAnswers : list (string * ForcedAnswerState))
    (scenarioAnswers : list (string * ScenarioAnswerState)) :
  List.NoDup
    (List.map fst (tagEntries questionBank likertAnswers forcedAnswers scenarioAnswers)).
Proof.
  apply (tagEntries_preserves (fun scores => List.NoDup (List.map fst scores)));
    [constructor|].
  intros key value questionId scores Hnd. unfold addTagScore.
  by apply assoc_set_NoDup.
Qed.

Lemma tagEntries_questions_NoDup (questionBank : QuestionBank)
    (likertAnswers : list (string * LikertAnswerState))
    (forcedAnswers : list (string * ForcedAnswerState))
    (scenarioAnswers : list (string * ScenarioAnswerState)) :
  ∀ key entry,
    In (key, entry)
       (tagEntries questionBank likertAnswers forcedAnswers scenarioAnswers) →
    List.NoDup (questions entry).
Proof.
  apply (tagEntries_preserves
           (fun scores => ∀ key entry, In (key, entry) scores →
                                       List.NoDup (questions entry))).
  { intros key entry []. }
  intros key value questionId scores Hinv k entry Hin.
  unfold addTagScore in Hin.
  apply assoc_set_In in Hin as [[-> ->]|Hin]; [|by eapply Hinv]. simpl.
  assert (Hold : List.NoDup
                   (questions (default {| score := Fin 0; questions := [] |}
                                       (assoc_get key scores)))).
  { destruct (assoc_get key scores) as [old|] eqn:E; simpl; [|constructor].
    apply (Hinv key). by apply assoc_get_Some_In. }
  destruct (includes _ questionId) eqn:Hinc; [done|].
  apply includes_false in Hinc.
  apply NoDup_ListNoDup, NoDup_app. apply NoDup_ListNoDup in Hold.
  split; [done|]. split; [|apply NoDup_singleton].
  intros q Hq Hq'. apply list_elem_of_singleton in Hq' as ->.
  by apply list_elem_of_In in Hq.
Qed.


Lemma StronglySorted_lookup {A : Type} (R : A → A → Prop) (l : list A)
    (i j : nat) (a b : A) :
  StronglySorted R l → (i < j)%nat → l !! i = Some a → l !! j = Some b → R a b.
Proof.
  intros Hsorted. revert i j. induction Hsorted as [|x l Hsorted IH Hall];
    intros i j Hij Hi Hj; [done|].
  destruct j as [|j]; [lia|]. simpl in Hj.
  destruct i as [|i]; simpl in Hi.
  - injection Hi as <-. apply (proj1 (List.Forall_forall _ _) Hall).
    apply list_elem_of_In. by eapply list_elem_of_lookup_2.
  - apply (IH i j); [lia|done|done].
Qed.

Lemma byTagScoreDesc_finite (a b : string * TagEntry) :
  isFinite (score (snd a)) = true → isFinite (score (snd b)) = true →
  byTagScoreDesc a b ==
    sortOrder (score (snd b)) - sortOrder (score (snd a)).
Proof.
  unfold byTagScoreDesc.
  destruct (score (snd a)), (score (snd b)); simpl; done.
Qed.

(** X29.  The tag list on every input: at most ten entries, the first ten of
    the sorted tag map; distinct tags, each with distinct question ids; no
    tag that the sort placed beyond the tenth position; and descending
    order whenever no accumulated score is NaN. *)
Lemma tagScores_always (questionBank : QuestionBank)
    (likertAnswers : list (string * LikertAnswerState))
    (forcedAnswers : list (string * ForcedAnswerState))
    (scenarioAnswers : list (string * ScenarioAnswerState)) :
  let entries := tagEntries questionBank likertAnswers forcedAnswers scenarioAnswers in
  let ranked := js_sort byTagScoreDesc entries in
  let output := tagScores questionBank likertAnswers forcedAnswers scenarioAnswers in
  (length output <= 10)%nat ∧
  Permutation entries ranked ∧
  output = take 10 ranked ∧
  List.NoDup (List.map fst output) ∧
  (∀ key entry, In (key, entry) output → List.NoDup (questions entry)) ∧
  (∀ i entry, (10 <= i)%nat → ranked !! i = Some entry →
              ¬ In (fst entry) (List.map fst output)) ∧
  (Forall (fun entry => isFinite (score (snd entry)) = true) entries →
   sortedDescending (tagScoreColumn output)).
Proof.
  intros entries ranked output.
  assert (Hperm : Permutation entries ranked) by apply js_sort_perm.
  assert (Hout : output = take 10 ranked) by done.
  assert (Hsplit : ranked = output ++ drop 10 ranked)
    by (rewrite Hout; symmetry; apply take_drop).
  assert (Hkeys : List.NoDup (List.map fst ranked)).
  { eapply Permutation_NoDup; [apply Permutation_map; exact Hperm|].
    apply tagEntries_keys_NoDup. }
  assert (Hkeys' := Hkeys). rewrite Hsplit, List.map_app in Hkeys'.
  apply NoDup_ListNoDup, NoDup_app in Hkeys' as (Hnd & Hdisj & _).
  split; [rewrite Hout, length_take; lia|].
  split; [done|]. split; [done|].
  split; [by apply NoDup_ListNoDup|].
  split.
  { intros key entry Hin.
    apply (tagEntries_questions_NoDup questionBank likertAnswers forcedAnswers
             scenarioAnswers key).
    apply (Permutation_in _ (Permutation_sym Hperm)).
    rewrite Hsplit. apply in_or_app. by left. }
  split.
  { intros i entry Hi Hlook Hin.
    apply (Hdisj (fst entry)); [by apply list_elem_of_In|].
    apply list_elem_of_In, in_map.
    apply list_elem_of_In. apply (list_elem_of_lookup_2 _ (i - 10)%nat).
    rewrite lookup_drop. by replace (10 + (i - 10))%nat with i by lia. }
  intros Hfinite i j a b Hij Ha Hb.
  unfold tagScoreColumn in Ha, Hb.
  change (List.map ?f ?l) with (f <$> l) in Ha, Hb.
  rewrite list_lookup_fmap in Ha, Hb.
  destruct (output !! i) as [ea|] eqn:Hea; [|done].
  destruct (output !! j) as [eb|] eqn:Heb; [|done].
  simpl in Ha, Hb. injection Ha as <-. injection Hb as <-.
  rewrite Hout in Hea, Heb.
  apply lookup_take_Some in Hea as [Hea _]. apply lookup_take_Some in Heb as [Heb _].
  pose proof (js_sort_descending byTagScoreDesc
                (fun entry => sortOrder (score (snd entry)))
                (fun entry => isFinite (score (snd entry)) = true)
                entries byTagScoreDesc_finite Hfinite) as Hsorted.
  pose proof (StronglySorted_lookup _ _ i j ea eb Hsorted Hij Hea Heb) as Hle.
  simpl in Hle.
  assert (Hfa : isFinite (score (snd ea)) = true).
  { apply (proj1 (List.Forall_forall _ _) Hfinite).
    apply (Permutation_in _ (Permutation_sym Hperm)).
    apply list_elem_of_In. by eapply list_elem_of_lookup_2. }
  assert (Hfb : isFinite (score (snd eb)) = true).
  { apply (proj1 (List.Forall_forall _ _) Hfinite).
    apply (Permutation_in _ (Permutation_sym Hperm)).
    apply list_elem_of_In. by eapply list_elem_of_lookup_2. }
  destruct (score (snd ea)), (score (snd eb)); simpl in *; try done.
  by apply Qle_bool_iff.
Qed.


(** *** The fourth rank on every input *)

Lemma fold_left_reaches {A S : Type} (P : S → Prop) (f : S → A → S)
    (l : list A) (s : S) (a : A) :
  In a l → (∀ s, P (f s a)) → (∀ s b, P s → P (f s b)) → P (fold_left f l s).
Proof.
  intros Hin Hset Hkeep. apply in_split in Hin as (l1 & l2 & ->).
  rewrite fold_left_app. simpl. by apply fold_left_preserves.
Qed.

Lemma forEachIndexed_reaches {St : Type} (P : St → Prop)
    (body : St → string → nat → St)
    (rankedOptions : list string) (s : St) (index : nat) (optionKey : string) :
  rankedOptions !! index = Some optionKey →
  (∀ s, P (body s optionKey index)) →
  (∀ s key i, P s → P (body s key i)) →
  P (forEachIndexed body rankedOptions s).
Proof.
  intros Hlook Hset Hkeep. unfold forEachIndexed.
  assert (Hgen : ∀ start s,
            (∀ s, P (body s optionKey (start + index)%nat)) →
            P (fold_left (fun s '(index, optionKey) => body s optionKey index)
                 (combine (seq start (length rankedOptions)) rankedOptions) s)).
  { clear Hset s. revert index Hlook.
    induction rankedOptions as [|key rest IH]; intros index Hlook start s Hset; [done|].
    destruct index as [|index]; simpl in *.
    - injection Hlook as ->. rewrite Nat.add_0_r in Hset.
      apply fold_left_preserves; [|done]. intros s' [i k] Hs'. by apply Hkeep.
    - apply (IH index Hlook (S start)). intros s'.
      replace (S start + index)%nat with (start + S index)%nat by lia. done. }
  by apply Hgen.
Qed.

(** Whatever [addScore] preserves is preserved by each of the three walks
    of [categoryScore]. *)
Lemma category_walks_preserve (P : list (string * num) → Prop)
    (questionBank : QuestionBank) :
  (∀ key value scores, P scores → P (addScore key value scores)) →
  (∀ scores entry, P scores → P (categoryLikert questionBank scores entry)) ∧
  (∀ scores entry, P scores → P (categoryForced questionBank scores entry)) ∧
  (∀ scores entry, P scores → P (categoryScenario questionBank scores entry)).
Proof.
  intros Hadd. split; [|split]; intros scores [id answer] Hs.
  - unfold categoryLikert.
    destruct (findLikert questionBank id) as [question|]; [|done].
    apply fold_left_preserves; [intros; by apply Hadd|by apply Hadd].
  - unfold categoryForced.
    destruct (String.eqb (fa_optionKey answer) "SKIP"); [done|].
    destruct (findForced questionBank (questionIdOf id)) as [question|]; [|done].
    destruct (findOption (fq_options question) (fa_optionKey answer)) as [option|];
      [|done].
    apply fold_left_preserves; [intros; by apply Hadd|by apply Hadd].
  - unfold categoryScenario.
    destruct (findScenario questionBank id) as [question|]; [|done].
    unfold forEachIndexed. apply fold_left_preserves; [|done].
    intros scores' [index optionKey] Hs'.
    destruct (findOption (sq_options question) optionKey) as [option|]; [|done].
    apply fold_left_preserves; [intros; by apply Hadd|by apply Hadd].
Qed.

Lemma assoc_get_Permutation {V : Type} (key : string) (m m' : list (string * V)) :
  List.NoDup (List.map fst m) → Permutation m m' →
  assoc_get key m' = assoc_get key m.
Proof.
  intros Hnd Hperm.
  assert (Hnd' : List.NoDup (List.map fst m')).
  { eapply Permutation_NoDup; [apply Permutation_map; exact Hperm|done]. }
  destruct (assoc_get key m) as [v|] eqn:E.
  - apply assoc_get_In; [done|]. apply (Permutation_in _ Hperm).
    by apply assoc_get_In.
  - apply assoc_get_None. apply assoc_get_None in E. intros Hin. apply E.
    apply (Permutation_in _ (Permutation_sym (Permutation_map fst Hperm))). done.
Qed.

(** X30.  Whenever a scenario answer ranks an option of its question at position
    3 or beyond, the category score of that option's primary category is
    NaN. *)
Lemma categoryScore_beyond_third (questionBank : QuestionBank)
    (likertAnswers : list (string * LikertAnswerState))
    (forcedAnswers : list (string * ForcedAnswerState))
    (scenarioAnswers : list (string * ScenarioAnswerState))
    (id : string) (answer : ScenarioAnswerState) (question : ScenarioQuestion)
    (index : nat) (optionKey : string) (option : ChoiceOption) :
  In (id, answer) scenarioAnswers →
  findScenario questionBank id = Some question →
  sa_rankedOptions answer !! index = Some optionKey →
  (3 <= index)%nat →
  findOption (sq_options question) optionKey = Some option →
  assoc_get (wc_category (o_primary option))
    (categoryScore questionBank likertAnswers forcedAnswers scenarioAnswers)
  = Some NaN.
Proof.
  intros Hin Hquestion Hrank Hindex Hoption. unfold categoryScore.
  set (category := wc_category (o_primary option)).
  destruct (category_walks_preserve
              (fun scores => assoc_get category scores = Some NaN) questionBank)
    as (_ & _ & Hkeep); [intros; by apply addScore_NaN_stays|].
  destruct (category_walks_preserve
              (fun scores => List.NoDup (List.map fst scores)) questionBank)
    as (HndL & HndF & HndS); [intros; by apply assoc_set_NoDup|].
  set (noDup := fun scores : list (string * num) => List.NoDup (List.map fst scores)).
  assert (Hnd : noDup
            (fold_left (categoryScenario questionBank) scenarioAnswers
               (fold_left (categoryForced questionBank) forcedAnswers
                  (fold_left (categoryLikert questionBank) likertAnswers [])))).
  { apply (fold_left_preserves noDup); [exact HndS|].
    apply (fold_left_preserves noDup); [exact HndF|].
    apply (fold_left_preserves noDup); [exact HndL|constructor]. }
  rewrite (assoc_get_Permutation _ _ _ Hnd (js_sort_perm byScoreDesc _)).
  set (isNaN := fun scores : list (string * num) => assoc_get category scores = Some NaN).
  apply (fold_left_reaches isNaN _ _ _ (id, answer) Hin); [|exact Hkeep].
  intros scores. unfold categoryScenario. rewrite Hquestion.
  apply (forEachIndexed_reaches isNaN _ _ _ index optionKey Hrank).
  - intros scores'. rewrite Hoption.
    apply (fold_left_preserves isNaN); [intros; by apply addScore_NaN_stays|].
    rewrite contribution_beyond by done. apply addScore_NaN.
  - intros scores' key i Hs.
    destruct (findOption (sq_options question) key) as [other|]; [|done].
    apply (fold_left_preserves isNaN); intros; by apply addScore_NaN_stays.
Qed.

End ScoreFacts.

(** ** Weight applier *)

Module WeightApplierFacts.
Import ScoreOptimizer WeightApplier.

Lemma FirstOrDefault_found (predicate : JsonNode → result bool)
    (nodes : list JsonNode) (start i : nat) (node : JsonNode) :
  FirstOrDefault predicate nodes start = Ok (Some (i, node)) →
  (start <= i)%nat ∧ nodes !! (i - start)%nat = Some node ∧ predicate node = Ok true.
Proof.
  revert start. induction nodes as [|n rest IH]; intros start; simpl; [done|].
  destruct (predicate n) as [[|]|] eqn:Hp; simpl; [| |done].
  - intros [= <- <-]. rewrite Nat.sub_diag. done.
  - intros Hrest. destruct (IH _ Hrest) as (Hle & Hlook & Hpred).
    split; [lia|]. split; [|done].
    replace (i - start)%nat with (S (i - S start)) by lia. done.
Qed.

(** What a located target is: the first item with the wanted id, the first
    of its options with the wanted key, and that option's [primary]. *)
Lemma locate_sound (itemsArray : list JsonNode) (summary : ItemSummary) (t : Target) :
  locate itemsArray summary = Ok (Some t) →
  ∃ itemId optionKey,
    split "|" (is_ItemId summary) = [itemId; optionKey] ∧
    itemsArray !! itemIndex t = Some (itemNode t) ∧
    hasString "id" itemId (itemNode t) = Ok true ∧
    getProperty (itemNode t) "options" = Ok (JsonArray (optionsArray t)) ∧
    optionsArray t !! optionIndex t = Some (optionNode t) ∧
    hasString "key" optionKey (optionNode t) = Ok true ∧
    getProperty (optionNode t) "primary" = Ok (JsonObject (primary t)).
Proof.
  unfold locate.
  destruct (split "|" (is_ItemId summary)) as [|itemId [|optionKey [|? ?]]]; try done.
  destruct (FirstOrDefault (hasString "id" itemId) itemsArray 0)
    as [[[i item]|]|] eqn:Hitem; simpl; try done.
  destruct (getProperty item "options") as [[| | | |options|]|] eqn:Hopts; simpl; try done.
  destruct (FirstOrDefault (hasString "key" optionKey) options 0)
    as [[[j opt]|]|] eqn:Hopt; simpl; try done.
  destruct (getProperty opt "primary") as [[| | | | |prim]|] eqn:Hprim; simpl; try done.
  intros [= <-]. simpl.
  apply FirstOrDefault_found in Hitem as (_ & Hi & Hid).
  apply FirstOrDefault_found in Hopt as (_ & Hj & Hkey).
  rewrite Nat.sub_0_r in Hi, Hj.
  exists itemId, optionKey. done.
Qed.

Lemma applySummary_within (tolerance : Q) (itemsArray : list JsonNode) (updated : Z)
    (summary : ItemSummary) (t : Target) (currentWeight : Q) :
  locate itemsArray summary = Ok (Some t) →
  currentWeightOf (primary t) = Ok currentWeight →
  Qabs (currentWeight - is_RecommendedWeight summary) < tolerance →
  applySummary tolerance (itemsArray, updated) summary = Ok (itemsArray, updated).
Proof.
  intros Hloc Hcur Hlt. unfold applySummary. rewrite Hloc. simpl. rewrite Hcur. simpl.
  destruct (Qlt_le_dec _ tolerance) as [_|Hle]; [done|].
  exfalso. exact (Qlt_not_le _ _ Hlt Hle).
Qed.

Lemma applySummary_beyond (tolerance : Q) (itemsArray : list JsonNode) (updated : Z)
    (summary : ItemSummary) (t : Target) (currentWeight : Q) :
  locate itemsArray summary = Ok (Some t) →
  currentWeightOf (primary t) = Ok currentWeight →
  tolerance <= Qabs (currentWeight - is_RecommendedWeight summary) →
  applySummary tolerance (itemsArray, updated) summary =
    Ok (writeWeight itemsArray t (is_RecommendedWeight summary), (updated + 1)%Z).
Proof.
  intros Hloc Hcur Hle. unfold applySummary. rewrite Hloc. simpl. rewrite Hcur. simpl.
  destruct (Qlt_le_dec _ tolerance) as [Hlt|_]; [|done].
  exfalso. exact (Qlt_not_le _ _ Hlt Hle).
Qed.

Lemma assoc_set_same {V : Type} (key : string) (value : V) (m : list (string * V)) :
  assoc_get key m = Some value → assoc_set key value m = m.
Proof.
  induction m as [|[k v] rest IH]; simpl; [done|].
  destruct (String.eqb k key); [by intros [= ->]|].
  intros H. by rewrite IH.
Qed.

(** A run in which every summary is within tolerance of the weight it
    targets (or targets nothing) rewrites the document unchanged and
    reports no update. *)
Lemma ApplyToFile_all_within (tolerance : Q) (properties : list (string * JsonNode))
    (itemsArray : list JsonNode) (summaries : list ItemSummary) :
  assoc_get "items" properties = Some (JsonArray itemsArray) →
  Forall (fun summary =>
            locate itemsArray summary = Ok None ∨
            ∃ t currentWeight,
              locate itemsArray summary = Ok (Some t) ∧
              currentWeightOf (primary t) = Ok currentWeight ∧
              Qabs (currentWeight - is_RecommendedWeight summary) < tolerance)
         summaries →
  ApplyToFile (Some (JsonObject properties)) summaries tolerance =
    Ok (Some (JsonObject properties), 0%Z).
Proof.
  intros Hitems Hall. unfold ApplyToFile. simpl. rewrite Hitems. simpl.
  assert (Hrun : applyAll tolerance (itemsArray, 0%Z) summaries = Ok (itemsArray, 0%Z)).
  { induction Hall as [|summary rest Hs _ IH]; [done|]. cbn [applyAll].
    assert (Hstep : applySummary tolerance (itemsArray, 0%Z) summary = Ok (itemsArray, 0%Z)).
    { destruct Hs as [Hnone|(t & w & Hloc & Hcur & Hlt)].
      - unfold applySummary. by rewrite Hnone.
      - by eapply applySummary_within. }
    rewrite Hstep. unfold bind. exact IH. }
  rewrite Hrun. simpl. by rewrite (assoc_set_same _ _ _ Hitems).
Qed.

(** C7.  A summary whose recommendation is closer than the tolerance to the
    primary weight of the option it targets leaves the catalog as it is and
    is not counted.  With the default tolerance 0.05 and a current weight
    1.0, a recommendation of 1.03 updates nothing, and a recommendation of
    1.10 is written and counted once. *)
Theorem tolerance_gating :
  (∀ (tolerance : Q) (itemsArray : list JsonNode) (updated : Z)
     (summary : ItemSummary) (t : Target) (currentWeight : Q),
     locate itemsArray summary = Ok (Some t) →
     currentWeightOf (primary t) = Ok currentWeight →
     Qabs (currentWeight - is_RecommendedWeight summary) < tolerance →
     applySummary tolerance (itemsArray, updated) summary = Ok (itemsArray, updated)) ∧
  ApplyToFile (Some (WeightApplierExample.catalog 1))
    [WeightApplierExample.recommend "FC-01|A" (103 # 100)] defaultTolerance
    = Ok (Some (WeightApplierExample.catalog 1), 0%Z) ∧
  ApplyToFile (Some (WeightApplierExample.catalog 1))
    [WeightApplierExample.recommend "FC-01|A" (110 # 100)] defaultTolerance
    = Ok (Some (WeightApplierExample.catalog (110 # 100)), 1%Z).
Proof.
  split; [|split].
  - intros. by eapply applySummary_within.
  - reflexivity.
  - reflexivity.
Qed.

Lemma tolerance_gating_witness :
  applySummary defaultTolerance (WeightApplierExample.itemsOf 1, 7%Z)
    (WeightApplierExample.recommend "FC-01|A" (103 # 100))
  = Ok (WeightApplierExample.itemsOf 1, 7%Z).
Proof.
  eapply (proj1 tolerance_gating); [reflexivity|reflexivity|reflexivity].
Defined.

End WeightApplierFacts.

(** ** Scenario step *)

Module ScenarioStepFacts.
Import ScenarioStep.

(** Both directions exchange two neighbours: moving the element in front
    of [b] down, or [b] up. *)
Lemma moveOption_down_swap {A : Type} (undefined : A) (before : list A) (a b : A)
    (after : list A) :
  moveOption undefined (length before) down (before ++ a :: b :: after)
  = before ++ b :: a :: after.
Proof.
  unfold moveOption.
  assert (Hlen : length (before ++ a :: b :: after) = (length before + 2 + length after)%nat).
  { rewrite length_app. simpl. lia. }
  rewrite Hlen.
  destruct (Z.ltb_spec (Z.of_nat (length before) + 1) 0); [lia|].
  destruct (Z.leb_spec (Z.of_nat (length before + 2 + length after))
              (Z.of_nat (length before) + 1)); [lia|].
  cbn [orb].
  replace (Z.to_nat (Z.of_nat (length before) + 1)) with (S (length before)) by lia.
  clear. induction before as [|x before IH]; [done|].
  cbn. by rewrite IH.
Qed.

Lemma moveOption_up_swap {A : Type} (undefined : A) (before : list A) (a b : A)
    (after : list A) :
  moveOption undefined (S (length before)) up (before ++ a :: b :: after)
  = before ++ b :: a :: after.
Proof.
  unfold moveOption.
  assert (Hlen : length (before ++ a :: b :: after) = (length before + 2 + length after)%nat).
  { rewrite length_app. simpl. lia. }
  rewrite Hlen.
  destruct (Z.ltb_spec (Z.of_nat (S (length before)) - 1) 0); [lia|].
  destruct (Z.leb_spec (Z.of_nat (length before + 2 + length after))
              (Z.of_nat (S (length before)) - 1)); [lia|].
  cbn [orb].
  replace (Z.to_nat (Z.of_nat (S (length before)) - 1)) with (length before) by lia.
  clear. induction before as [|x before IH]; [done|].
  cbn. cbn in IH. by rewrite IH.
Qed.

Lemma split_at_neighbours {A : Type} (l : list A) (i : nat) :
  (S i < length l)%nat →
  ∃ before a b after, l = before ++ a :: b :: after ∧ length before = i.
Proof.
  intros Hlt.
  destruct (lookup_lt_is_Some_2 l i) as [a Ha]; [lia|].
  destruct (lookup_lt_is_Some_2 l (S i)) as [b Hb]; [lia|].
  exists (take i l), a, b, (drop (S (S i)) l). split.
  - rewrite <- (take_drop i l) at 1. f_equal.
    rewrite (drop_S l a i Ha). f_equal. by rewrite (drop_S l b (S i) Hb).
  - rewrite length_take. lia.
Qed.


Lemma swap_lookup {A : Type} (before : list A) (a b : A) (after : list A) (j : nat) :
  (before ++ b :: a :: after) !! j =
  (before ++ a :: b :: after) !! exchanged (length before) (S (length before)) j.
Proof.
  unfold exchanged.
  destruct (Nat.eqb_spec j (length before)) as [->|Hne].
  - rewrite !lookup_app_r by lia.
    replace (S (length before) - length before)%nat with 1%nat by lia.
    rewrite Nat.sub_diag. done.
  - destruct (Nat.eqb_spec j (S (length before))) as [->|Hne'].
    + rewrite !lookup_app_r by lia.
      replace (S (length before) - length before)%nat with 1%nat by lia.
      rewrite Nat.sub_diag. done.
    + destruct (Nat.lt_ge_cases j (length before)).
      * by rewrite !lookup_app_l by lia.
      * rewrite !lookup_app_r by lia.
        destruct (j - length before)%nat as [|[|k]] eqn:E; [lia|lia|done].
Qed.

(** The three cases of a move on a list with an element at [index]. *)
Lemma moveOption_cases {A : Type} (undefined : A) (index : nat) (direction : Direction)
    (l : list A) :
  (index < length l)%nat →
  (neighbour index direction (length l) = index ∧
   moveOption undefined index direction l = l) ∨
  (∃ before a b after,
     l = before ++ a :: b :: after ∧
     moveOption undefined index direction l = before ++ b :: a :: after ∧
     ((index = length before ∧ neighbour index direction (length l) = S (length before)) ∨
      (index = S (length before) ∧ neighbour index direction (length l) = length before))).
Proof.
  intros Hlt. destruct direction.
  - destruct index as [|i].
    + left. split; [done|]. unfold moveOption. simpl.
      destruct (length l); done.
    + right. destruct (split_at_neighbours l i Hlt) as (before & a & b & after & -> & <-).
      exists before, a, b, after. split; [done|].
      split; [apply moveOption_up_swap|]. right. done.
  - destruct (Nat.ltb_spec (S index) (length l)) as [Hin|Hout].
    + right. destruct (split_at_neighbours l index Hin) as (before & a & b & after & -> & <-).
      exists before, a, b, after. split; [done|].
      split; [apply moveOption_down_swap|]. left. split; [done|].
      unfold neighbour. destruct (Nat.ltb_spec (S (length before))
                                    (length (before ++ a :: b :: after))); [done|lia].
    + left. unfold neighbour.
      destruct (Nat.ltb_spec (S index) (length l)); [lia|]. split; [done|].
      unfold moveOption.
      destruct (Z.leb_spec (Z.of_nat (length l)) (Z.of_nat index + 1)); [|lia].
      by rewrite orb_true_r.
Qed.

(** X1.  A move exchanges the element at [index] with its neighbour and
    touches nothing else; at the end of the list it does nothing.  The
    result is a reordering of the list. *)
Theorem moveOption_exchanges_neighbours {A : Type} (undefined : A) (index : nat)
    (direction : Direction) (rankedOptions : list A) :
  (index < length rankedOptions)%nat →
  let moved := moveOption undefined index direction rankedOptions in
  (∀ j, moved !! j =
        rankedOptions !! exchanged index
                           (neighbour index direction (length rankedOptions)) j) ∧
  Permutation rankedOptions moved ∧
  length moved = length rankedOptions.
Proof.
  intros Hlt moved. subst moved.
  destruct (moveOption_cases undefined index direction rankedOptions Hlt)
    as [[Hnb ->]|(before & a & b & after & Hl & Hmoved & Hpos)].
  - rewrite Hnb. split; [|done]. intros j. unfold exchanged.
    destruct (Nat.eqb_spec j index) as [->|]; done.
  - rewrite Hmoved. split; [|split].
    + intros j. rewrite swap_lookup, <- Hl.
      destruct Hpos as [[-> ->]|[-> ->]]; [done|].
      f_equal. unfold exchanged.
      destruct (Nat.eqb_spec j (length before));
        destruct (Nat.eqb_spec j (S (length before))); try done; lia.
    + rewrite Hl. apply Permutation_app_head, perm_swap.
    + rewrite Hl, !length_app. done.
Qed.

Lemma moveOption_exchanges_neighbours_witness :
  moveOption "?"%string 1 down ["A"; "B"; "C"; "D"]%string !! 2%nat = Some "B"%string ∧
  moveOption "?"%string 1 down ["A"; "B"; "C"; "D"]%string !! 1%nat = Some "C"%string.
Proof.
  destruct (moveOption_exchanges_neighbours "?"%string 1 down
              ["A"; "B"; "C"; "D"]%string) as (Hlook & _ & _); [simpl; lia|].
  split; [exact (Hlook 2%nat)|exact (Hlook 1%nat)].
Defined.

(** X2.  Moving an option down and then moving it back up restores the
    ranking, and so does up followed by down. *)
Theorem moveOption_round_trip {A : Type} (undefined : A) (index : nat)
    (rankedOptions : list A) :
  (S index < length rankedOptions)%nat →
  moveOption undefined (S index) up (moveOption undefined index down rankedOptions)
    = rankedOptions ∧
  moveOption undefined index down (moveOption undefined (S index) up rankedOptions)
    = rankedOptions.
Proof.
  intros Hlt.
  destruct (split_at_neighbours rankedOptions index Hlt)
    as (before & a & b & after & -> & <-).
  rewrite moveOption_down_swap, !moveOption_up_swap, moveOption_down_swap. done.
Qed.

Lemma moveOption_round_trip_witness :
  moveOption "?"%string 3 up (moveOption "?"%string 2 down ["A"; "B"; "C"; "D"]%string)
  = ["A"; "B"; "C"; "D"]%string.
Proof.
  apply (moveOption_round_trip "?"%string 2 ["A"; "B"; "C"; "D"]%string). simpl. lia.
Defined.


(** *** Restoring a stored ranking *)

Lemma StronglySorted_Permutation_eq {A : Type} (R : A → A → Prop) (l1 l2 : list A) :
  StronglySorted R l1 → StronglySorted R l2 → Permutation l1 l2 →
  (∀ a b, In a l1 → In b l1 → R a b → R b a → a = b) →
  l1 = l2.
Proof.
  intros H1. revert l2. induction H1 as [|x l1 H1 IH Hx]; intros l2 H2 Hperm Hanti.
  - by apply Permutation_nil in Hperm.
  - destruct H2 as [|y l2 H2 Hy].
    { apply Permutation_sym, Permutation_nil in Hperm. done. }
    assert (Hxy : x = y).
    { assert (Hxin : In x (y :: l2)) by (apply (Permutation_in _ Hperm); by left).
      assert (Hyin : In y (x :: l1))
        by (apply (Permutation_in _ (Permutation_sym Hperm)); by left).
      destruct Hxin as [->|Hxin]; [done|]. destruct Hyin as [->|Hyin]; [done|].
      apply Hanti; [by left|by right| |].
      - by apply (proj1 (List.Forall_forall _ _) Hx).
      - by apply (proj1 (List.Forall_forall _ _) Hy). }
    subst y. f_equal. apply IH; [done|by eapply Permutation_cons_inv|].
    intros a b Ha Hb. apply Hanti; by right.
Qed.

Lemma StronglySorted_impl_In {A : Type} (R R' : A → A → Prop) (l : list A) :
  StronglySorted R l →
  (∀ a b, In a l → In b l → R a b → R' a b) →
  StronglySorted R' l.
Proof.
  intros H. induction H as [|x l H IH Hx]; intros Himpl; [constructor|].
  constructor.
  - apply IH. intros a b Ha Hb. apply Himpl; by right.
  - apply List.Forall_forall. intros b Hb. apply Himpl; [by left|by right|].
    by apply (proj1 (List.Forall_forall _ _) Hx).
Qed.

Lemma indexOf_In (l : list string) (k : string) : In k l → (0 <= indexOf l k)%Z.
Proof.
  induction l as [|y rest IH]; simpl; [done|].
  destruct (String.eqb_spec y k) as [->|Hne]; [lia|].
  intros [?|Hin]; [done|]. specialize (IH Hin).
  destruct (Z.ltb_spec (indexOf rest k) 0); lia.
Qed.

Lemma indexOf_lookup (l : list string) (k : string) :
  (0 <= indexOf l k)%Z → l !! Z.to_nat (indexOf l k) = Some k.
Proof.
  induction l as [|y rest IH]; simpl; [lia|].
  destruct (String.eqb_spec y k) as [->|Hne]; [done|].
  destruct (Z.ltb_spec (indexOf rest k) 0) as [Hneg|Hpos]; [lia|]. intros _.
  replace (Z.to_nat (indexOf rest k + 1)) with (S (Z.to_nat (indexOf rest k))) by lia.
  by apply IH.
Qed.

Lemma key_injective_on (l : list ChoiceOption) (a b : ChoiceOption) :
  List.NoDup (List.map o_key l) → In a l → In b l → o_key a = o_key b → a = b.
Proof.
  induction l as [|x l IH]; simpl; [done|]. intros Hnd Ha Hb Hkey.
  apply List.NoDup_cons_iff in Hnd as [Hnotin Hnd].
  destruct Ha as [->|Ha], Hb as [->|Hb]; [done| | |by apply IH].
  - exfalso. apply Hnotin. rewrite Hkey. by apply in_map.
  - exfalso. apply Hnotin. rewrite <- Hkey. by apply in_map.
Qed.

(** A list of options with distinct keys is in the order of the positions
    of its own keys. *)
Lemma ranked_by_own_keys (l : list ChoiceOption) :
  List.NoDup (List.map o_key l) →
  StronglySorted
    (fun a b => (indexOf (List.map o_key l) (o_key a)
                 <= indexOf (List.map o_key l) (o_key b))%Z) l.
Proof.
  induction l as [|x l IH]; intros Hnd; [constructor|].
  apply List.NoDup_cons_iff in Hnd as [Hnotin Hnd]. specialize (IH Hnd).
  assert (Htail : ∀ y, In y l →
            indexOf (List.map o_key (x :: l)) (o_key y)
            = (indexOf (List.map o_key l) (o_key y) + 1)%Z ∧
            (0 <= indexOf (List.map o_key l) (o_key y))%Z).
  { intros y Hy. simpl.
    destruct (String.eqb_spec (o_key x) (o_key y)) as [Heq|Hne].
    - exfalso. apply Hnotin. rewrite Heq. by apply in_map.
    - pose proof (indexOf_In (List.map o_key l) (o_key y) (in_map o_key _ _ Hy)).
      destruct (Z.ltb_spec (indexOf (List.map o_key l) (o_key y)) 0); [lia|done]. }
  constructor.
  - apply (StronglySorted_impl_In _ _ _ IH). intros a b Ha Hb Hle.
    destruct (Htail a Ha) as [-> _]. destruct (Htail b Hb) as [-> _]. lia.
  - apply List.Forall_forall. intros y Hy. destruct (Htail y Hy) as [-> Hpos].
    simpl. rewrite String.eqb_refl. lia.
Qed.

(** X3.  The ranking stored by [handleProceed] is the ranking shown when the
    question is opened again, provided the option keys of the question are
    distinct. *)
Theorem initialRanking_restores (question : ScenarioQuestion)
    (rankedOptions : list ChoiceOption) (timeMs : option Q)
    (prev : list (string * ScenarioAnswerState)) :
  Permutation rankedOptions (sq_options question) →
  List.NoDup (List.map o_key (sq_options question)) →
  initialRanking question (handleProceed question rankedOptions timeMs prev)
  = rankedOptions.
Proof.
  intros Hperm Hnd. unfold initialRanking, handleProceed, handleScenarioAnswer.
  rewrite AssocFacts.assoc_get_set_eq. simpl.
  set (keys := List.map o_key rankedOptions).
  set (position := fun o : ChoiceOption => indexOf keys (o_key o)).
  assert (Hnd' : List.NoDup (List.map o_key rankedOptions)).
  { eapply Permutation_NoDup; [|exact Hnd].
    apply Permutation_map, Permutation_sym, Hperm. }
  assert (Hsorted : StronglySorted (fun a b => (position a <= position b)%Z)
                      (js_sort (byPreviousRanking keys) (sq_options question))).
  { eapply StronglySorted_impl_In.
    - apply (js_sort_descending (byPreviousRanking keys)
               (fun o => - inject_Z (position o)) (fun _ => True)).
      + intros a b _ _. unfold byPreviousRanking, position, Z.sub.
        rewrite inject_Z_plus, inject_Z_opp. ring.
      + by apply List.Forall_forall.
    - intros a b _ _ Hle. simpl in Hle.
      apply Qopp_le_compat in Hle. rewrite !Qopp_opp in Hle.
      by rewrite Zle_Qle. }
  symmetry. apply (StronglySorted_Permutation_eq _ _ _ (ranked_by_own_keys _ Hnd') Hsorted).
  - etransitivity; [exact Hperm|apply js_sort_perm].
  - intros a b Ha Hb Hab Hba.
    apply (key_injective_on rankedOptions); [done|done|done|].
    assert (Heq : indexOf keys (o_key a) = indexOf keys (o_key b)).
    { cbv beta in Hab, Hba. fold keys in Hab, Hba. lia. }
    pose proof (indexOf_In keys (o_key a) (in_map o_key _ _ Ha)) as Hpos.
    pose proof (indexOf_lookup keys (o_key a) Hpos) as Hla.
    rewrite Heq in Hpos, Hla.
    rewrite (indexOf_lookup keys (o_key b) Hpos) in Hla. by injection Hla.
Qed.


Lemma initialRanking_restores_witness :
  initialRanking ScenarioStepExample.festival
    (handleProceed ScenarioStepExample.festival ScenarioStepExample.reordered None [])
  = ScenarioStepExample.reordered.
Proof.
  apply initialRanking_restores.
  - apply perm_swap.
  - simpl. repeat constructor; simpl; intuition discriminate.
Defined.

End ScenarioStepFacts.

(** ** Composite ids *)

Module CompositeIdFacts.
Import ScoreOptimizer WeightApplier.

Lemma split_nonempty (c : ascii) (s : string) : split c s ≠ [].
Proof.
  destruct s as [|a s]; simpl; [done|].
  destruct (Ascii.eqb a c); [done|]. by destruct (split c s).
Qed.

Lemma split_length (c : ascii) (s : string) :
  length (split c s) = S (occurrences c s).
Proof.
  induction s as [|a s IH]; simpl; [done|].
  destruct (Ascii.eqb a c); simpl; [by rewrite IH|].
  pose proof (split_nonempty c s). destruct (split c s); [done|]. exact IH.
Qed.

Lemma split_without (c : ascii) (s : string) :
  occurrences c s = 0%nat → split c s = [s].
Proof.
  induction s as [|a s IH]; simpl; [done|].
  destruct (Ascii.eqb a c); simpl; [done|]. intros H. by rewrite IH.
Qed.

Lemma split_append (c : ascii) (s rest : string) :
  occurrences c s = 0%nat →
  split c (s ++ String c rest)%string = s :: split c rest.
Proof.
  induction s as [|a s IH]; simpl.
  - by rewrite Ascii.eqb_refl.
  - destruct (Ascii.eqb a c); simpl; [done|]. intros H. by rewrite IH.
Qed.

(** The head of the pieces does not depend on what follows the first
    separator. *)
Lemma split_head_append (c : ascii) (s rest : string) :
  List.hd ""%string (split c (s ++ String c rest)%string) = List.hd ""%string (split c s).
Proof.
  induction s as [|a s IH]; simpl.
  - by rewrite Ascii.eqb_refl.
  - destruct (Ascii.eqb a c); simpl; [done|].
    pose proof (split_nonempty c (s ++ String c rest)%string).
    pose proof (split_nonempty c s).
    destruct (split c (s ++ String c rest)%string), (split c s); try done.
    simpl in *. by rewrite IH.
Qed.

Lemma occurrences_Contains (c : ascii) (s : string) :
  occurrences c s = 0%nat ↔ Contains c s = false.
Proof.
  induction s as [|a s IH]; simpl; [done|].
  destruct (Ascii.eqb a c); simpl; [split; [lia|done]|exact IH].
Qed.


Lemma split_head_clean (c : ascii) (s : string) :
  occurrences c (List.hd ""%string (split c s)) = 0%nat.
Proof.
  induction s as [|a s IH]; simpl; [done|].
  destruct (Ascii.eqb a c) eqn:E; simpl; [done|].
  pose proof (split_nonempty c s). destruct (split c s); [done|].
  simpl in *. by rewrite E.
Qed.

(** X4.  An answer stored by [handleForcedAnswer] is found under the
    composite key, and the aggregator reads from that key the part of the
    question id before its first '|': the question id itself exactly when
    it holds no '|'. *)
Theorem forced_answer_attribution (question : ForcedChoiceQuestion)
    (optionKey : string) (confidence : Q) (timeMs : option Q)
    (prev : list (string * ForcedAnswerState)) :
  let key := (fq_id question ++ "|" ++ optionKey)%string in
  (fa_optionKey <$>
     assoc_get key
       (ForcedAnswers.handleForcedAnswer question optionKey confidence timeMs prev))
    = Some optionKey ∧
  Aggregator.questionIdOf key = Aggregator.questionIdOf (fq_id question) ∧
  (Aggregator.questionIdOf (fq_id question) = fq_id question ↔
   occurrences "|" (fq_id question) = 0%nat).
Proof.
  intros key. subst key. split; [|split].
  - unfold ForcedAnswers.handleForcedAnswer. by rewrite AssocFacts.assoc_get_set_eq.
  - unfold Aggregator.questionIdOf. apply split_head_append.
  - unfold Aggregator.questionIdOf. split.
    + intros Heq. rewrite <- Heq. apply split_head_clean.
    + intros Hnone. by rewrite split_without.
Qed.

(** X5.  The composite id of an option splits back into the question id and
    the option key when neither holds a '|'. *)
Theorem compositeId_splits (item : ChoiceItem) (option : ChoiceOption) :
  occurrences "|" (ci_Id item) = 0%nat →
  occurrences "|" (opt_Key option) = 0%nat →
  split "|" (compositeIdOf item option) = [ci_Id item; opt_Key option].
Proof.
  intros Hid Hkey.
  change (compositeIdOf item option)
    with (ci_Id item ++ String "|" (opt_Key option))%string.
  rewrite split_append by done. by rewrite split_without.
Qed.

Lemma compositeId_splits_witness :
  split "|" (compositeIdOf AnalyzerExample.prefixedQuestion
               (AnalyzerExample.choice "A" "science"))
  = ["SC-1"; "A"]%string.
Proof.
  apply (compositeId_splits AnalyzerExample.prefixedQuestion
           (AnalyzerExample.choice "A" "science")); reflexivity.
Defined.

(** X6.  A summary whose item id does not hold exactly one '|' (a Likert
    item id, for one) is skipped by the weight applier: nothing is looked
    up, nothing changes, nothing is thrown. *)
Theorem summary_without_single_separator_skipped (tolerance : Q)
    (itemsArray : list JsonNode) (updated : Z) (summary : ItemSummary) :
  occurrences "|" (is_ItemId summary) ≠ 1%nat →
  applySummary tolerance (itemsArray, updated) summary = Ok (itemsArray, updated).
Proof.
  intros Hsep. unfold applySummary, locate.
  pose proof (split_length "|" (is_ItemId summary)) as Hlen.
  destruct (split "|" (is_ItemId summary)) as [|p1 [|p2 [|p3 rest]]]; try done.
  simpl in Hlen. lia.
Qed.

Lemma summary_without_single_separator_skipped_witness :
  applySummary defaultTolerance ([JsonNumber 1; JsonNull], 0%Z)
    (WeightApplierExample.recommend "L-01" (12 # 10))
  = Ok ([JsonNumber 1; JsonNull], 0%Z).
Proof.
  apply summary_without_single_separator_skipped. simpl. lia.
Defined.

End CompositeIdFacts.

(** ** Axis statistics and the Likert phase *)

Module LikertPhaseFacts.
Import LikertPhase AnalyzerSpec.

Lemma initialise_fold_Some (questions : list LikertQuestion)
    (m : gmap string AxisStats) (axis : string) (st : AxisStats) :
  m !! axis = Some st →
  fold_left
    (fun map q =>
       match map !! lq_axis q with
       | Some _ => map
       | None => <[lq_axis q := {| as_sum := 0; as_count := 0 |}]> map
       end)
    questions m !! axis = Some st.
Proof.
  revert m. induction questions as [|q rest IH]; intros m Hm; simpl; [done|].
  apply IH. destruct (m !! lq_axis q) eqn:Hq; [done|].
  rewrite lookup_insert_ne; [done|]. intros Heq. congruence.
Qed.

Lemma initialise_fold_None (questions : list LikertQuestion)
    (m : gmap string AxisStats) (axis : string) :
  m !! axis = None →
  fold_left
    (fun map q =>
       match map !! lq_axis q with
       | Some _ => map
       | None => <[lq_axis q := {| as_sum := 0; as_count := 0 |}]> map
       end)
    questions m !! axis
  = if bool_decide (axis ∈ List.map lq_axis questions)
    then Some {| as_sum := 0; as_count := 0 |} else None.
Proof.
  revert m. induction questions as [|q rest IH]; intros m Hm; cbn [fold_left List.map].
  - rewrite bool_decide_eq_false_2; [done|]. apply not_elem_of_nil.
  - destruct (decide (lq_axis q = axis)) as [Heq|Hne].
    + rewrite bool_decide_eq_true_2 by (rewrite Heq; apply list_elem_of_here).
      apply initialise_fold_Some. rewrite Heq, Hm. apply lookup_insert_eq.
    + rewrite IH.
      * assert (Hb : bool_decide (axis ∈ List.map lq_axis rest)
                     = bool_decide (axis ∈ lq_axis q :: List.map lq_axis rest)).
        { apply bool_decide_ext. rewrite elem_of_cons.
          split; [by right|]. intros [Heq|Hin]; [|done]. exfalso. by apply Hne. }
        by rewrite Hb.
      * destruct (m !! lq_axis q); [done|]. by rewrite lookup_insert_ne.
Qed.

Lemma initialiseAxisStats_lookup (questions : list LikertQuestion) (axis : string) :
  initialiseAxisStats questions !! axis
  = if bool_decide (axis ∈ List.map lq_axis questions)
    then Some {| as_sum := 0; as_count := 0 |} else None.
Proof. apply initialise_fold_None. apply lookup_empty. Qed.

Lemma sizeOf_cons (v : Q) (l : list Q) : sizeOf (v :: l) == 1 + sizeOf l.
Proof.
  unfold sizeOf. cbn [length]. rewrite Nat2Z.inj_succ, <- Z.add_1_l, inject_Z_plus.
  reflexivity.
Qed.

Lemma record_fold (questions : list LikertQuestion) (axis : string)
    (answers : list (string * Q)) (m : gmap string AxisStats) :
  match m !! axis with
  | Some st0 =>
      ∃ st,
        fold_left
          (fun stats '(id, value) =>
             match List.find (fun q => String.eqb (lq_id q) id) questions with
             | Some question =>
                 recordLikertStat stats (lq_axis question) value (lq_polarity question)
             | None => stats
             end)
          answers m !! axis = Some st ∧
        as_count st == as_count st0 + sizeOf (recordedFor questions axis answers) ∧
        as_sum st == as_sum st0 + sumOf (recordedFor questions axis answers)
  | None =>
      recordedFor questions axis answers = [] →
      fold_left
        (fun stats '(id, value) =>
           match List.find (fun q => String.eqb (lq_id q) id) questions with
           | Some question =>
               recordLikertStat stats (lq_axis question) value (lq_polarity question)
           | None => stats
           end)
        answers m !! axis = None
  end.
Proof.
  revert m. induction answers as [|[id value] rest IH]; intros m.
  - simpl. destruct (m !! axis) as [st0|] eqn:Hm; [|done].
    exists st0. split; [done|].
    change (sizeOf (recordedFor questions axis [])) with 0.
    change (sumOf (recordedFor questions axis [])) with 0.
    by rewrite !Qplus_0_r.
  - cbn [fold_left recordedFor flat_map].
    destruct (List.find (fun q => String.eqb (lq_id q) id) questions) as [question|].
    + destruct (String.eqb_spec (lq_axis question) axis) as [Heq|Hne].
      * specialize (IH (recordLikertStat m (lq_axis question) value (lq_polarity question))).
        unfold recordLikertStat in IH at 1. rewrite Heq in IH.
        rewrite lookup_insert_eq in IH. rewrite <- Heq in IH.
        destruct IH as (st & Hst & Hcount & Hsum). cbn [as_count as_sum] in Hcount, Hsum.
        rewrite <- Heq. destruct (m !! lq_axis question) as [st0|] eqn:Hm; [|done].
        exists st. split; [exact Hst|]. cbn [app]. fold (recordedFor questions (lq_axis question) rest).
        rewrite sizeOf_cons. cbn [sumOf default] in *. unfold Datatypes.id in *. split.
        -- rewrite Hcount. ring.
        -- rewrite Hsum. ring.
      * specialize (IH (recordLikertStat m (lq_axis question) value (lq_polarity question))).
        unfold recordLikertStat in IH at 1. rewrite lookup_insert_ne in IH by done.
        cbn [app]. exact IH.
    + cbn [app]. apply IH.
Qed.

Lemma recordedFor_absent (questions : list LikertQuestion) (axis : string)
    (answers : list (string * Q)) :
  ¬ In axis (List.map lq_axis questions) → recordedFor questions axis answers = [].
Proof.
  intros Hnot. induction answers as [|[id value] rest IH]; [done|].
  cbn [recordedFor flat_map]. fold (recordedFor questions axis rest). rewrite IH.
  destruct (List.find (fun q => String.eqb (lq_id q) id) questions) as [question|] eqn:Hfind;
    [|done].
  apply find_some in Hfind as [Hin _].
  destruct (String.eqb_spec (lq_axis question) axis) as [Heq|Hne]; [|done].
  exfalso. apply Hnot. rewrite <- Heq. by apply in_map.
Qed.

(** X7.  The statistics rebuilt from the answers have an entry exactly for
    the axes of the question list; the entry of an axis counts the answers
    whose id is that of a question of the axis and sums their normalized
    values (a reverse item contributing 8 - value); answers whose id names
    no question are not counted. *)
Theorem recomputeAxisStats_entry (questions : list LikertQuestion)
    (answers : list (string * Q)) (axis : string) :
  (In axis (List.map lq_axis questions) →
   ∃ st, recomputeAxisStats questions answers !! axis = Some st ∧
         as_count st == sizeOf (recordedFor questions axis answers) ∧
         as_sum st == sumOf (recordedFor questions axis answers)) ∧
  (¬ In axis (List.map lq_axis questions) →
   recomputeAxisStats questions answers !! axis = None).
Proof.
  pose proof (record_fold questions axis answers (initialiseAxisStats questions)) as H.
  rewrite initialiseAxisStats_lookup in H. split; intros Hin.
  - rewrite bool_decide_eq_true_2 in H by by apply list_elem_of_In.
    destruct H as (st & Hst & Hcount & Hsum). exists st. split; [exact Hst|].
    cbn [as_count as_sum] in Hcount, Hsum. split.
    + rewrite Hcount. ring.
    + rewrite Hsum. ring.
  - rewrite bool_decide_eq_false_2 in H by by rewrite list_elem_of_In. apply H.
    by apply recordedFor_absent.
Qed.

Lemma sumRelatedWeights_nonneg (l : list RelatedCategory) :
  (∀ r, In r l → 0 <= rc_weight r) → 0 <= sumRelatedWeights l.
Proof.
  induction l as [|r l IH]; intros Hall; simpl; [apply Qle_refl|].
  apply (Qle_trans _ (0 + 0)); [done|]. apply Qplus_le_compat.
  - apply Hall. by left.
  - apply IH. intros r' Hr'. apply Hall. by right.
Qed.

Lemma Qabs_zero (x : Q) : Qabs x == 0 → x == 0.
Proof.
  apply Qabs_case; intros _ H; [exact H|].
  rewrite <- (Qopp_involutive x), H. reflexivity.
Qed.

(** X8.  With non-negative related weights the information gain is never
    negative, and it is zero exactly when the axis of the question has
    observations whose mean is the midpoint 4; an axis without observations
    gives 1. *)
Theorem computeInformationGain_range (question : LikertQuestion)
    (stats : gmap string AxisStats) :
  (∀ r, In r (default [] (lq_relatedCategories question)) → 0 <= rc_weight r) →
  0 <= computeInformationGain question stats ∧
  (computeInformationGain question stats == 0 ↔
   ∃ axisState, stats !! lq_axis question = Some axisState ∧
                ¬ as_count axisState == 0 ∧
                as_sum axisState / as_count axisState == 4) ∧
  (observations stats (lq_axis question) == 0 →
   computeInformationGain question stats = 1).
Proof.
  intros Hweights. apply sumRelatedWeights_nonneg in Hweights.
  unfold computeInformationGain, observations.
  destruct (stats !! lq_axis question) as [axisState|] eqn:Hstate.
  - destruct (Qeq_bool (as_count axisState) 0) eqn:Hcount.
    + apply Qeq_bool_iff in Hcount. split; [done|]. split; [|done]. split; [done|].
      intros (st & [= <-] & Hne & _). by destruct Hne.
    + apply Qeq_bool_neq in Hcount. cbv zeta.
      set (weight := fold_left _ _ _).
      assert (Hw : weight == sumRelatedWeights (default [] (lq_relatedCategories question))).
      { unfold weight. rewrite fold_left_related_weights. apply Qplus_0_l. }
      assert (Hpos : 0 < 1 + weight).
      { rewrite Hw. apply Qlt_le_trans with (y := 1); [done|].
        rewrite <- (Qplus_0_r 1) at 1. apply Qplus_le_r. exact Hweights. }
      split; [|split].
      * apply Qmult_le_0_compat; [apply Qabs_nonneg|by apply Qlt_le_weak].
      * split.
        -- intros Hzero. exists axisState. split; [done|]. split; [done|].
           apply Qmult_integral in Hzero as [Habs|Hone].
           ++ apply Qabs_zero in Habs.
              rewrite <- (Qplus_0_l (as_sum axisState / as_count axisState)), <- Habs. ring.
           ++ rewrite Hone in Hpos. by apply Qlt_irrefl in Hpos.
        -- intros (st & [= <-] & _ & Hmean). rewrite Hmean.
           change (Qabs (4 - 4)) with 0. apply Qmult_0_l.
      * intros Hzero. by destruct Hcount.
  - split; [done|]. split; [|done]. split; [done|]. by intros (st & Hst & _).
Qed.

Lemma computeInformationGain_range_witness :
  0 <= computeInformationGain SelectorExample.q2 SelectorExample.stats.
Proof.
  apply (computeInformationGain_range SelectorExample.q2 SelectorExample.stats).
  vm_compute. intros r Hr. 
  repeat (destruct Hr as [<-|Hr]; [vm_compute; discriminate|]). destruct Hr.
Defined.

(** *** The selector inside the Likert phase *)

Lemma valueEntries_keys (answers : list (string * LikertAnswerState)) :
  List.map fst (valueEntries answers) = List.map fst answers.
Proof.
  unfold valueEntries. rewrite List.map_map. apply List.map_ext. by intros [id answer].
Qed.

Lemma valueMap_answered (answers : list (string * LikertAnswerState)) (q : LikertQuestion) :
  isAnswered (valueMap answers) q = true ↔ In (lq_id q) (List.map fst answers).
Proof.
  unfold isAnswered, valueMap. rewrite bool_decide_eq_true, dom_list_to_map_L.
  rewrite elem_of_list_to_set. change (valueEntries answers).*1
    with (List.map fst (valueEntries answers)).
  by rewrite valueEntries_keys, list_elem_of_In.
Qed.

Lemma valueMap_unanswered (answers : list (string * LikertAnswerState)) (q : LikertQuestion) :
  isAnswered (valueMap answers) q = false ↔ assoc_get (lq_id q) answers = None.
Proof.
  rewrite AssocFacts.assoc_get_None, <- valueMap_answered.
  destruct (isAnswered (valueMap answers) q); split; done.
Qed.

Lemma rank_head_member (stats : gmap string AxisStats) (c : LikertQuestion)
    (cs : list LikertQuestion) (q : LikertQuestion) :
  fst <$> head (rankCandidates stats (c :: cs)) = Some q → q ∈ c :: cs.
Proof.
  intros Hq. destruct (rank_head stats (c :: cs)) as (q' & Hq' & before & after & Hl & _);
    [done|].
  rewrite Hq in Hq'. injection Hq' as <-. rewrite Hl.
  apply elem_of_app. right. apply list_elem_of_here.
Qed.

(** Every question the selector returns is a candidate of the mode it
    ended in: with [requiredOnly] set and required candidates left, a
    required one. *)
Lemma pickNext_Some (questions : list LikertQuestion) (answers : gmap string Q)
    (stats : gmap string AxisStats) (requiredOnly : bool) (q : LikertQuestion) :
  pickNextLikertQuestion questions answers stats requiredOnly = Some q →
  q ∈ questions ∧ isAnswered answers q = false ∧
  (requiredOnly = true → candidatesOf questions answers true ≠ [] →
   lq_required q = true).
Proof.
  assert (Hfalse : pickNextLikertQuestion questions answers stats false = Some q →
                   q ∈ questions ∧ isAnswered answers q = false).
  { rewrite pickNext_unfold_false.
    destruct (candidatesOf questions answers false) as [|c cs] eqn:Hc; [done|].
    intros Hq. apply rank_head_member in Hq. rewrite <- Hc in Hq.
    apply candidatesOf_elem in Hq as [Hin Hcand]. split; [done|].
    rewrite isCandidate_any in Hcand. by destruct (isAnswered answers q). }
  destruct requiredOnly.
  - rewrite pickNext_unfold_true.
    destruct (candidatesOf questions answers true) as [|c cs] eqn:Hc.
    + intros Hq. destruct (Hfalse Hq) as [Hin Hans]. done.
    + intros Hq. apply rank_head_member in Hq. rewrite <- Hc in Hq.
      apply candidatesOf_elem in Hq as [Hin Hcand]. unfold isCandidate in Hcand.
      apply andb_true_iff in Hcand as [Hans Hreq]. simpl in Hreq.
      split; [done|]. split; [by destruct (isAnswered answers q)|done].
  - intros Hq. destruct (Hfalse Hq) as [Hin Hans]. done.
Qed.

(** X9.  Answering the current question records the answer under its id,
    leaves the other answers as they were, and either makes an unanswered
    question of the bank current, the step staying as it is, or, exactly
    when every question of the bank (optional ones included) is answered,
    clears the current question and moves to the forced-choice step. *)
Theorem handleLikertAnswer_next (questionBank : QuestionBank) (value : Q)
    (timeMs : option Q) (s : State) (current : LikertQuestion) :
  currentLikertQuestion questionBank s = Some current →
  let s' := handleLikertAnswer questionBank value timeMs s in
  assoc_get (lq_id current) (likertAnswers s')
    = Some {| la_value := value; la_responseTimeMs := timeMs |} ∧
  (∀ id, id ≠ lq_id current →
         assoc_get id (likertAnswers s') = assoc_get id (likertAnswers s)) ∧
  match currentLikertId s' with
  | Some nextId =>
      step s' = step s ∧
      ∃ next, In next (likert questionBank) ∧ lq_id next = nextId ∧
              assoc_get nextId (likertAnswers s') = None
  | None =>
      step s' = forcedChoiceStep ∧
      ∀ q, In q (likert questionBank) →
           assoc_get (lq_id q) (likertAnswers s') ≠ None
  end.
Proof.
  intros Hcurrent s'. subst s'. unfold handleLikertAnswer. rewrite Hcurrent. cbv zeta.
  set (nextAnswers := assoc_set (lq_id current) _ (likertAnswers s)).
  set (nextStats := recomputeAxisStats _ _).
  set (needRequired := (_ <? _)%nat).
  assert (Hrecorded : assoc_get (lq_id current) nextAnswers
                      = Some {| la_value := value; la_responseTimeMs := timeMs |})
    by apply AssocFacts.assoc_get_set_eq.
  assert (Hothers : ∀ id, id ≠ lq_id current →
                          assoc_get id nextAnswers = assoc_get id (likertAnswers s)).
  { intros id Hne. apply AssocFacts.assoc_get_set_ne. congruence. }
  destruct (pickNextLikertQuestion (likert questionBank) (valueMap nextAnswers)
              nextStats needRequired) as [next|] eqn:Hpick; cbn.
  - split; [done|]. split; [done|]. split; [done|].
    apply pickNext_Some in Hpick as (Hin & Hans & _).
    exists next. split; [by apply list_elem_of_In|]. split; [done|].
    by apply valueMap_unanswered.
  - split; [done|]. split; [done|]. split; [done|].
    apply pickNext_none_iff in Hpick. intros q Hq Hnone.
    apply (proj1 (candidatesOf_nil _ _ _)) with (q := q) in Hpick;
      [|by apply list_elem_of_In].
    rewrite isCandidate_any in Hpick. apply valueMap_unanswered in Hnone.
    by rewrite Hnone in Hpick.
Qed.

(** *** Required questions *)

Lemma NoDup_map_filter {A B : Type} (f : A → B) (p : A → bool) (l : list A) :
  List.NoDup (List.map f l) → List.NoDup (List.map f (List.filter p l)).
Proof.
  induction l as [|a l IH]; simpl; intros Hnd; [constructor|].
  apply List.NoDup_cons_iff in Hnd as [Hnotin Hnd].
  destruct (p a); simpl; [|by apply IH].
  constructor; [|by apply IH]. intros Hin. apply Hnotin.
  apply in_map_iff in Hin as (x & Hx & Hin). apply filter_In in Hin as [Hin _].
  apply in_map_iff. by exists x.
Qed.

Lemma requiredIds_In (questions : list LikertQuestion) (id : string) :
  In id (List.map lq_id (List.filter lq_required questions)) ↔
  ∃ q, In q questions ∧ lq_required q = true ∧ lq_id q = id.
Proof.
  rewrite in_map_iff. split.
  - intros (q & Hid & Hin). apply filter_In in Hin as [Hin Hreq]. by exists q.
  - intros (q & Hin & Hreq & Hid). exists q. split; [done|]. by apply filter_In.
Qed.

Lemma requiredLikertCount_ids (questionBank : QuestionBank) :
  requiredLikertCount questionBank
  = length (List.map lq_id (List.filter lq_required (likert questionBank))).
Proof. unfold requiredLikertCount. by rewrite List.length_map. Qed.

(** With distinct answer keys, an unanswered required question keeps the
    count of answered required ids below the count of required
    questions. *)
Lemma requiredLikertAnswered_below (questionBank : QuestionBank)
    (answers : list (string * LikertAnswerState)) (r : LikertQuestion) :
  List.NoDup (List.map fst answers) →
  In r (likert questionBank) → lq_required r = true →
  assoc_get (lq_id r) answers = None →
  (requiredLikertAnswered questionBank answers < requiredLikertCount questionBank)%nat.
Proof.
  intros Hkeys Hr Hreq Hnone. rewrite requiredLikertCount_ids.
  unfold requiredLikertAnswered. cbv zeta.
  set (requiredIds := List.map lq_id (List.filter lq_required (likert questionBank))).
  set (answered := List.filter (fun id => Aggregator.includes requiredIds id)
                               (List.map fst answers)).
  apply AssocFacts.assoc_get_None in Hnone.
  assert (Hnd : List.NoDup (lq_id r :: answered)).
  { constructor; [|by apply List.NoDup_filter].
    intros Hin. apply filter_In in Hin as [Hin _]. by apply Hnone. }
  apply (NoDup_incl_length Hnd). intros id [<-|Hin].
  - apply requiredIds_In. by exists r.
  - apply filter_In in Hin as [_ Hin]. by apply CooccurrenceFacts.includes_In in Hin.
Qed.

(** The same for the count [handleLikertAnswer] takes, which looks each
    answer key up in the bank. *)
Lemma requiredAnswered_below (questionBank : QuestionBank)
    (answers : list (string * LikertAnswerState)) (r : LikertQuestion) :
  List.NoDup (List.map fst answers) →
  In r (likert questionBank) → lq_required r = true →
  assoc_get (lq_id r) answers = None →
  (length
     (List.filter
        (fun '(id, _) =>
           match Aggregator.findLikert questionBank id with
           | Some q => lq_required q
           | None => false
           end)
        answers)
   < requiredLikertCount questionBank)%nat.
Proof.
  intros Hkeys Hr Hreq Hnone. rewrite requiredLikertCount_ids.
  set (found := List.filter _ answers).
  apply AssocFacts.assoc_get_None in Hnone.
  assert (Hnd : List.NoDup (lq_id r :: List.map fst found)).
  { constructor; [|by apply NoDup_map_filter].
    intros Hin. apply Hnone. apply in_map_iff in Hin as (entry & Hid & Hin).
    apply filter_In in Hin as [Hin _]. apply in_map_iff. by exists entry. }
  rewrite <- (List.length_map fst found).
  apply (NoDup_incl_length Hnd). intros id [<-|Hin].
  - apply requiredIds_In. by exists r.
  - apply in_map_iff in Hin as ([id' answer] & Hid & Hin). simpl in Hid. subst id'.
    apply filter_In in Hin as [_ Hfound]. unfold Aggregator.findLikert in Hfound.
    destruct (List.find _ (likert questionBank)) as [q|] eqn:Hfind; [|done].
    apply find_some in Hfind as [Hq Heq]. apply String.eqb_eq in Heq.
    apply requiredIds_In. by exists q.
Qed.

Lemma likertComplete_of_answered (questionBank : QuestionBank)
    (answers : list (string * LikertAnswerState)) :
  List.NoDup (List.map lq_id (likert questionBank)) →
  (∀ q, In q (likert questionBank) → lq_required q = true →
        In (lq_id q) (List.map fst answers)) →
  likertComplete questionBank answers = true.
Proof.
  intros Hids Hall. unfold likertComplete. apply Nat.leb_le.
  rewrite requiredLikertCount_ids. unfold requiredLikertAnswered. cbv zeta.
  apply NoDup_incl_length; [by apply NoDup_map_filter|].
  intros id Hid. apply filter_In. split.
  - apply requiredIds_In in Hid as (q & Hq & Hreq & <-). by apply Hall.
  - by apply CooccurrenceFacts.includes_In.
Qed.

Lemma likertComplete_answered (questionBank : QuestionBank)
    (answers : list (string * LikertAnswerState)) :
  List.NoDup (List.map fst answers) →
  likertComplete questionBank answers = true →
  ∀ q, In q (likert questionBank) → lq_required q = true →
       In (lq_id q) (List.map fst answers).
Proof.
  intros Hkeys Hcomplete q Hq Hreq.
  destruct (assoc_get (lq_id q) answers) eqn:Hget.
  - destruct (in_dec string_dec (lq_id q) (List.map fst answers)) as [|Hnot]; [done|].
    apply AssocFacts.assoc_get_None in Hnot. congruence.
  - pose proof (requiredLikertAnswered_below questionBank answers q Hkeys Hq Hreq Hget).
    unfold likertComplete in Hcomplete. apply Nat.leb_le in Hcomplete. lia.
Qed.

(** X10.  With distinct question ids and distinct answer keys, the Likert
    phase is complete exactly when every required question has an
    answer. *)
Theorem likertComplete_iff (questionBank : QuestionBank)
    (answers : list (string * LikertAnswerState)) :
  List.NoDup (List.map lq_id (likert questionBank)) →
  List.NoDup (List.map fst answers) →
  (likertComplete questionBank answers = true ↔
   ∀ q, In q (likert questionBank) → lq_required q = true →
        assoc_get (lq_id q) answers ≠ None).
Proof.
  intros Hids Hkeys. split.
  - intros Hcomplete q Hq Hreq Hnone. apply AssocFacts.assoc_get_None in Hnone.
    apply Hnone. by apply (likertComplete_answered questionBank answers).
  - intros Hall. apply likertComplete_of_answered; [done|].
    intros q Hq Hreq. specialize (Hall q Hq Hreq).
    destruct (in_dec string_dec (lq_id q) (List.map fst answers)) as [|Hnot]; [done|].
    by apply AssocFacts.assoc_get_None in Hnot.
Qed.

(** X11.  While a required question other than the current one is
    unanswered, answering the current question makes a required unanswered
    question current. *)
Theorem handleLikertAnswer_required_first (questionBank : QuestionBank) (value : Q)
    (timeMs : option Q) (s : State) (current r : LikertQuestion) :
  List.NoDup (List.map fst (likertAnswers s)) →
  currentLikertQuestion questionBank s = Some current →
  In r (likert questionBank) → lq_required r = true →
  lq_id r ≠ lq_id current →
  assoc_get (lq_id r) (likertAnswers s) = None →
  let s' := handleLikertAnswer questionBank value timeMs s in
  ∃ next, In next (likert questionBank) ∧
          currentLikertId s' = Some (lq_id next) ∧
          lq_required next = true ∧
          assoc_get (lq_id next) (likertAnswers s') = None.
Proof.
  intros Hkeys Hcurrent Hr Hreq Hne Hnone s'. subst s'.
  unfold handleLikertAnswer. rewrite Hcurrent. cbv zeta.
  set (nextAnswers := assoc_set (lq_id current) _ (likertAnswers s)).
  set (nextStats := recomputeAxisStats _ _).
  assert (Hnone' : assoc_get (lq_id r) nextAnswers = None).
  { unfold nextAnswers. rewrite AssocFacts.assoc_get_set_ne; [done|congruence]. }
  assert (Hkeys' : List.NoDup (List.map fst nextAnswers))
    by by apply AssocFacts.assoc_set_NoDup.
  pose proof (requiredAnswered_below questionBank nextAnswers r Hkeys' Hr Hreq Hnone')
    as Hbelow.
  apply Nat.ltb_lt in Hbelow. rewrite Hbelow.
  assert (Hcand : candidatesOf (likert questionBank) (valueMap nextAnswers) true ≠ []).
  { intros Hnil. apply (proj1 (candidatesOf_nil _ _ _)) with (q := r) in Hnil;
      [|by apply list_elem_of_In].
    unfold isCandidate in Hnil. apply valueMap_unanswered in Hnone'.
    rewrite Hnone', Hreq in Hnil. done. }
  destruct (pickNextLikertQuestion (likert questionBank) (valueMap nextAnswers)
              nextStats true) as [next|] eqn:Hpick.
  - apply pickNext_Some in Hpick as (Hin & Hans & Hrequired). cbn.
    exists next. split; [by apply list_elem_of_In|]. split; [done|].
    split; [by apply Hrequired|]. by apply valueMap_unanswered.
  - apply pickNext_none_iff in Hpick.
    apply (proj1 (candidatesOf_nil _ _ _)) with (q := r) in Hpick;
      [|by apply list_elem_of_In].
    rewrite isCandidate_any in Hpick. apply valueMap_unanswered in Hnone'.
    by rewrite Hnone' in Hpick.
Qed.


Lemma handleLikertAnswer_next_witness :
  assoc_get "L-04"
    (likertAnswers (handleLikertAnswer LikertPhaseExample.selectorBank 3 None
                      LikertPhaseExample.asking))
  = Some {| la_value := 3; la_responseTimeMs := None |}.
Proof.
  apply (handleLikertAnswer_next LikertPhaseExample.selectorBank 3 None
           LikertPhaseExample.asking SelectorExample.q4).
  reflexivity.
Defined.

Lemma likertComplete_iff_witness :
  likertComplete LikertPhaseExample.selectorBank LikertPhaseExample.bothRequired = true ↔
  ∀ q, In q (likert LikertPhaseExample.selectorBank) → lq_required q = true →
       assoc_get (lq_id q) LikertPhaseExample.bothRequired ≠ None.
Proof.
  apply likertComplete_iff.
  - simpl. repeat constructor; simpl; intuition discriminate.
  - simpl. repeat constructor; simpl; intuition discriminate.
Defined.

Lemma handleLikertAnswer_required_first_witness :
  ∃ next, In next (likert LikertPhaseExample.selectorBank) ∧
          currentLikertId (handleLikertAnswer LikertPhaseExample.selectorBank 3 None
                             LikertPhaseExample.asking) = Some (lq_id next) ∧
          lq_required next = true ∧
          assoc_get (lq_id next)
            (likertAnswers (handleLikertAnswer LikertPhaseExample.selectorBank 3 None
                              LikertPhaseExample.asking)) = None.
Proof.
  apply (handleLikertAnswer_required_first LikertPhaseExample.selectorBank 3 None
           LikertPhaseExample.asking SelectorExample.q4 SelectorExample.q2).
  - constructor.
  - reflexivity.
  - simpl. tauto.
  - reflexivity.
  - discriminate.
  - reflexivity.
Defined.


End LikertPhaseFacts.

(** ** Score aggregation on every input *)

Module AggregateFacts.
Import JsNum Aggregator ScoreSpec AssocFacts.

Lemma fold_left_preserves_In {A S : Type} (P : S → Prop) (f : S → A → S)
    (l : list A) (s : S) :
  (∀ s a, In a l → P s → P (f s a)) → P s → P (fold_left f l s).
Proof.
  revert s. induction l as [|a l IH]; intros s Hf Hs; simpl; [done|].
  apply IH.
  - intros s' a' Hin. apply Hf. by right.
  - apply Hf; [by left|done].
Qed.

Lemma forEachIndexed_preserves {St : Type} (P : St → Prop)
    (body : St → string → nat → St) (rankedOptions : list string) (s : St) :
  (∀ s key i, (i < length rankedOptions)%nat → P s → P (body s key i)) →
  P s → P (forEachIndexed body rankedOptions s).
Proof.
  intros Hbody Hs. unfold forEachIndexed.
  apply fold_left_preserves_In; [|done].
  intros s' [index optionKey] Hin Hs'. apply Hbody; [|done].
  apply in_combine_l in Hin. apply in_seq in Hin. lia.
Qed.

Lemma assoc_set_Forall {V : Type} (P : V → Prop) (key : string) (value : V)
    (m : list (string * V)) :
  Forall (fun entry => P (snd entry)) m → P value →
  Forall (fun entry => P (snd entry)) (assoc_set key value m).
Proof.
  intros Hm Hv. induction m as [|[k v] rest IH]; simpl.
  - by constructor.
  - apply Forall_cons in Hm as [Hk Hrest].
    destruct (String.eqb k key); constructor; auto.
Qed.

Lemma assoc_get_Forall {V : Type} (P : V → Prop) (key : string) (value : V)
    (m : list (string * V)) :
  Forall (fun entry => P (snd entry)) m → assoc_get key m = Some value → P value.
Proof.
  intros Hm Hget. apply ScoreFacts.assoc_get_Some_In in Hget.
  by apply (proj1 (List.Forall_forall _ _) Hm (key, value)).
Qed.

Lemma addScore_finite (key : string) (q : Q) (scores : list (string * num)) :
  allFinite scores → allFinite (addScore key (Fin q) scores).
Proof.
  intros Hfinite. unfold addScore, allFinite.
  apply (assoc_set_Forall (fun v => isFinite v = true)); [done|].
  destruct (assoc_get key scores) as [v|] eqn:Hget; [|done].
  apply (assoc_get_Forall (fun v => isFinite v = true)) in Hget; [|done].
  by destruct v.
Qed.

Lemma rankWeightAt_within (index : nat) :
  (index < 3)%nat → ∃ w, rankWeightAt index = Fin w.
Proof.
  intros Hlt. do 3 (destruct index as [|index]; [by eexists|]). lia.
Qed.

Lemma byScoreDesc_finite (a b : string * num) :
  isFinite (snd a) = true → isFinite (snd b) = true →
  byScoreDesc a b == sortOrder (snd b) - sortOrder (snd a).
Proof. unfold byScoreDesc. destruct (snd a), (snd b); simpl; done. Qed.

(** X13.  When no scenario answer ranks more than three options, every
    category score is a number, the categories are distinct and the list
    is in descending order of score. *)
Theorem categoryScore_three_ranks (questionBank : QuestionBank)
    (likertAnswers : list (string * LikertAnswerState))
    (forcedAnswers : list (string * ForcedAnswerState))
    (scenarioAnswers : list (string * ScenarioAnswerState)) :
  (∀ id answer, In (id, answer) scenarioAnswers →
                (length (sa_rankedOptions answer) <= 3)%nat) →
  let output := categoryScore questionBank likertAnswers forcedAnswers scenarioAnswers in
  List.NoDup (List.map fst output) ∧
  allFinite output ∧
  sortedDescending (List.map snd output).
Proof.
  intros Hranks output. subst output. unfold categoryScore.
  set (accumulated :=
         fold_left (categoryScenario questionBank) scenarioAnswers
           (fold_left (categoryForced questionBank) forcedAnswers
              (fold_left (categoryLikert questionBank) likertAnswers []))).
  assert (Hperm : Permutation accumulated (js_sort byScoreDesc accumulated))
    by apply js_sort_perm.
  destruct (ScoreFacts.category_walks_preserve
              (fun scores => List.NoDup (List.map fst scores)) questionBank)
    as (HndL & HndF & HndS); [intros; by apply assoc_set_NoDup|].
  set (noDup := fun scores : list (string * num) => List.NoDup (List.map fst scores)).
  assert (Hnd : noDup accumulated).
  { apply (ScoreFacts.fold_left_preserves noDup); [exact HndS|].
    apply (ScoreFacts.fold_left_preserves noDup); [exact HndF|].
    apply (ScoreFacts.fold_left_preserves noDup); [exact HndL|constructor]. }
  assert (Hfinite : allFinite accumulated).
  { apply (fold_left_preserves_In allFinite).
    { intros scores [id answer] Hin Hs. unfold categoryScenario.
      destruct (findScenario questionBank id) as [question|]; [|done].
      apply (forEachIndexed_preserves allFinite); [|done].
      intros scores' optionKey index Hindex Hs'.
      destruct (findOption (sq_options question) optionKey) as [option|]; [|done].
      destruct (rankWeightAt_within index) as [w Hw].
      { specialize (Hranks id answer Hin). lia. }
      rewrite Hw. cbn [mul].
      apply (ScoreFacts.fold_left_preserves allFinite);
        [intros; by apply addScore_finite|by apply addScore_finite]. }
    apply (ScoreFacts.fold_left_preserves allFinite).
    { intros scores [id answer] Hs. unfold categoryForced.
      destruct (String.eqb (fa_optionKey answer) "SKIP"); [done|].
      destruct (findForced questionBank (questionIdOf id)) as [question|]; [|done].
      destruct (findOption (fq_options question) (fa_optionKey answer)) as [option|];
        [|done].
      apply (ScoreFacts.fold_left_preserves allFinite);
        [intros; by apply addScore_finite|by apply addScore_finite]. }
    apply (ScoreFacts.fold_left_preserves allFinite); [|constructor].
    intros scores [id answer] Hs. unfold categoryLikert.
    destruct (findLikert questionBank id) as [question|]; [|done].
    apply (ScoreFacts.fold_left_preserves allFinite);
      [intros; by apply addScore_finite|by apply addScore_finite]. }
  assert (Hfinite' : allFinite (js_sort byScoreDesc accumulated)).
  { unfold allFinite. apply List.Forall_forall. intros entry Hin.
    apply (Permutation_in _ (Permutation_sym Hperm)) in Hin.
    by apply (proj1 (List.Forall_forall _ _) Hfinite). }
  split; [|split; [exact Hfinite'|]].
  { eapply Permutation_NoDup; [apply Permutation_map; exact Hperm|exact Hnd]. }
  intros i j a b Hij Ha Hb.
  change (List.map ?f ?l) with (f <$> l) in Ha, Hb.
  rewrite list_lookup_fmap in Ha, Hb.
  destruct (js_sort byScoreDesc accumulated !! i) as [ea|] eqn:Hea; [|done].
  destruct (js_sort byScoreDesc accumulated !! j) as [eb|] eqn:Heb; [|done].
  simpl in Ha, Hb. injection Ha as <-. injection Hb as <-.
  pose proof (js_sort_descending byScoreDesc
                (fun entry => sortOrder (snd entry))
                (fun entry => isFinite (snd entry) = true)
                accumulated byScoreDesc_finite Hfinite) as Hsorted.
  pose proof (ScoreFacts.StronglySorted_lookup _ _ i j ea eb Hsorted Hij Hea Heb) as Hle.
  simpl in Hle.
  assert (Hfa : isFinite (snd ea) = true).
  { apply (proj1 (List.Forall_forall _ _) Hfinite').
    apply list_elem_of_In. by eapply list_elem_of_lookup_2. }
  assert (Hfb : isFinite (snd eb) = true).
  { apply (proj1 (List.Forall_forall _ _) Hfinite').
    apply list_elem_of_In. by eapply list_elem_of_lookup_2. }
  destruct (snd ea), (snd eb); simpl in *; try done.
  by apply Qle_bool_iff.
Qed.

Lemma categoryScore_three_ranks_witness :
  sortedDescending
    (List.map snd
       (categoryScore AggregatorExample.bank AggregatorExample.likertAnswers []
          AggregatorExample.rankThree)).
Proof.
  apply (categoryScore_three_ranks AggregatorExample.bank
           AggregatorExample.likertAnswers [] AggregatorExample.rankThree).
  intros id answer [[= <- <-]|[]]. simpl. lia.
Defined.

Lemma categoryScore_beyond_third_witness :
  assoc_get "engineering"
    (categoryScore AggregatorExample.bank AggregatorExample.likertAnswers []
       AggregatorExample.rankAll)
  = Some NaN.
Proof.
  apply (ScoreFacts.categoryScore_beyond_third AggregatorExample.bank
           AggregatorExample.likertAnswers [] AggregatorExample.rankAll
           "SC-01"
           {| sa_rankedOptions := ["A"; "B"; "C"; "D"]; sa_responseTimeMs := None |}
           {| sq_id := "SC-01"; sq_required := true; sq_title := "Festival";
              sq_scenario := "Pick a role";
              sq_options :=
                [ AggregatorExample.option "A" "activity" "science" 4
                    (AggregatorExample.tagged "lab");
                  AggregatorExample.option "B" "activity" "arts" 4
                    (AggregatorExample.tagged "stage");
                  AggregatorExample.option "C" "learning_style" "business" 3 None;
                  AggregatorExample.option "D" "activity" "engineering" 2
                    (AggregatorExample.tagged "lab") ] |}
           3 "D"
           (AggregatorExample.option "D" "activity" "engineering" 2
              (AggregatorExample.tagged "lab"))).
  - by left.
  - reflexivity.
  - reflexivity.
  - lia.
  - reflexivity.
Defined.

(** *** Skipped forced-choice answers *)

Lemma fold_left_filter_neutral {A S : Type} (f : S → A → S) (p : A → bool)
    (l : list A) (s : S) :
  (∀ s a, p a = false → f s a = s) →
  fold_left f (List.filter p l) s = fold_left f l s.
Proof.
  intros Hneutral. revert s. induction l as [|a l IH]; intros s; simpl; [done|].
  destruct (p a) eqn:Hp; simpl; [apply IH|].
  by rewrite (Hneutral s a Hp).
Qed.

(** X14.  A forced-choice answer whose option key is SKIP adds nothing:
    the category scores, the aptitude scores and the tag scores are those
    of the answers that chose an option, and skipping a question adds no
    such answer. *)
Theorem skipped_answers_ignored (questionBank : QuestionBank)
    (likertAnswers : list (string * LikertAnswerState))
    (forcedAnswers : list (string * ForcedAnswerState))
    (scenarioAnswers : list (string * ScenarioAnswerState)) :
  categoryScore questionBank likertAnswers forcedAnswers scenarioAnswers
    = categoryScore questionBank likertAnswers (chosen forcedAnswers) scenarioAnswers ∧
  aptitudeScores questionBank likertAnswers forcedAnswers scenarioAnswers
    = aptitudeScores questionBank likertAnswers (chosen forcedAnswers) scenarioAnswers ∧
  tagScores questionBank likertAnswers forcedAnswers scenarioAnswers
    = tagScores questionBank likertAnswers (chosen forcedAnswers) scenarioAnswers ∧
  ∀ question timeMs entry,
    In entry (chosen (ForcedAnswers.handleForcedSkip question timeMs forcedAnswers)) →
    In entry (chosen forcedAnswers).
Proof.
  unfold categoryScore, aptitudeScores, tagScores, tagEntries, chosen.
  split; [|split; [|split]].
  - rewrite fold_left_filter_neutral; [done|].
    intros scores [id answer] Hskip. apply negb_false_iff in Hskip. simpl in Hskip.
    unfold categoryForced. by rewrite Hskip.
  - rewrite fold_left_filter_neutral; [done|].
    intros scores [id answer] Hskip. apply negb_false_iff in Hskip. simpl in Hskip.
    unfold aptitudeForced. by rewrite Hskip.
  - rewrite fold_left_filter_neutral; [done|].
    intros scores [id answer] Hskip. apply negb_false_iff in Hskip. simpl in Hskip.
    unfold tagForced. by rewrite Hskip.
  - intros question timeMs [key answer] Hin. apply filter_In in Hin as [Hin Hchosen].
    apply filter_In. split; [|done].
    apply assoc_set_In in Hin as [[_ ->]|Hin]; [done|done].
Qed.

(** *** Aptitude scores beside category scores *)

Lemma fold_left_related {A S1 S2 : Type} (R : S1 → S2 → Prop)
    (f1 : S1 → A → S1) (f2 : S2 → A → S2) (l : list A) (s1 : S1) (s2 : S2) :
  (∀ s1 s2 a, R s1 s2 → R (f1 s1 a) (f2 s2 a)) →
  R s1 s2 → R (fold_left f1 l s1) (fold_left f2 l s2).
Proof.
  intros Hstep. revert s1 s2. induction l as [|a l IH]; intros s1 s2 HR; simpl; [done|].
  apply IH. by apply Hstep.
Qed.

Lemma assoc_set_keys_In {V : Type} (key k : string) (value : V) (m : list (string * V)) :
  In k (List.map fst (assoc_set key value m)) ↔ k = key ∨ In k (List.map fst m).
Proof.
  rewrite assoc_set_keys. destruct (assoc_get key m) as [v|] eqn:Hget.
  - split; [by right|]. intros [->|Hin]; [|done].
    destruct (in_dec string_dec key (List.map fst m)) as [|Hnot]; [done|].
    apply assoc_get_None in Hnot. congruence.
  - rewrite in_app_iff. simpl. split.
    + intros [Hin|[->|[]]]; [by right|by left].
    + intros [->|Hin]; [right; by left|by left].
Qed.

Lemma addAptitude_keys (axis key : string) (value value' : num)
    (aptitude category : list (string * num)) :
  incl (List.map fst aptitude) (List.map fst category) →
  incl (List.map fst (addAptitude axis key value aptitude))
       (List.map fst (addScore key value' category)).
Proof.
  intros Hincl k Hk. unfold addScore. apply assoc_set_keys_In.
  unfold addAptitude in Hk. destruct (isAptitudeAxis axis).
  - unfold addScore in Hk. apply assoc_set_keys_In in Hk as [->|Hk]; [by left|].
    right. by apply Hincl.
  - right. by apply Hincl.
Qed.

(** X15.  Every category that has an aptitude score also has a category
    score: the aptitude map is built by the same walk over the answers,
    keeping only the contributions on the axes activity and
    learning_style. *)
Theorem aptitude_categories_scored (questionBank : QuestionBank)
    (likertAnswers : list (string * LikertAnswerState))
    (forcedAnswers : list (string * ForcedAnswerState))
    (scenarioAnswers : list (string * ScenarioAnswerState)) (category : string) :
  In category
     (List.map fst
        (aptitudeScores questionBank likertAnswers forcedAnswers scenarioAnswers)) →
  In category
     (List.map fst
        (categoryScore questionBank likertAnswers forcedAnswers scenarioAnswers)).
Proof.
  unfold aptitudeScores, categoryScore. intros Hin.
  apply (Permutation_in _ (Permutation_map fst (js_sort_perm byScoreDesc _))).
  apply (Permutation_in _ (Permutation_sym (Permutation_map fst (js_sort_perm byScoreDesc _))))
    in Hin.
  revert category Hin.
  set (R := fun aptitude category : list (string * num) =>
              incl (List.map fst aptitude) (List.map fst category)).
  change (R (fold_left (aptitudeScenario questionBank) scenarioAnswers
               (fold_left (aptitudeForced questionBank) forcedAnswers
                  (fold_left (aptitudeLikert questionBank) likertAnswers [])))
            (fold_left (categoryScenario questionBank) scenarioAnswers
               (fold_left (categoryForced questionBank) forcedAnswers
                  (fold_left (categoryLikert questionBank) likertAnswers [])))).
  apply (fold_left_related R).
  { intros apt cat [id answer] HR. unfold aptitudeScenario, categoryScenario.
    destruct (findScenario questionBank id) as [question|]; [|done].
    unfold forEachIndexed. apply (fold_left_related R); [|done].
    intros apt' cat' [index optionKey] HR'.
    destruct (findOption (sq_options question) optionKey) as [option|]; [|done].
    apply (fold_left_related R); [intros; by apply addAptitude_keys|].
    by apply addAptitude_keys. }
  apply (fold_left_related R).
  { intros apt cat [id answer] HR. unfold aptitudeForced, categoryForced.
    destruct (String.eqb (fa_optionKey answer) "SKIP"); [done|].
    destruct (findForced questionBank (questionIdOf id)) as [question|]; [|done].
    destruct (findOption (fq_options question) (fa_optionKey answer)) as [option|];
      [|done].
    apply (fold_left_related R); [intros; by apply addAptitude_keys|].
    by apply addAptitude_keys. }
  apply (fold_left_related R); [|by intros k Hk].
  intros apt cat [id answer] HR. unfold aptitudeLikert, categoryLikert.
  destruct (findLikert questionBank id) as [question|]; [|done].
  apply (fold_left_related R); [intros; by apply addAptitude_keys|].
  by apply addAptitude_keys.
Qed.

Lemma aptitude_categories_scored_witness :
  In "science"
     (List.map fst
        (categoryScore AggregatorExample.bank AggregatorExample.likertAnswers []
           AggregatorExample.rankThree)).
Proof.
  apply aptitude_categories_scored. vm_compute. tauto.
Defined.

(** *** Tags and the questions behind them *)

Lemma In_take {A : Type} (n : nat) (l : list A) (x : A) : In x (take n l) → In x l.
Proof.
  revert n. induction l as [|a l IH]; intros [|n]; simpl; try done.
  intros [->|Hin]; [by left|right; by apply (IH n)].
Qed.

Lemma In_drop {A : Type} (n : nat) (l : list A) (x : A) : In x (drop n l) → In x l.
Proof.
  revert n. induction l as [|a l IH]; intros [|n]; simpl; try done.
  intros Hin. right. by apply (IH n).
Qed.

(** X27.  Every question id listed under a tag is the id of a question of
    the bank: a Likert or scenario question that an answer resolved to, or
    the forced-choice question named before the bar of an answer key. *)
Theorem tag_questions_known (questionBank : QuestionBank)
    (likertAnswers : list (string * LikertAnswerState))
    (forcedAnswers : list (string * ForcedAnswerState))
    (scenarioAnswers : list (string * ScenarioAnswerState))
    (tag : string) (entry : TagEntry) (questionId : string) :
  In (tag, entry) (tagScores questionBank likertAnswers forcedAnswers scenarioAnswers) →
  In questionId (questions entry) →
  findLikert questionBank questionId ≠ None ∨
  findForced questionBank questionId ≠ None ∨
  findScenario questionBank questionId ≠ None.
Proof.
  intros Hin Hq. unfold tagScores in Hin.
  apply In_take in Hin.
  apply (Permutation_in _ (Permutation_sym (js_sort_perm byTagScoreDesc _))) in Hin.
  revert tag entry questionId Hin Hq. unfold tagEntries.
  set (known := fun id => findLikert questionBank id ≠ None ∨
                          findForced questionBank id ≠ None ∨
                          findScenario questionBank id ≠ None).
  set (P := fun scores : list (string * TagEntry) =>
              ∀ tag entry questionId, In (tag, entry) scores →
                                      In questionId (questions entry) → known questionId).
  assert (Hadd : ∀ key value id scores, known id → P scores →
                                        P (addTagScore key value id scores)).
  { intros key value id scores Hid HP tag entry questionId Hin Hq.
    unfold addTagScore in Hin.
    apply assoc_set_In in Hin as [[-> ->]|Hin]; [|by eapply HP].
    cbn [questions] in Hq.
    assert (Hold : ∀ q, In q (questions (default {| score := Fin 0; questions := [] |}
                                           (assoc_get key scores))) → known q).
    { intros q Hin. destruct (assoc_get key scores) as [old|] eqn:Hget; [|done].
      apply ScoreFacts.assoc_get_Some_In in Hget. by eapply HP. }
    destruct (includes _ id); [by apply Hold|].
    apply in_app_iff in Hq as [Hq|[<-|[]]]; [by apply Hold|done]. }
  change (P (fold_left (tagScenario questionBank) scenarioAnswers
               (fold_left (tagForced questionBank) forcedAnswers
                  (fold_left (tagLikert questionBank) likertAnswers [])))).
  apply (ScoreFacts.fold_left_preserves P).
  { intros scores [id answer] Hs. unfold tagScenario.
    destruct (findScenario questionBank id) as [question|] eqn:Hfind; [|done].
    unfold forEachIndexed. apply (ScoreFacts.fold_left_preserves P); [|done].
    intros scores' [index optionKey] Hs'.
    destruct (findOption (sq_options question) optionKey) as [option|]; [|done].
    apply (ScoreFacts.fold_left_preserves P); [|done].
    intros scores'' t Hs''. apply Hadd; [|done]. right. right. by rewrite Hfind. }
  apply (ScoreFacts.fold_left_preserves P).
  { intros scores [id answer] Hs. unfold tagForced.
    destruct (String.eqb (fa_optionKey answer) "SKIP"); [done|]. cbv zeta.
    destruct (findForced questionBank (questionIdOf id)) as [question|] eqn:Hfind;
      [|done].
    destruct (findOption (fq_options question) (fa_optionKey answer)) as [option|];
      [|done].
    apply (ScoreFacts.fold_left_preserves P); [|done].
    intros scores'' t Hs''. apply Hadd; [|done]. right. left. by rewrite Hfind. }
  apply (ScoreFacts.fold_left_preserves P); [|by intros ? ? ? []].
  intros scores [id answer] Hs. unfold tagLikert.
  destruct (findLikert questionBank id) as [question|] eqn:Hfind; [|done].
  apply (ScoreFacts.fold_left_preserves P); [|done].
  intros scores'' t Hs''. apply Hadd; [|done]. left. by rewrite Hfind.
Qed.

Lemma tag_questions_known_witness :
  findLikert AggregatorExample.bank "SC-01" ≠ None ∨
  findForced AggregatorExample.bank "SC-01" ≠ None ∨
  findScenario AggregatorExample.bank "SC-01" ≠ None.
Proof.
  apply (tag_questions_known AggregatorExample.bank AggregatorExample.likertAnswers []
           AggregatorExample.rankThree "lab"
           {| score := Fin 4; questions := ["SC-01"] |} "SC-01").
  - vm_compute. tauto.
  - by left.
Defined.

(** *** The result page *)

Lemma categoryScore_keys_NoDup (questionBank : QuestionBank)
    (likertAnswers : list (string * LikertAnswerState))
    (forcedAnswers : list (string * ForcedAnswerState))
    (scenarioAnswers : list (string * ScenarioAnswerState)) :
  List.NoDup
    (List.map fst (categoryScore questionBank likertAnswers forcedAnswers scenarioAnswers)).
Proof.
  unfold categoryScore.
  destruct (ScoreFacts.category_walks_preserve
              (fun scores => List.NoDup (List.map fst scores)) questionBank)
    as (HndL & HndF & HndS); [intros; by apply assoc_set_NoDup|].
  set (noDup := fun scores : list (string * num) => List.NoDup (List.map fst scores)).
  eapply Permutation_NoDup; [apply Permutation_map, js_sort_perm|].
  apply (ScoreFacts.fold_left_preserves noDup); [exact HndS|].
  apply (ScoreFacts.fold_left_preserves noDup); [exact HndF|].
  apply (ScoreFacts.fold_left_preserves noDup); [exact HndL|constructor].
Qed.

(** X28.  On the result page a category is listed both among the three
    top categories and among the five bottom categories whenever between
    one and seven categories have a score; from eight categories on the
    two lists share no category. *)
Theorem top_and_bottom_overlap (questionBank : QuestionBank)
    (likertAnswers : list (string * LikertAnswerState))
    (forcedAnswers : list (string * ForcedAnswerState))
    (scenarioAnswers : list (string * ScenarioAnswerState)) :
  let scores := categoryScore questionBank likertAnswers forcedAnswers scenarioAnswers in
  ((0 < length scores < 8)%nat →
   ∃ category, In category (ResultStep.topCategories scores) ∧
               In category (ResultStep.bottomCategories scores)) ∧
  ((8 <= length scores)%nat →
   ∀ category, In category (ResultStep.topCategories scores) →
               ¬ In category (ResultStep.bottomCategories scores)).
Proof.
  intros scores.
  pose proof (categoryScore_keys_NoDup questionBank likertAnswers forcedAnswers
                scenarioAnswers) as Hnd.
  fold scores in Hnd. clearbody scores.
  unfold ResultStep.topCategories, ResultStep.bottomCategories. split.
  - intros Hlen.
    destruct (lookup_lt_is_Some_2 scores (length scores - 5)) as [entry Hentry]; [lia|].
    exists (fst entry). split.
    + apply in_map, list_elem_of_In. apply (list_elem_of_lookup_2 _ (length scores - 5)).
      rewrite lookup_take_lt by lia. done.
    + apply in_map, list_elem_of_In. apply (list_elem_of_lookup_2 _ 0).
      rewrite lookup_drop. by rewrite Nat.add_0_r.
  - intros Hlen category Htop Hbottom.
    rewrite <- (take_drop 3 scores), List.map_app in Hnd.
    apply NoDup_ListNoDup, NoDup_app in Hnd as (_ & Hdisjoint & _).
    apply (Hdisjoint category); [by apply list_elem_of_In|].
    apply list_elem_of_In.
    replace (length scores - 5)%nat with (3 + (length scores - 8))%nat in Hbottom by lia.
    rewrite <- drop_drop in Hbottom.
    apply in_map_iff in Hbottom as (entry & <- & Hentry). apply in_map.
    by apply In_drop in Hentry.
Qed.

End AggregateFacts.

(** ** Calibration analyzer on every log *)

Module CalibrationFacts.
Import ScoreOptimizer AnalyzerSpec AnalyzerFacts.









Lemma likertSummaries_In (Math_Sqrt : Q → Q) (items : list LikertItem)
    (responses : list ResponseRecord) (s : ItemSummary) :
  In s (likertSummaries Math_Sqrt items responses) ↔
  ∃ item records,
    In item items ∧
    TryGetValue
      (GroupBy ItemId
         (List.filter
            (fun r => existsb (fun l => String.eqb (li_Id l) (ItemId r)) items)
            responses))
      (li_Id item) = Some records ∧
    s = summarize (li_Id item) (li_Axis item) (li_PrimaryCategory item)
          (Average (List.map Value records))
          (sampleVariance (List.map Value records) (Average (List.map Value records)))
          match ItemTotalCorrelation Math_Sqrt (List.map Value records) responses
                  (li_Id item) with
          | Some c => Clamp (1 + c * (1 # 2)) (4 # 10) (16 # 10)
          | None => 1
          end
          (ItemTotalCorrelation Math_Sqrt (List.map Value records) responses (li_Id item))
          records.
Proof.
  unfold likertSummaries. rewrite in_flat_map. split.
  - intros (item & Hitem & Hin).
    destruct (TryGetValue _ (li_Id item)) as [records|] eqn:Hget; [|done].
    destruct Hin as [<-|[]]. by exists item, records.
  - intros (item & records & Hitem & Hget & ->). exists item. split; [done|].
    rewrite Hget. by left.
Qed.





(** *** Which items are reported *)

Lemma nonEmpty_filter {A : Type} (f : A → bool) (l : list A) :
  match nonEmpty (List.filter f l) with
  | Some records => existsb f l = true ∧ records = List.filter f l
  | None => existsb f l = false
  end.
Proof.
  induction l as [|a l IH]; simpl; [done|].
  destruct (f a) eqn:Hf; simpl; [done|].
  destruct (nonEmpty (List.filter f l)); done.
Qed.

Lemma likertGroups_lookup (items : list LikertItem) (responses : list ResponseRecord)
    (item : LikertItem) :
  In item items →
  TryGetValue
    (GroupBy ItemId
       (List.filter
          (fun r => existsb (fun l => String.eqb (li_Id l) (ItemId r)) items)
          responses))
    (li_Id item)
  = nonEmpty (List.filter (fun r => String.eqb (ItemId r) (li_Id item)) responses).
Proof.
  intros Hitem.
  rewrite (itemGroups_lookup
             (fun id => existsb (fun l => String.eqb (li_Id l) id) items)).
  replace (existsb _ items) with true; [done|].
  symmetry. apply existsb_exists. exists item. split; [done|]. apply String.eqb_refl.
Qed.

(** X18.  The Likert report holds exactly one summary for every catalog
    item that has a response, in catalog order, and the forced-choice
    report one for every option with a response under its composite id, in
    the order of the catalog and of each item's options; responses under
    other ids add no summary. *)
Theorem summaries_follow_catalog (Math_Sqrt : Q → Q) (likertItems : list LikertItem)
    (forcedChoiceItems : list ChoiceItem) (responses : list ResponseRecord) :
  List.map is_ItemId (fst (AnalyzeLikert Math_Sqrt likertItems responses))
  = List.map li_Id
      (List.filter
         (fun item => existsb (fun r => String.eqb (ItemId r) (li_Id item)) responses)
         likertItems) ∧
  List.map is_ItemId (AnalyzeForcedChoice forcedChoiceItems responses)
  = flat_map
      (fun item =>
         List.map (compositeIdOf item)
           (List.filter
              (fun option =>
                 existsb (fun r => String.eqb (ItemId r) (compositeIdOf item option))
                         responses)
              (ci_Options item)))
      forcedChoiceItems.
Proof.
  split.
  - cbn [AnalyzeLikert fst]. unfold likertSummaries.
    assert (Hgen : ∀ l, (∀ item, In item l → In item likertItems) →
      List.map is_ItemId
        (flat_map
           (fun item =>
              match
                TryGetValue
                  (GroupBy ItemId
                     (List.filter
                        (fun r => existsb (fun l => String.eqb (li_Id l) (ItemId r))
                                          likertItems)
                        responses))
                  (li_Id item)
              with
              | Some records =>
                  [summarize (li_Id item) (li_Axis item) (li_PrimaryCategory item)
                     (Average (List.map Value records))
                     (sampleVariance (List.map Value records)
                        (Average (List.map Value records)))
                     match ItemTotalCorrelation Math_Sqrt (List.map Value records)
                             responses (li_Id item) with
                     | Some c => Clamp (1 + c * (1 # 2)) (4 # 10) (16 # 10)
                     | None => 1
                     end
                     (ItemTotalCorrelation Math_Sqrt (List.map Value records) responses
                        (li_Id item))
                     records]
              | None => []
              end) l)
      = List.map li_Id
          (List.filter
             (fun item => existsb (fun r => String.eqb (ItemId r) (li_Id item)) responses)
             l)).
    { induction l as [|item l IH]; intros Hsub; [done|].
      cbn [flat_map List.filter]. rewrite List.map_app, IH by (intros; apply Hsub; by right).
      rewrite likertGroups_lookup by (apply Hsub; by left).
      pose proof (nonEmpty_filter (fun r => String.eqb (ItemId r) (li_Id item)) responses)
        as Hne.
      destruct (nonEmpty _) as [records|]; [destruct Hne as [-> _]|rewrite Hne]; done. }
    by apply Hgen.
  - unfold AnalyzeForcedChoice, optionSummaries.
    induction forcedChoiceItems as [|item items IH]; [done|].
    cbn [flat_map]. rewrite List.map_app, IH. f_equal.
    induction (ci_Options item) as [|option options IHo]; [done|].
    cbn [flat_map List.filter]. rewrite List.map_app, IHo.
    rewrite (itemGroups_lookup (Contains "|")).
    unfold compositeIdOf at 1. rewrite Contains_composite.
    pose proof (nonEmpty_filter
                  (fun r => String.eqb (ItemId r) (compositeIdOf item option)) responses)
      as Hne.
    destruct (nonEmpty _) as [records|]; [destruct Hne as [-> _]|rewrite Hne]; done.
Qed.

(** X19.  A Likert item with fewer than three responses is reported with
    the recommended weight 1 and without an item-total correlation. *)
Theorem few_responses_weight_one (Math_Sqrt : Q → Q) (items : list LikertItem)
    (responses : list ResponseRecord) (s : ItemSummary) :
  In s (fst (AnalyzeLikert Math_Sqrt items responses)) →
  (length (valuesOf responses (is_ItemId s)) < 3)%nat →
  is_RecommendedWeight s = 1 ∧ is_ItemTotalCorrelation s = None.
Proof.
  intros Hin Hfew. cbn [AnalyzeLikert fst] in Hin.
  apply likertSummaries_In in Hin as (item & records & Hitem & Hget & ->).
  cbn [summarize is_ItemId is_RecommendedWeight is_ItemTotalCorrelation] in *.
  rewrite likertGroups_lookup in Hget by done.
  pose proof (nonEmpty_filter (fun r => String.eqb (ItemId r) (li_Id item)) responses)
    as Hne.
  rewrite Hget in Hne. destruct Hne as [_ ->].
  fold (valuesOf responses (li_Id item)).
  assert (Hnone : ItemTotalCorrelation Math_Sqrt (valuesOf responses (li_Id item))
                    responses (li_Id item) = None).
  { unfold ItemTotalCorrelation. replace (Count _ <? 3)%Z with true; [done|].
    symmetry. apply Z.ltb_lt. unfold Count. lia. }
  by rewrite Hnone.
Qed.

Lemma few_responses_weight_one_witness :
  fst (AnalyzeLikert AnalyzerExample.integerSqrt AnalyzerExample.likertItems
         AnalyzerExample.unratedLog) ≠ [] ∧
  Forall (fun s => is_RecommendedWeight s = 1)
    (fst (AnalyzeLikert AnalyzerExample.integerSqrt AnalyzerExample.likertItems
            AnalyzerExample.unratedLog)).
Proof.
  split; [vm_compute; discriminate|].
  apply List.Forall_forall. intros s Hs.
  apply (few_responses_weight_one AnalyzerExample.integerSqrt
           AnalyzerExample.likertItems AnalyzerExample.unratedLog s Hs).
  destruct Hs as [<-|[]]. vm_compute. lia.
Defined.

End CalibrationFacts.

(** ** Weight applier: what a run leaves behind *)

Module ApplierFacts.
Import ScoreOptimizer WeightApplier WeightApplierFacts AssocFacts.
Local Open Scope string_scope.

Lemma FirstOrDefault_replace (predicate : JsonNode → result bool)
    (nodes : list JsonNode) (start i : nat) (node node' : JsonNode) :
  FirstOrDefault predicate nodes start = Ok (Some (i, node)) →
  predicate node' = Ok true →
  FirstOrDefault predicate (<[(i - start)%nat := node']> nodes) start
  = Ok (Some (i, node')).
Proof.
  intros Hfound Hnew. revert start Hfound.
  induction nodes as [|n rest IH]; intros start Hfound; [done|].
  cbn [FirstOrDefault] in Hfound.
  destruct (predicate n) as [[|]|] eqn:Hp; cbn [bind] in Hfound; [| |done].
  - injection Hfound as <- <-. rewrite Nat.sub_diag. cbn. by rewrite Hnew.
  - pose proof (FirstOrDefault_found _ _ _ _ _ Hfound) as (Hle & _ & _).
    replace (i - start)%nat with (S (i - S start)) by lia.
    cbn. rewrite Hp. cbn. by apply IH.
Qed.

Lemma hasString_setProperty (name wanted other : string) (value node : JsonNode) :
  other ≠ name →
  hasString name wanted (setProperty node other value) = hasString name wanted node.
Proof.
  intros Hne. destruct node; try done.
  unfold hasString. cbn. by rewrite assoc_get_set_ne.
Qed.

Lemma getProperty_object (node : JsonNode) (name : string)
    (properties : list (string * JsonNode)) :
  getProperty node name = Ok (JsonObject properties) ∨
  (∃ nodes, getProperty node name = Ok (JsonArray nodes)) →
  ∃ fields, node = JsonObject fields.
Proof.
  intros H. destruct node; cbn in H; try (by destruct H as [H|[? H]]).
  by eexists.
Qed.

Lemma getProperty_setProperty (fields : list (string * JsonNode)) (name : string)
    (value : JsonNode) :
  getProperty (setProperty (JsonObject fields) name value) name = Ok value.
Proof. cbn. by rewrite assoc_get_set_eq. Qed.

(** After a write the same summary is located at the same place, and the
    weight read there is the one written. *)
Lemma writeWeight_located (itemsArray : list JsonNode) (summary : ItemSummary)
    (t : Target) (weight : Q) :
  locate itemsArray summary = Ok (Some t) →
  ∃ t', locate (writeWeight itemsArray t weight) summary = Ok (Some t') ∧
        itemIndex t' = itemIndex t ∧ optionIndex t' = optionIndex t ∧
        currentWeightOf (primary t') = Ok weight.
Proof.
  unfold locate.
  destruct (split "|" (is_ItemId summary)) as [|itemId [|optionKey [|? ?]]]; try done.
  destruct (FirstOrDefault (hasString "id" itemId) itemsArray 0)
    as [[[i item]|]|] eqn:Hitem; cbn [bind]; try done.
  destruct (getProperty item "options") as [[| | | |options|]|] eqn:Hopts; cbn [bind];
    try done.
  destruct (FirstOrDefault (hasString "key" optionKey) options 0)
    as [[[j opt]|]|] eqn:Hopt; cbn [bind]; try done.
  destruct (getProperty opt "primary") as [[| | | | |prim]|] eqn:Hprim; cbn [bind];
    try done.
  intros [= <-]. unfold writeWeight. cbn [itemIndex itemNode optionsArray optionIndex
                                          optionNode primary].
  destruct (getProperty_object item "options" []) as [itemFields ->];
    [right; by eexists|].
  destruct (getProperty_object opt "primary" prim) as [optFields ->]; [by left|].
  pose proof (FirstOrDefault_found _ _ _ _ _ Hitem) as (_ & _ & Hid).
  pose proof (FirstOrDefault_found _ _ _ _ _ Hopt) as (_ & _ & Hkey).
  set (primary' := JsonObject (assoc_set "weight" (JsonNumber weight) prim)).
  set (option' := setProperty (JsonObject optFields) "primary" primary').
  set (item' := setProperty (JsonObject itemFields) "options"
                 (JsonArray (<[j := option']> options))).
  assert (Hid' : hasString "id" itemId item' = Ok true).
  { unfold item'. by rewrite hasString_setProperty. }
  assert (Hkey' : hasString "key" optionKey option' = Ok true).
  { unfold option'. by rewrite hasString_setProperty. }
  pose proof (FirstOrDefault_replace _ _ _ _ _ item' Hitem Hid') as Hitem'.
  pose proof (FirstOrDefault_replace _ _ _ _ _ option' Hopt Hkey') as Hopt'.
  rewrite Nat.sub_0_r in Hitem', Hopt'.
  rewrite Hitem'. cbn [bind].
  unfold item' at 1. rewrite getProperty_setProperty. cbn [bind]. cbv beta iota.
  rewrite Hopt'. cbn [bind]. cbv beta iota.
  unfold option' at 1. rewrite getProperty_setProperty. cbn [bind]. cbv beta iota.
  unfold primary'.
  eexists. split; [reflexivity|]. cbn [itemIndex optionIndex primary].
  split; [done|]. split; [done|].
  unfold currentWeightOf. by rewrite assoc_get_set_eq.
Qed.

Lemma writeWeight_length (itemsArray : list JsonNode) (t : Target) (weight : Q) :
  length (writeWeight itemsArray t weight) = length itemsArray.
Proof. unfold writeWeight. apply length_insert. Qed.

Lemma Qabs_self (x : Q) (tolerance : Q) : 0 < tolerance → Qabs (x - x) < tolerance.
Proof. intros Hpos. apply Qabs_Qlt_condition. split; lra. Qed.

(** X20.  A summary that is written and counted can be read back: it is
    located at the same item and option, the weight found there is the
    recommended weight, the count went up by one and the catalog kept its
    length. *)
Theorem written_weight_reads_back (tolerance : Q) (itemsArray itemsArray' : list JsonNode)
    (updated updated' : Z) (summary : ItemSummary) :
  applySummary tolerance (itemsArray, updated) summary = Ok (itemsArray', updated') →
  updated' ≠ updated →
  ∃ t', locate itemsArray' summary = Ok (Some t') ∧
        currentWeightOf (primary t') = Ok (is_RecommendedWeight summary) ∧
        updated' = (updated + 1)%Z ∧
        length itemsArray' = length itemsArray.
Proof.
  unfold applySummary.
  destruct (locate itemsArray summary) as [[t|]|] eqn:Hloc; cbn [bind]; try done.
  - destruct (currentWeightOf (primary t)) as [currentWeight|]; cbn [bind]; [|done].
    destruct (Qlt_le_dec _ tolerance); [by intros [= <- <-]|].
    intros [= <- <-] _.
    destruct (writeWeight_located _ _ _ (is_RecommendedWeight summary) Hloc)
      as (t' & Hloc' & _ & _ & Hweight).
    exists t'. split; [done|]. split; [done|]. split; [done|]. apply writeWeight_length.
  - by intros [= <- <-].
Qed.

(** X21.  With a positive tolerance, applying a summary a second time
    changes neither the catalog nor the count. *)
Theorem applySummary_idempotent (tolerance : Q) (itemsArray itemsArray' : list JsonNode)
    (updated updated' : Z) (summary : ItemSummary) :
  0 < tolerance →
  applySummary tolerance (itemsArray, updated) summary = Ok (itemsArray', updated') →
  applySummary tolerance (itemsArray', updated') summary = Ok (itemsArray', updated').
Proof.
  intros Hpos Hfirst. pose proof Hfirst as Hsame. unfold applySummary in Hfirst.
  destruct (locate itemsArray summary) as [[t|]|] eqn:Hloc; cbn [bind] in Hfirst;
    try done.
  - destruct (currentWeightOf (primary t)) as [currentWeight|] eqn:Hcur;
      cbn [bind] in Hfirst; [|done].
    destruct (Qlt_le_dec _ tolerance) as [Hlt|Hge].
    + injection Hfirst as <- <-. exact Hsame.
    + injection Hfirst as <- <-.
      destruct (writeWeight_located _ _ _ (is_RecommendedWeight summary) Hloc)
        as (t' & Hloc' & _ & _ & Hweight).
      apply (applySummary_within _ _ _ _ t' (is_RecommendedWeight summary));
        [done|done|]. by apply Qabs_self.
  - injection Hfirst as <- <-. exact Hsame.
Qed.

(** With a tolerance that is zero or negative, every summary that
    finds its option is written and counted, whatever weight the option
    already has. *)
Lemma nonpositive_tolerance_always_writes (tolerance : Q) (itemsArray : list JsonNode)
    (updated : Z) (summary : ItemSummary) (t : Target) (currentWeight : Q) :
  tolerance <= 0 →
  locate itemsArray summary = Ok (Some t) →
  currentWeightOf (primary t) = Ok currentWeight →
  applySummary tolerance (itemsArray, updated) summary
  = Ok (writeWeight itemsArray t (is_RecommendedWeight summary), (updated + 1)%Z).
Proof.
  intros Htol Hloc Hcur. apply (applySummary_beyond _ _ _ _ t currentWeight); [done|done|].
  apply Qle_trans with (y := 0); [done|apply Qabs_nonneg].
Qed.

Lemma applyAll_bounds (tolerance : Q) (summaries : list ItemSummary)
    (itemsArray itemsArray' : list JsonNode) (updated updated' : Z) :
  applyAll tolerance (itemsArray, updated) summaries = Ok (itemsArray', updated') →
  length itemsArray' = length itemsArray ∧
  (updated <= updated' <= updated + Z.of_nat (length summaries))%Z.
Proof.
  revert itemsArray updated.
  induction summaries as [|summary rest IH]; intros itemsArray updated Hrun.
  - injection Hrun as <- <-. cbn. lia.
  - cbn [applyAll] in Hrun.
    destruct (applySummary tolerance (itemsArray, updated) summary)
      as [[items1 updated1]|] eqn:Hstep; cbn [bind] in Hrun; [|done].
    destruct (IH _ _ Hrun) as [Hlen Hcount].
    assert (Hone : length items1 = length itemsArray ∧
                   (updated <= updated1 <= updated + 1)%Z).
    { unfold applySummary in Hstep.
      destruct (locate itemsArray summary) as [[t|]|]; cbn [bind] in Hstep; try done.
      - destruct (currentWeightOf (primary t)); cbn [bind] in Hstep; [|done].
        destruct (Qlt_le_dec _ tolerance); injection Hstep as <- <-.
        + lia.
        + rewrite writeWeight_length. lia.
      - injection Hstep as <- <-. lia. }
    cbn [length]. split; [lia|lia].
Qed.

(** X22.  A run that returns has written at most one weight per summary:
    the count lies between 0 and the number of summaries; the document
    written back is the one read with only its items replaced, by an array
    of the same length; and nothing is written when the file is missing or
    its items are not an array. *)
Theorem ApplyToFile_report (file : option JsonNode) (summaries : list ItemSummary)
    (tolerance : Q) (written : option JsonNode) (updated : Z) :
  ApplyToFile file summaries tolerance = Ok (written, updated) →
  (0 <= updated <= Z.of_nat (length summaries))%Z ∧
  match written with
  | None => updated = 0%Z
  | Some document =>
      ∃ root itemsArray itemsArray',
        file = Some root ∧
        getProperty root "items" = Ok (JsonArray itemsArray) ∧
        document = setProperty root "items" (JsonArray itemsArray') ∧
        length itemsArray' = length itemsArray
  end.
Proof.
  unfold ApplyToFile. destruct file as [root|]; [|intros [= <- <-]; lia].
  destruct (getProperty root "items") as [[| | | |itemsArray|]|] eqn:Hitems;
    cbn [bind]; try (intros [= <- <-]; lia); try done.
  destruct (applyAll tolerance (itemsArray, 0%Z) summaries)
    as [[itemsArray' updated']|] eqn:Hrun; cbn [bind]; [|done].
  intros [= <- <-]. apply applyAll_bounds in Hrun as [Hlen Hcount].
  split; [lia|]. by exists root, itemsArray, itemsArray'.
Qed.

Lemma written_weight_reads_back_witness :
  ∃ t', locate (WeightApplierExample.itemsOf (110 # 100))
          (WeightApplierExample.recommend "FC-01|A" (110 # 100)) = Ok (Some t') ∧
        currentWeightOf (primary t')
          = Ok (is_RecommendedWeight
                  (WeightApplierExample.recommend "FC-01|A" (110 # 100))) ∧
        1%Z = (0 + 1)%Z ∧
        length (WeightApplierExample.itemsOf (110 # 100))
          = length (WeightApplierExample.itemsOf 1).
Proof.
  apply (written_weight_reads_back defaultTolerance (WeightApplierExample.itemsOf 1)
           (WeightApplierExample.itemsOf (110 # 100)) 0 1
           (WeightApplierExample.recommend "FC-01|A" (110 # 100))).
  - reflexivity.
  - discriminate.
Defined.

Lemma applySummary_idempotent_witness :
  applySummary defaultTolerance (WeightApplierExample.itemsOf (110 # 100), 1%Z)
    (WeightApplierExample.recommend "FC-01|A" (110 # 100))
  = Ok (WeightApplierExample.itemsOf (110 # 100), 1%Z).
Proof.
  apply (applySummary_idempotent defaultTolerance (WeightApplierExample.itemsOf 1)
           (WeightApplierExample.itemsOf (110 # 100)) 0 1
           (WeightApplierExample.recommend "FC-01|A" (110 # 100))).
  - reflexivity.
  - reflexivity.
Defined.

Lemma nonpositive_tolerance_always_writes_witness :
  ∃ t, applySummary 0 (WeightApplierExample.itemsOf 1, 0%Z)
         (WeightApplierExample.recommend "FC-01|A" 1)
       = Ok (writeWeight (WeightApplierExample.itemsOf 1) t
               (is_RecommendedWeight (WeightApplierExample.recommend "FC-01|A" 1)),
             (0 + 1)%Z).
Proof.
  eexists.
  eapply (nonpositive_tolerance_always_writes 0 (WeightApplierExample.itemsOf 1) 0
            (WeightApplierExample.recommend "FC-01|A" 1)).
  - apply Qle_refl.
  - reflexivity.
  - reflexivity.
Defined.

Lemma ApplyToFile_report_witness :
  (0 <= 1 <= Z.of_nat (length [WeightApplierExample.recommend "FC-01|A" (110 # 100)]))%Z.
Proof.
  apply (ApplyToFile_report (Some (WeightApplierExample.catalog 1))
           [WeightApplierExample.recommend "FC-01|A" (110 # 100)] defaultTolerance
           (Some (WeightApplierExample.catalog (110 # 100))) 1).
  reflexivity.
Defined.

Lemma ApplyToFile_all_within_witness :
  ApplyToFile (Some (WeightApplierExample.catalog 1))
    [ WeightApplierExample.recommend "FC-01|A" (103 # 100);
      WeightApplierExample.recommend "FC-09|A" 2 ] defaultTolerance
  = Ok (Some (WeightApplierExample.catalog 1), 0%Z).
Proof.
  apply (ApplyToFile_all_within defaultTolerance
           [ ("version", JsonNumber 3);
             ("items", JsonArray (WeightApplierExample.itemsOf 1)) ]
           (WeightApplierExample.itemsOf 1)).
  - reflexivity.
  - constructor.
    + right. eexists _, _. split; [reflexivity|]. split; reflexivity.
    + constructor; [|constructor]. left. reflexivity.
Defined.

End ApplierFacts.

(** ** Forced-choice answers as they accumulate *)

Module ForcedAnswerFacts.
Import ForcedAnswers AssocFacts.
Local Open Scope string_scope.

Lemma append_injective (prefix a b : string) : prefix ++ a = prefix ++ b → a = b.
Proof.
  induction prefix as [|c prefix IH]; simpl; [done|].
  intros [= H]. by apply IH.
Qed.

(** X23.  Choosing a second option of a question does not replace the
    answer stored for the first: both entries are present afterwards, each
    under its own composite key; choosing the same option again (as the
    confidence slider does) overwrites its entry in place. *)
Theorem second_choice_keeps_first (question : ForcedChoiceQuestion)
    (first second : string) (c1 c2 : Q) (t1 t2 : option Q)
    (prev : list (string * ForcedAnswerState)) :
  (first ≠ second →
   let answers :=
     handleForcedAnswer question second c2 t2
       (handleForcedAnswer question first c1 t1 prev) in
   assoc_get (fq_id question ++ "|" ++ first) answers
     = Some {| fa_optionKey := first; fa_confidence := c1; fa_responseTimeMs := t1 |} ∧
   assoc_get (fq_id question ++ "|" ++ second) answers
     = Some {| fa_optionKey := second; fa_confidence := c2; fa_responseTimeMs := t2 |}) ∧
  (let once := handleForcedAnswer question first c1 t1 prev in
   let again := handleForcedAnswer question first c2 t2 once in
   List.map fst again = List.map fst once ∧
   assoc_get (fq_id question ++ "|" ++ first) again
     = Some {| fa_optionKey := first; fa_confidence := c2; fa_responseTimeMs := t2 |}).
Proof.
  unfold handleForcedAnswer. split.
  - intros Hne. cbv zeta. split.
    + rewrite assoc_get_set_ne; [apply assoc_get_set_eq|].
      intros Heq. apply append_injective in Heq. apply append_injective in Heq.
      by apply Hne.
    + apply assoc_get_set_eq.
  - cbv zeta. split; [|apply assoc_get_set_eq].
    rewrite assoc_set_keys. by rewrite assoc_get_set_eq.
Qed.

End ForcedAnswerFacts.

(** ** Response quality *)

Module QualityFacts.
Import ScoreOptimizer QualityReport AnalyzerFacts.

Lemma group_add_perm {A : Type} (key : string) (x : A)
    (groups : list (string * list A)) :
  Permutation (flat_map snd (group_add key x groups)) (flat_map snd groups ++ [x]).
Proof.
  induction groups as [|[k g] rest IH]; simpl; [done|].
  destruct (String.eqb k key); simpl.
  - rewrite <- !app_assoc. apply Permutation_app_head. apply Permutation_app_comm.
  - rewrite IH. by rewrite app_assoc.
Qed.

Lemma GroupBy_perm {A : Type} (key : A → string) (l : list A) :
  Permutation (flat_map snd (GroupBy key l)) l.
Proof.
  unfold GroupBy.
  assert (Hgen : ∀ groups,
            Permutation
              (flat_map snd (fold_left (fun groups x => group_add (key x) x groups) l groups))
              (flat_map snd groups ++ l)).
  { induction l as [|x l IH]; intros groups; simpl.
    - by rewrite app_nil_r.
    - rewrite IH, group_add_perm. by rewrite <- app_assoc. }
  apply (Hgen []).
Qed.

Lemma GroupBy_keys {A : Type} (key : A → string) (l : list A) (k : string) :
  In k (List.map fst (GroupBy key l)) ↔ ∃ x, In x l ∧ key x = k.
Proof.
  unfold GroupBy.
  assert (Hgen : ∀ groups,
            In k (List.map fst
                    (fold_left (fun groups x => group_add (key x) x groups) l groups)) ↔
            In k (List.map fst groups) ∨ ∃ x, In x l ∧ key x = k).
  { induction l as [|x l IH]; intros groups; simpl.
    - split; [by left|]. intros [H|(x & [] & _)]; done.
    - rewrite IH, group_add_keys. split.
      + intros [[->|H]|(y & Hy & Hk)]; [right; exists x; by split; [left|]|by left|].
        right. exists y. split; [by right|done].
      + intros [H|(y & [<-|Hy] & Hk)]; [left; by right|left; by left|].
        right. by exists y. }
  rewrite Hgen. simpl. split; [by intros [[]|H]|by right].
Qed.

Lemma filter_length_perm {A : Type} (p : A → bool) (l l' : list A) :
  Permutation l l' → length (List.filter p l) = length (List.filter p l').
Proof.
  induction 1 as [|x l l' _ IH|x y l|l l' l'' _ IH1 _ IH2]; simpl.
  - done.
  - destruct (p x); simpl; by rewrite IH.
  - destruct (p x), (p y); done.
  - by rewrite IH1.
Qed.

Lemma total_counts {A : Type} (p : A → bool) (groups : list (string * list A)) :
  total (List.map (fun '(key, group) => Count (List.filter p group)) groups)
  = Count (List.filter p (flat_map snd groups)).
Proof.
  induction groups as [|[k g] rest IH]; [done|].
  cbn [List.map flat_map snd total fold_right]. fold (total (List.map
    (fun '(key, group) => Count (List.filter p group)) rest)).
  rewrite IH, List.filter_app. unfold Count. rewrite List.length_app. lia.
Qed.

(** X24.  The quality report has one row per respondent of the log, each
    respondent once; the Likert counts of the rows add up to the number of
    log records under a Likert id, and the forced-choice counts to the
    number of records whose id starts with a forced-choice id and a bar. *)
Theorem respondents_partition_log (Math_Sqrt : Q → Q) (likertItems : list LikertItem)
    (forcedChoiceItems : list ChoiceItem) (responses : list ResponseRecord) :
  let rows := fst (AnalyzeQuality Math_Sqrt likertItems forcedChoiceItems responses) in
  List.NoDup (List.map rq_RespondentId rows) ∧
  (∀ id, In id (List.map rq_RespondentId rows) ↔
         ∃ r, In r responses ∧ RespondentId r = id) ∧
  total (List.map rq_LikertResponseCount rows)
    = Count (List.filter (isLikertResponse likertItems) responses) ∧
  total (List.map rq_ForcedChoiceCount rows)
    = Count (List.filter (isForcedResponse forcedChoiceItems) responses).
Proof.
  cbn [AnalyzeQuality fst]. cbv zeta.
  set (groups := GroupBy RespondentId responses).
  assert (Hids : List.map rq_RespondentId
                   (List.map (fun '(key, group) =>
                                respondentQuality Math_Sqrt likertItems forcedChoiceItems
                                  key group) groups)
                 = List.map fst groups).
  { rewrite List.map_map. apply List.map_ext. by intros [key group]. }
  rewrite Hids. split; [apply GroupBy_NoDup|]. split; [apply GroupBy_keys|].
  rewrite !List.map_map. split.
  - rewrite (List.map_ext _
               (fun '(key, group) =>
                  Count (List.filter (isLikertResponse likertItems) group))).
    + rewrite total_counts. unfold Count. f_equal.
      apply filter_length_perm, GroupBy_perm.
    + intros [key group]. cbn. unfold Count. by rewrite List.length_map.
  - rewrite (List.map_ext _
               (fun '(key, group) =>
                  Count (List.filter (isForcedResponse forcedChoiceItems) group))).
    + rewrite total_counts. unfold Count. f_equal.
      apply filter_length_perm, GroupBy_perm.
    + by intros [key group].
Qed.

(** *** Flags *)

Lemma Distinct_In (l : list Q) (w : Q) : In w (Distinct l) → In w l.
Proof.
  revert w. induction l as [|v l IH]; intros w; simpl; [done|].
  intros [->|Hin]; [by left|]. right. apply IH.
  by apply filter_In in Hin as [Hin _].
Qed.

Lemma Distinct_complete (l : list Q) (v : Q) :
  In v l → ∃ w, In w (Distinct l) ∧ w == v.
Proof.
  induction l as [|x l IH]; simpl; [done|].
  intros [->|Hin]; [exists v; split; [by left|reflexivity]|].
  destruct (IH Hin) as (w & Hw & Heq).
  destruct (Qeq_bool w x) eqn:Hwx.
  - apply Qeq_bool_iff in Hwx. exists x. split; [by left|].
    rewrite <- Hwx. exact Heq.
  - exists w. split; [|done]. right. apply filter_In. split; [done|]. by rewrite Hwx.
Qed.

Lemma StronglySorted_filter {A : Type} (R : A → A → Prop) (p : A → bool) (l : list A) :
  StronglySorted R l → StronglySorted R (List.filter p l).
Proof.
  induction 1 as [|x l Hsorted IH Hall]; simpl; [constructor|].
  destruct (p x); [|done]. constructor; [done|].
  apply List.Forall_forall. intros y Hy. apply filter_In in Hy as [Hy _].
  by apply (proj1 (List.Forall_forall _ _) Hall).
Qed.

Lemma Distinct_apart (l : list Q) :
  StronglySorted (fun a b => ¬ b == a) (Distinct l).
Proof.
  induction l as [|v l IH]; simpl; [constructor|].
  constructor; [by apply StronglySorted_filter|].
  apply List.Forall_forall. intros w Hw. apply filter_In in Hw as [_ Hw].
  apply negb_true_iff in Hw. intros Heq. apply Qeq_bool_iff in Heq. congruence.
Qed.

(** X25.  A respondent is flagged as a straightliner exactly when the log
    holds at least ten Likert responses of that respondent and these take
    at most two distinct values. *)
Theorem straightliner_meaning (Math_Sqrt : Q → Q) (likertItems : list LikertItem)
    (forcedChoiceItems : list ChoiceItem) (key : string) (group : list ResponseRecord) :
  rq_FlagStraightliner
    (respondentQuality Math_Sqrt likertItems forcedChoiceItems key group) = true ↔
  (10 <= length (List.filter (isLikertResponse likertItems) group))%nat ∧
  ∃ a b, ∀ r, In r group → isLikertResponse likertItems r = true →
              Value r == a ∨ Value r == b.
Proof.
  cbn [respondentQuality rq_FlagStraightliner].
  set (values := List.map Value (List.filter (isLikertResponse likertItems) group)).
  assert (Hvalues : ∀ v, In v values ↔
            ∃ r, In r group ∧ isLikertResponse likertItems r = true ∧ Value r = v).
  { intros v. unfold values. rewrite in_map_iff. split.
    - intros (r & Hv & Hr). apply filter_In in Hr as [Hr Hl]. by exists r.
    - intros (r & Hr & Hl & Hv). exists r. split; [done|]. by apply filter_In. }
  assert (Hlength : Count values = Z.of_nat (length (List.filter
                                     (isLikertResponse likertItems) group))).
  { unfold Count, values. by rewrite List.length_map. }
  rewrite andb_true_iff, Z.leb_le, Z.leb_le, Hlength.
  pose proof (Distinct_apart values) as Hapart.
  split.
  - intros [Hten Htwo]. split; [lia|].
    assert (Hcover : ∀ r, In r group → isLikertResponse likertItems r = true →
                          ∃ w, In w (Distinct values) ∧ w == Value r).
    { intros r Hr Hl. apply Distinct_complete. apply Hvalues. by exists r. }
    destruct (Distinct values) as [|a [|b [|c rest]]].
    + exists 0, 0. intros r Hr Hl. by destruct (Hcover r Hr Hl) as (w & [] & _).
    + exists a, a. intros r Hr Hl.
      destruct (Hcover r Hr Hl) as (w & [<-|[]] & Heq). left. by symmetry.
    + exists a, b. intros r Hr Hl.
      destruct (Hcover r Hr Hl) as (w & [<-|[<-|[]]] & Heq);
        [left|right]; by symmetry.
    + unfold Count in Htwo. cbn [length] in Htwo. lia.
  - intros [Hten (a & b & Hab)]. split; [lia|].
    assert (Hin : ∀ w, In w (Distinct values) → w == a ∨ w == b).
    { intros w Hw. apply Distinct_In, Hvalues in Hw as (r & Hr & Hl & <-).
      by apply Hab. }
    destruct (Distinct values) as [|x [|y [|z rest]]];
      try (unfold Count; cbn [length]; lia).
    exfalso.
    apply StronglySorted_inv in Hapart as [Hrest Hx].
    apply StronglySorted_inv in Hrest as [_ Hy].
    apply Forall_cons in Hx as [Hxy Hx]. apply Forall_cons in Hx as [Hxz _].
    apply Forall_cons in Hy as [Hyz _].
    destruct (Hin x) as [Hxa|Hxb]; [by left|..];
      (destruct (Hin y) as [Hya|Hyb]; [right; by left|..]);
      (destruct (Hin z) as [Hza|Hzb]; [right; right; by left|..]).
    all: first [ apply Hxy; by rewrite Hxa, Hya
               | apply Hxz; by rewrite Hxa, Hza
               | apply Hyz; by rewrite Hya, Hza
               | apply Hxy; by rewrite Hxb, Hyb
               | apply Hxz; by rewrite Hxb, Hzb
               | apply Hyz; by rewrite Hyb, Hzb ].
Qed.

Lemma GroupBy_group {A : Type} (key : A → string) (l : list A) (k : string)
    (group : list A) :
  In (k, group) (GroupBy key l) →
  group = List.filter (fun x => String.eqb (key x) k) l.
Proof.
  intros Hin. apply TryGetValue_In in Hin; [|apply GroupBy_NoDup].
  rewrite TryGetValue_GroupBy in Hin.
  by destruct (List.filter _ l); [|injection Hin as <-].
Qed.

Lemma presentValues_none {A : Type} (f : A → option Q) (l : list A) :
  (∀ x, In x l → f x = None) → presentValues f l = [].
Proof.
  intros Hnone. induction l as [|x l IH]; [done|].
  unfold presentValues in *. cbn. rewrite (Hnone x) by by left.
  apply IH. intros y Hy. apply Hnone. by right.
Qed.

Lemma filter_twice {A : Type} (p q : A → bool) (l : list A) :
  List.filter p (List.filter q l) = List.filter (fun x => q x && p x) l.
Proof.
  induction l as [|x l IH]; simpl; [done|].
  destruct (q x); simpl; [|done]. destruct (p x); by rewrite IH.
Qed.

(** X26.  A respondent for whom the log holds neither a response time nor
    a confidence, and fewer than ten Likert responses, is not among the
    flagged respondents. *)
Theorem quiet_respondent_not_flagged (Math_Sqrt : Q → Q) (likertItems : list LikertItem)
    (forcedChoiceItems : list ChoiceItem) (responses : list ResponseRecord)
    (id : string) :
  (∀ r, In r responses → RespondentId r = id →
        ResponseTimeMs r = None ∧ Confidence r = None) →
  (length (List.filter
             (fun r => String.eqb (RespondentId r) id && isLikertResponse likertItems r)
             responses) < 10)%nat →
  ∀ q, In q (snd (AnalyzeQuality Math_Sqrt likertItems forcedChoiceItems responses)) →
       rq_RespondentId q ≠ id.
Proof.
  intros Hquiet Hfew q Hq Hid. cbn [AnalyzeQuality snd] in Hq.
  apply filter_In in Hq as [Hq Hflag].
  apply in_map_iff in Hq as ([key group] & <- & Hgroup).
  cbn [respondentQuality rq_RespondentId] in Hid. subst key.
  apply GroupBy_group in Hgroup. 
  assert (Hmember : ∀ r, In r group → In r responses ∧ RespondentId r = id).
  { intros r Hr. rewrite Hgroup in Hr. apply filter_In in Hr as [Hr Heq].
    by apply String.eqb_eq in Heq. }
  cbn [respondentQuality rq_FlagStraightliner rq_FlagFastResponder
       rq_FlagLowConfidence] in Hflag.
  rewrite (presentValues_none ResponseTimeMs group) in Hflag.
  2: { intros r Hr. destruct (Hmember r Hr) as [Hin Heq]. by apply Hquiet. }
  rewrite (presentValues_none Confidence group) in Hflag.
  2: { intros r Hr. destruct (Hmember r Hr) as [Hin Heq]. by apply Hquiet. }
  cbn in Hflag. rewrite !orb_false_r in Hflag.
  apply andb_true_iff in Hflag as [Hten _]. apply Z.leb_le in Hten.
  unfold Count in Hten. rewrite List.length_map, Hgroup, filter_twice in Hten. lia.
Qed.

Lemma quiet_respondent_not_flagged_witness :
  snd (AnalyzeQuality AnalyzerExample.integerSqrt AnalyzerExample.likertItems
         [AnalyzerExample.plainQuestion] QualityExample.log) ≠ [] ∧
  Forall (fun q => rq_RespondentId q ≠ "r1"%string)
    (snd (AnalyzeQuality AnalyzerExample.integerSqrt AnalyzerExample.likertItems
            [AnalyzerExample.plainQuestion] QualityExample.log)).
Proof.
  split; [vm_compute; discriminate|].
  apply List.Forall_forall.
  apply (quiet_respondent_not_flagged AnalyzerExample.integerSqrt
           AnalyzerExample.likertItems [AnalyzerExample.plainQuestion]
           QualityExample.log "r1"%string).
  - intros r [<-|[<-|[<-|[]]]] Hid; done.
  - vm_compute. lia.
Defined.

End QualityFacts.

(** ** The adaptive selector over binary64 numbers *)

Module Binary64Facts.
Import Binary64.

(** *** The IEEE order on integers *)

(** A mantissa of d binary digits lies in [2^(d-1), 2^d). *)
Lemma digits_bounds (m : BinNums.positive) :
  (2 ^ (Zpos (digits2_pos m) - 1) <= Zpos m < 2 ^ Zpos (digits2_pos m))%Z.
Proof.
  induction m as [m IH|m IH|]; cbn [digits2_pos].
  - rewrite Pos2Z.inj_succ, Pos2Z.inj_xI.
    replace (Z.succ (Z.pos (digits2_pos m)) - 1)%Z
      with (Z.succ (Z.pos (digits2_pos m) - 1)) by lia.
    rewrite !Z.pow_succ_r by lia.
    generalize dependent (2 ^ (Z.pos (digits2_pos m) - 1))%Z.
    generalize dependent (2 ^ Z.pos (digits2_pos m))%Z. intros; lia.
  - rewrite Pos2Z.inj_succ. change (Z.pos m~0) with (2 * Z.pos m)%Z.
    replace (Z.succ (Z.pos (digits2_pos m)) - 1)%Z
      with (Z.succ (Z.pos (digits2_pos m) - 1)) by lia.
    rewrite !Z.pow_succ_r by lia.
    generalize dependent (2 ^ (Z.pos (digits2_pos m) - 1))%Z.
    generalize dependent (2 ^ Z.pos (digits2_pos m))%Z. intros; lia.
  - done.
Qed.

(** A mantissa and exponent of the format: at most 53 digits, exponent at
    least -1074, and exactly 53 digits unless the exponent is the least. *)
Lemma bounded_inv (m : BinNums.positive) (e : Z) :
  bounded prec emax m e = true →
  (-1074 <= e ∧ Zpos (digits2_pos m) <= 53 ∧
   (e = -1074 ∨ Zpos (digits2_pos m) = 53))%Z.
Proof.
  unfold bounded, canonical_mantissa, fexp, SpecFloat.emin, prec, emax.
  intros H. apply andb_true_iff in H as [H _]. apply Z.eqb_eq in H. lia.
Qed.

(** Magnitudes of the format compare first by exponent, then by mantissa. *)
Lemma magnitude_compare (m1 m2 : BinNums.positive) (e1 e2 : Z) :
  bounded prec emax m1 e1 = true → bounded prec emax m2 e2 = true →
  (Zpos m1 * 2 ^ (e1 + 1074) ?= Zpos m2 * 2 ^ (e2 + 1074))%Z
  = match (e1 ?= e2)%Z with
    | Lt => Lt
    | Gt => Gt
    | Eq => Pos.compare_cont Eq m1 m2
    end.
Proof.
  intros H1 H2. apply bounded_inv in H1 as (Hmin1 & Hd1 & Hc1).
  apply bounded_inv in H2 as (Hmin2 & Hd2 & Hc2).
  pose proof (digits_bounds m1) as Hb1. pose proof (digits_bounds m2) as Hb2.
  assert (Hpow : ∀ (n1 n2 : BinNums.positive) a b, (0 <= a < b)%Z →
            (Zpos n1 < 2 ^ 53 → 2 ^ 52 <= Zpos n2 →
             Zpos n1 * 2 ^ a < Zpos n2 * 2 ^ b)%Z).
  { clear. intros m1 m2 a b Hab Hm1 Hm2.
    replace b with (a + (b - a))%Z by lia. rewrite Z.pow_add_r by lia.
    assert (0 < 2 ^ a)%Z by (apply Z.pow_pos_nonneg; lia).
    assert (2 ^ 1 <= 2 ^ (b - a))%Z by (apply Z.pow_le_mono_r; lia).
    change (2 ^ 1)%Z with 2%Z in *. change (2 ^ 53)%Z with (2 * 2 ^ 52)%Z in Hm1.
    generalize dependent (2 ^ 52)%Z. generalize dependent (2 ^ a)%Z.
    generalize dependent (2 ^ (b - a))%Z. intros B HB A HA K HK1 HK2.
    assert (Z.pos m1 * A < 2 * Z.pos m2 * A)%Z by (apply Z.mul_lt_mono_pos_r; lia).
    assert (2 * (Z.pos m2 * A) <= B * (Z.pos m2 * A))%Z
      by (apply Z.mul_le_mono_nonneg_r; lia).
    lia. }
  assert (Hd : ∀ m, (Zpos (digits2_pos m) <= 53 → Zpos m < 2 ^ 53)%Z).
  { intros m Hd. eapply Z.lt_le_trans; [apply digits_bounds|].
    apply Z.pow_le_mono_r; lia. }
  assert (Hn : ∀ m, (Zpos (digits2_pos m) = 53 → 2 ^ 52 <= Zpos m)%Z).
  { intros m Hn. pose proof (digits_bounds m) as Hb. rewrite Hn in Hb. apply Hb. }
  destruct (Z.compare_spec e1 e2) as [->|Hlt|Hgt].
  - assert (0 < 2 ^ (e2 + 1074))%Z by (apply Z.pow_pos_nonneg; lia).
    change (Pos.compare_cont Eq m1 m2) with (Z.pos m1 ?= Z.pos m2)%Z.
    destruct (Z.compare_spec (Z.pos m1) (Z.pos m2)) as [->|Hm|Hm].
    + apply Z.compare_refl.
    + apply Z.compare_lt_iff. by apply Z.mul_lt_mono_pos_r.
    + apply Z.compare_gt_iff. by apply Z.mul_lt_mono_pos_r.
  - apply Z.compare_lt_iff. apply Hpow; [lia|apply Hd; lia|apply Hn; lia].
  - apply Z.compare_gt_iff.
    apply (Hpow m2 m1); [lia|apply Hd; lia|apply Hn; lia].
Qed.

(** The IEEE comparison of two finite values is the comparison of their
    places on the integer line. *)
Lemma scaled_compare (x y : spec_float) :
  valid_binary x = true → valid_binary y = true →
  isNumber x = true → isNumber y = true →
  SFcompare x y = Some (scaled x ?= scaled y)%Z.
Proof.
  intros Hx Hy Hnx Hny.
  destruct x as [sx|sx| |sx mx ex]; try done;
    destruct y as [sy|sy| |sy my ey]; try done; cbn [SFcompare scaled].
  - assert (0 < Zpos my * 2 ^ (ey + 1074))%Z.
    { apply bounded_inv in Hy. apply Z.mul_pos_pos; [done|apply Z.pow_pos_nonneg; lia]. }
    destruct sy; cbn [cond_Zopp]; f_equal; symmetry;
      [apply Z.compare_gt_iff|apply Z.compare_lt_iff]; lia.
  - assert (0 < Zpos mx * 2 ^ (ex + 1074))%Z.
    { apply bounded_inv in Hx. apply Z.mul_pos_pos; [done|apply Z.pow_pos_nonneg; lia]. }
    destruct sx; cbn [cond_Zopp]; f_equal; symmetry;
      [apply Z.compare_lt_iff|apply Z.compare_gt_iff]; lia.
  - assert (Hpx : (0 < Zpos mx * 2 ^ (ex + 1074))%Z).
    { apply bounded_inv in Hx. apply Z.mul_pos_pos; [done|apply Z.pow_pos_nonneg; lia]. }
    assert (Hpy : (0 < Zpos my * 2 ^ (ey + 1074))%Z).
    { apply bounded_inv in Hy. apply Z.mul_pos_pos; [done|apply Z.pow_pos_nonneg; lia]. }
    pose proof (magnitude_compare mx my ex ey Hx Hy) as Hmag.
    destruct sx, sy; cbn [cond_Zopp]; f_equal.
    + rewrite Z.compare_opp,
        (Z.compare_antisym (Z.pos mx * 2 ^ (ex + 1074)) (Z.pos my * 2 ^ (ey + 1074))),
        Hmag.
      by destruct (ex ?= ey)%Z; [destruct (Pos.compare_cont Eq mx my)| |].
    + symmetry. apply Z.compare_lt_iff. lia.
    + symmetry. apply Z.compare_gt_iff. lia.
    + by rewrite Hmag.
Qed.

Lemma iter_pos_nat {A : Type} (f : A → A) (p : BinNums.positive) (x : A) :
  SpecFloat.iter_pos f p x = Nat.iter (Pos.to_nat p) f x.
Proof.
  revert x. induction p as [p IH|p IH|]; intros x; cbn [SpecFloat.iter_pos].
  - rewrite !IH, Pos2Nat.inj_xI, Nat.iter_succ_r.
    replace (2 * Pos.to_nat p)%nat with (Pos.to_nat p + Pos.to_nat p)%nat by lia.
    by rewrite Nat.iter_add.
  - rewrite !IH, Pos2Nat.inj_xO.
    replace (2 * Pos.to_nat p)%nat with (Pos.to_nat p + Pos.to_nat p)%nat by lia.
    by rewrite Nat.iter_add.
  - done.
Qed.

Lemma shr_keeps_positive (k : nat) (m : BinNums.positive) (r s : bool) :
  (Z.of_nat k < Zpos (digits2_pos m))%Z →
  ∃ m' r' s', Nat.iter k shr_1 {| shr_m := Zpos m; shr_r := r; shr_s := s |}
              = {| shr_m := Zpos m'; shr_r := r'; shr_s := s' |}.
Proof.
  revert m r s. induction k as [|k IH]; intros m r s Hk; [by eexists _, _, _|].
  rewrite Nat.iter_succ_r.
  destruct m as [p|p|]; cbn [shr_1 digits2_pos] in *.
  - apply IH. lia.
  - apply IH. lia.
  - lia.
Qed.

Lemma shr_fexp_positive (m : BinNums.positive) (e : Z) (l : location) :
  (-1074 <= e)%Z →
  ∃ m' r s e',
    shr_fexp prec emax (Zpos m) e l
    = ({| shr_m := Zpos m'; shr_r := r; shr_s := s |}, e') ∧ (-1074 <= e')%Z.
Proof.
  intros He. unfold shr_fexp, shr.
  assert (Hrecord : ∃ r0 s0, shr_record_of_loc (Zpos m) l
                             = {| shr_m := Zpos m; shr_r := r0; shr_s := s0 |}).
  { destruct l as [|[]]; by eexists _, _. }
  destruct Hrecord as (r0 & s0 & ->).
  destruct (fexp prec emax (Zdigits2 (Z.pos m) + e) - e)%Z as [|p|p] eqn:Hshift.
  - by eexists _, _, _, _.
  - rewrite iter_pos_nat.
    destruct (shr_keeps_positive (Pos.to_nat p) m r0 s0) as (m' & r & s & ->).
    { rewrite positive_nat_Z. cbn [Zdigits2] in Hshift.
      unfold fexp, SpecFloat.emin, prec, emax in Hshift. lia. }
    eexists _, _, _, _. split; [reflexivity|]. lia.
  - by eexists _, _, _, _.
Qed.

Lemma round_nearest_even_positive (m : BinNums.positive) (l : location) :
  ∃ m', round_nearest_even (Zpos m) l = Zpos m'.
Proof.
  destruct l as [|[]]; cbn [round_nearest_even]; try by eexists.
  destruct (Z.even (Z.pos m)); by eexists.
Qed.

(** Rounding a non-zero magnitude gives a non-zero value of the same sign,
    or the infinity of that sign: nothing is rounded to zero, because the
    exponent never goes below the least one of the format. *)
Lemma binary_round_aux_sign (sx : bool) (m : BinNums.positive) (e : Z) (l : location) :
  (-1074 <= e)%Z →
  (∃ m' e', binary_round_aux prec emax sx (Zpos m) e l = S754_finite sx m' e') ∨
  binary_round_aux prec emax sx (Zpos m) e l = S754_infinity sx.
Proof.
  intros He. unfold binary_round_aux.
  destruct (shr_fexp_positive m e l He) as (m1 & r1 & s1 & e1 & -> & He1).
  cbn [shr_m].
  destruct (round_nearest_even_positive m1
              (loc_of_shr_record {| shr_m := Z.pos m1; shr_r := r1; shr_s := s1 |}))
    as (m2 & ->).
  destruct (shr_fexp_positive m2 e1 loc_Exact He1) as (m3 & r3 & s3 & e3 & -> & He3).
  cbn [shr_m]. destruct (e3 <=? emax - prec)%Z; [left; by eexists _, _|by right].
Qed.

Lemma binary_normalize_sign (d e : Z) :
  (-1074 <= e)%Z →
  SFcompare (S754_zero false) (binary_normalize prec emax d e false)
  = Some (0 ?= d)%Z.
Proof.
  intros He.
  assert (Hround : ∀ sx m,
            (∃ m' e', binary_round prec emax sx m e = S754_finite sx m' e') ∨
            binary_round prec emax sx m e = S754_infinity sx).
  { intros sx m. unfold binary_round.
    destruct (shl_align m e (fexp prec emax (Z.pos (digits2_pos m) + e)))
      as [mz ez] eqn:Halign.
    apply binary_round_aux_sign.
    unfold shl_align in Halign.
    destruct (fexp prec emax (Z.pos (digits2_pos m) + e) - e)%Z eqn:Hd;
      injection Halign as <- <-; try done.
    unfold fexp, SpecFloat.emin, prec, emax. lia. }
  destruct d as [|m|m]; cbn [binary_normalize]; [done|..].
  - destruct (Hround false m) as [(m' & e' & ->)| ->]; done.
  - destruct (Hround true m) as [(m' & e' & ->)| ->]; done.
Qed.

Lemma iter_xO_value (m p : BinNums.positive) :
  Zpos (Pos.iter xO m p) = (Zpos m * 2 ^ Zpos p)%Z.
Proof.
  induction p as [|p IH] using Pos.peano_ind.
  - cbn. lia.
  - rewrite Pos.iter_succ, Pos2Z.inj_succ, Z.pow_succ_r by lia.
    change (Z.pos (Pos.iter xO m p)~0) with (2 * Z.pos (Pos.iter xO m p))%Z.
    rewrite IH. lia.
Qed.

Lemma shl_align_value (m : BinNums.positive) (e e' : Z) :
  (e' <= e)%Z →
  Zpos (fst (shl_align m e e')) = (Zpos m * 2 ^ (e - e'))%Z.
Proof.
  intros Hle. unfold shl_align.
  destruct (e' - e)%Z as [|p|p] eqn:Hd; cbn [fst].
  - replace (e - e')%Z with 0%Z by lia. lia.
  - lia.
  - rewrite iter_xO_value. f_equal. f_equal. lia.
Qed.

(** The sign of a difference of finite values is the order of the
    operands: a difference of distinct values is never rounded to zero. *)
Lemma SFsub_sign (x y : spec_float) :
  valid_binary x = true → valid_binary y = true →
  isNumber x = true → isNumber y = true →
  SFcompare (S754_zero false) (SF64sub y x) = SFcompare x y.
Proof.
  intros Hx Hy Hnx Hny. rewrite (scaled_compare x y) by done.
  destruct x as [sx|sx| |sx mx ex]; try done;
    destruct y as [sy|sy| |sy my ey]; try done.
  - by destruct sx, sy.
  - unfold SF64sub. cbn [SFsub SFcompare scaled]. apply bounded_inv in Hy.
    assert (0 < Zpos my * 2 ^ (ey + 1074))%Z
      by (apply Z.mul_pos_pos; [done|apply Z.pow_pos_nonneg; lia]).
    destruct sy; cbn [cond_Zopp]; f_equal; symmetry;
      [apply Z.compare_gt_iff|apply Z.compare_lt_iff]; lia.
  - unfold SF64sub. cbn [SFsub SFcompare scaled negb]. apply bounded_inv in Hx.
    assert (0 < Zpos mx * 2 ^ (ex + 1074))%Z
      by (apply Z.mul_pos_pos; [done|apply Z.pow_pos_nonneg; lia]).
    destruct sx; cbn [cond_Zopp negb]; f_equal; symmetry;
      [apply Z.compare_lt_iff|apply Z.compare_gt_iff]; lia.
  - unfold SF64sub, SFsub. cbv zeta.
    pose proof (bounded_inv _ _ Hx) as (Hex & _ & _).
    pose proof (bounded_inv _ _ Hy) as (Hey & _ & _).
    rewrite binary_normalize_sign by lia. f_equal.
    rewrite !shl_align_value by lia. cbn [scaled].
    set (ez := Z.min ey ex).
    assert (Hp : (0 < 2 ^ (ez + 1074))%Z) by (apply Z.pow_pos_nonneg; lia).
    assert (Hsx : (Zpos mx * 2 ^ (ex + 1074)
                   = Zpos mx * 2 ^ (ex - ez) * 2 ^ (ez + 1074))%Z).
    { rewrite <- Z.mul_assoc, <- Z.pow_add_r by lia. f_equal. f_equal. lia. }
    assert (Hsy : (Zpos my * 2 ^ (ey + 1074)
                   = Zpos my * 2 ^ (ey - ez) * 2 ^ (ez + 1074))%Z).
    { rewrite <- Z.mul_assoc, <- Z.pow_add_r by lia. f_equal. f_equal. lia. }
    rewrite Hsx, Hsy.
    generalize dependent (2 ^ (ez + 1074))%Z.
    generalize (Z.pos mx * 2 ^ (ex - ez))%Z (Z.pos my * 2 ^ (ey - ez))%Z.
    intros a b P HP _ _.
    assert (Hscale : ∀ s v, (cond_Zopp s (v * P) = cond_Zopp s v * P)%Z)
      by (intros [] v; cbn; lia).
    rewrite !Hscale.
    generalize (cond_Zopp sx a) (cond_Zopp sy b). intros u v.
    destruct (Z.compare_spec u v) as [->|Hlt|Hgt].
    + rewrite Z.sub_diag. symmetry. apply Z.compare_refl.
    + transitivity Lt; [apply Z.compare_lt_iff; lia|].
      symmetry. apply Z.compare_lt_iff. by apply Z.mul_lt_mono_pos_r.
    + transitivity Gt; [apply Z.compare_gt_iff; lia|].
      symmetry. apply Z.compare_gt_iff. by apply Z.mul_lt_mono_pos_r.
Qed.

(** Every finite magnitude lies below the place of the infinities. *)
Lemma scaled_bound (m : BinNums.positive) (e : Z) :
  bounded prec emax m e = true →
  (0 < Zpos m * 2 ^ (e + 1074) < 2 ^ 2098)%Z.
Proof.
  intros H. pose proof (bounded_inv _ _ H) as (Hmin & Hd & _).
  unfold bounded in H. apply andb_true_iff in H as [_ Hmax].
  apply Z.leb_le in Hmax. unfold prec, emax in Hmax.
  assert (Hm : (Zpos m < 2 ^ 53)%Z).
  { eapply Z.lt_le_trans; [apply digits_bounds|]. apply Z.pow_le_mono_r; lia. }
  assert (Hp : (0 < 2 ^ (e + 1074))%Z) by (apply Z.pow_pos_nonneg; lia).
  assert (He : (2 ^ (e + 1074) <= 2 ^ 2045)%Z) by (apply Z.pow_le_mono_r; lia).
  split; [by apply Z.mul_pos_pos|].
  change (2 ^ 2098)%Z with (2 ^ 53 * 2 ^ 2045)%Z.
  apply Z.le_lt_trans with (Zpos m * 2 ^ 2045)%Z.
  - apply Z.mul_le_mono_nonneg_l; lia.
  - apply Z.mul_lt_mono_pos_r; [apply Z.pow_pos_nonneg; lia|done].
Qed.

Lemma ordered_compare (x y : spec_float) :
  valid_binary x = true → valid_binary y = true →
  ordered x = true → ordered y = true →
  SFcompare x y = Some (scaled x ?= scaled y)%Z.
Proof.
  intros Hx Hy Hox Hoy.
  destruct (isNumber x) eqn:Hnx, (isNumber y) eqn:Hny;
    [by apply scaled_compare|..];
    destruct x as [sx|sx| |sx mx ex]; try done;
    destruct y as [sy|sy| |sy my ey]; try done;
    cbn [SFcompare scaled].
  - by destruct sy.
  - pose proof (scaled_bound _ _ Hx) as Hb.
    generalize dependent (Zpos mx * 2 ^ (ex + 1074))%Z. intros v Hb.
    destruct sx, sy; cbn [cond_Zopp]; f_equal; symmetry;
      first [apply Z.compare_lt_iff; lia|apply Z.compare_gt_iff; lia].
  - by destruct sx.
  - pose proof (scaled_bound _ _ Hy) as Hb.
    generalize dependent (Zpos my * 2 ^ (ey + 1074))%Z. intros v Hb.
    destruct sx, sy; cbn [cond_Zopp]; f_equal; symmetry;
      first [apply Z.compare_lt_iff; lia|apply Z.compare_gt_iff; lia].
  - by destruct sx, sy.
Qed.

Lemma SFltb_sub (x y : spec_float) :
  valid_binary x = true → valid_binary y = true →
  ordered x = true → ordered y = true →
  SFltb (S754_zero false) (SF64sub y x) = SFltb x y.
Proof.
  intros Hx Hy Hox Hoy. unfold SFltb.
  destruct (isNumber x) eqn:Hnx, (isNumber y) eqn:Hny;
    [by rewrite SFsub_sign|..];
    destruct x as [sx|sx| |sx mx ex]; try done;
    destruct y as [sy|sy| |sy my ey]; try done;
    try by destruct sx, sy.
Qed.

Lemma Prim2SF_ordered (x : float) :
  is_nan x = false → ordered (Prim2SF x) = true.
Proof.
  intros H. unfold Prim2SF. rewrite H.
  destruct (is_zero x); [done|]. destruct (is_infinity x); [done|].
  destruct (Z.frexp x) as [r exp].
  destruct (shr_fexp _ _ _ _ _) as [shr e']. by destruct (shr_m shr).
Qed.

Lemma ltb_orderKey (x y : float) :
  is_nan x = false → is_nan y = false →
  (x <? y)%float = (orderKey x <? orderKey y)%Z.
Proof.
  intros Hx Hy. rewrite ltb_spec. unfold SFltb, orderKey, Z.ltb.
  by rewrite ordered_compare
    by auto using Prim2SF_valid, Prim2SF_ordered.
Qed.

Lemma leb_orderKey (x y : float) :
  is_nan x = false → is_nan y = false →
  (x <=? y)%float = (orderKey x <=? orderKey y)%Z.
Proof.
  intros Hx Hy. rewrite leb_spec. unfold SFleb, orderKey, Z.leb.
  rewrite ordered_compare by auto using Prim2SF_valid, Prim2SF_ordered.
  by destruct (_ ?= _)%Z.
Qed.

(** [y - x > 0] exactly when [x < y], for operands that are not
    not-a-number: the comparator [b.info - a.info] follows the IEEE order
    of the gains.  A difference of two equal infinities is a not-a-number,
    which is not greater than zero. *)
Lemma difference_positive (x y : float) :
  is_nan x = false → is_nan y = false →
  (0 <? y - x)%float = (orderKey x <? orderKey y)%Z.
Proof.
  intros Hx Hy. rewrite <- ltb_orderKey by done.
  rewrite !ltb_spec, sub_spec.
  change (Prim2SF 0) with (S754_zero false).
  apply SFltb_sub; auto using Prim2SF_valid, Prim2SF_ordered.
Qed.

(** *** The stable sort under a comparator that follows an integer key *)

Lemma insert_head_b64 {A : Type} (cmp : A → A → float) (x : A) (l : list A) :
  head (sort_insert cmp x l) =
  match head l with
  | None => Some x
  | Some y => if (0 <? cmp x y)%float then Some y else Some x
  end.
Proof.
  destruct l as [|y l']; cbn [sort_insert head]; [done|].
  by destruct (0 <? cmp x y)%float.
Qed.

(** The head of the sorted list is the first element of maximal key. *)
Lemma js_sort_first_max {A : Type} (cmp : A → A → float) (key : A → Z)
    (l : list A) :
  (∀ a b, a ∈ l → b ∈ l → (0 <? cmp a b)%float = (key a <? key b)%Z) →
  l ≠ [] →
  ∃ m before after,
    head (js_sort cmp l) = Some m ∧ l = before ++ m :: after ∧
    (∀ y, y ∈ before → (key y < key m)%Z) ∧
    (∀ y, y ∈ after → (key y <= key m)%Z).
Proof.
  induction l as [|x l' IH]; [done|]. intros Hcmp _. cbn [js_sort].
  rewrite insert_head_b64.
  destruct l' as [|x' l''].
  - exists x, [], []. cbn. split; [done|]. split; [done|].
    split; intros y Hy; by apply elem_of_nil in Hy.
  - destruct IH as (m & before & after & Hm & Hl & Hb & Ha); [|done|].
    { intros a b Ha Hb. apply Hcmp; by apply list_elem_of_further. }
    rewrite Hm. cbn [head].
    assert (Hin : m ∈ x :: x' :: l'').
    { apply list_elem_of_further. rewrite Hl.
      apply elem_of_app. right. apply list_elem_of_here. }
    rewrite (Hcmp x m (list_elem_of_here _ _) Hin).
    destruct (Z.ltb_spec (key x) (key m)) as [Hlt|Hle].
    + exists m, (x :: before), after. split; [done|].
      split; [by rewrite Hl|]. split; [|done].
      intros y Hy. apply elem_of_cons in Hy as [->|Hy]; [done|by apply Hb].
    + exists x, [], (x' :: l''). split; [done|]. split; [done|].
      split; [intros y Hy; by apply elem_of_nil in Hy|].
      intros y Hy. rewrite Hl in Hy.
      apply elem_of_app in Hy as [Hy|Hy].
      * specialize (Hb y Hy). lia.
      * apply elem_of_cons in Hy as [->|Hy]; [done|].
        specialize (Ha y Hy). lia.
Qed.

Lemma insert_perm_b64 {A : Type} (cmp : A → A → float) (x : A) (l : list A) :
  Permutation (x :: l) (sort_insert cmp x l).
Proof.
  induction l as [|y l' IH]; cbn [sort_insert]; [reflexivity|].
  destruct (0 <? cmp x y)%float; [|reflexivity].
  rewrite <- IH. apply perm_swap.
Qed.

Lemma js_sort_perm_b64 {A : Type} (cmp : A → A → float) (l : list A) :
  Permutation l (js_sort cmp l).
Proof.
  induction l as [|x l' IH]; cbn [js_sort]; [reflexivity|].
  rewrite <- insert_perm_b64. by constructor.
Qed.

(** *** The selector *)

Lemma computeInformationGain_as_specified
    (q : LikertQuestion) (stats : gmap string AxisStats) :
  computeInformationGain q stats = gainAsSpecified q stats.
Proof.
  unfold computeInformationGain, gainAsSpecified, observations, axisMean,
    sumRelatedWeights.
  destruct (stats !! lq_axis q) as [s|]; [|reflexivity].
  by destruct (as_count s =? 0)%float.
Qed.

Lemma rank_first_max (stats : gmap string AxisStats) (cands : list LikertQuestion) :
  cands ≠ [] →
  (∀ c, c ∈ cands → is_nan (computeInformationGain c stats) = false) →
  ∃ q before after,
    fst <$> head (rankCandidates stats cands) = Some q ∧
    cands = before ++ q :: after ∧
    (∀ c, c ∈ before →
       (computeInformationGain c stats <? computeInformationGain q stats)%float = true) ∧
    (∀ c, c ∈ after →
       (computeInformationGain c stats <=? computeInformationGain q stats)%float = true).
Proof.
  intros Hne Hnum. unfold rankCandidates.
  set (pairs := List.map (fun question => (question, computeInformationGain question stats)) cands).
  assert (Hpairs : ∀ p, p ∈ pairs →
            fst p ∈ cands ∧ snd p = computeInformationGain (fst p) stats).
  { intros p Hp. apply list_elem_of_In, in_map_iff in Hp as (c & <- & Hc).
    by rewrite list_elem_of_In. }
  destruct (js_sort_first_max byInfoDesc (fun p => orderKey (snd p)) pairs)
    as (m & before & after & Hm & Hl & Hb & Ha).
  { intros a b Ha Hb. unfold byInfoDesc.
    destruct (Hpairs a Ha) as [Hca Hia], (Hpairs b Hb) as [Hcb Hib].
    apply difference_positive; [rewrite Hia|rewrite Hib]; by apply Hnum. }
  { subst pairs. by destruct cands. }
  rewrite Hm. subst pairs.
  apply map_eq_app in Hl as (b' & r & -> & Hb' & Hr).
  apply map_eq_cons in Hr as (q & a' & -> & Hq & Ha').
  subst m before after. cbn [fst snd fmap option_fmap option_map] in *.
  exists q, b', a'. split; [done|]. split; [done|].
  assert (Hq : is_nan (computeInformationGain q stats) = false).
  { apply Hnum. apply elem_of_app. right. apply list_elem_of_here. }
  split; intros c Hc.
  - rewrite ltb_orderKey;
      [|apply Hnum; apply elem_of_app; by left|done].
    apply Z.ltb_lt.
    apply (Hb (c, computeInformationGain c stats)).
    apply list_elem_of_In, in_map_iff. exists c. by rewrite <- list_elem_of_In.
  - rewrite leb_orderKey;
      [|apply Hnum; apply elem_of_app; right; by apply list_elem_of_further|done].
    apply Z.leb_le.
    apply (Ha (c, computeInformationGain c stats)).
    apply list_elem_of_In, in_map_iff. exists c. by rewrite <- list_elem_of_In.
Qed.

Lemma pickNext_ranked questions answers stats requiredOnly :
  candidatesOf questions answers requiredOnly ≠ [] →
  pickNextLikertQuestion questions answers stats requiredOnly =
  fst <$> head (rankCandidates stats (candidatesOf questions answers requiredOnly)).
Proof.
  intros Hne. destruct requiredOnly; simp pickNextLikertQuestion; [|done].
  destruct (candidatesOf questions answers true); [done|].
  by simp pickNextLikertQuestion.
Qed.

(** Whatever the gains are, the item returned is one of the candidates. *)
Lemma pickNext_is_candidate questions answers stats requiredOnly :
  candidatesOf questions answers requiredOnly ≠ [] →
  ∃ q, pickNextLikertQuestion questions answers stats requiredOnly = Some q ∧
       q ∈ questions ∧ isCandidate answers requiredOnly q = true.
Proof.
  intros Hne. rewrite pickNext_ranked by done. unfold rankCandidates.
  set (pairs := List.map _ _).
  destruct (js_sort byInfoDesc pairs) as [|p sorted] eqn:Hs.
  - exfalso. apply Hne.
    assert (Hnil : pairs = []).
    { apply Permutation_nil. rewrite <- Hs. symmetry. apply js_sort_perm_b64. }
    subst pairs. by destruct (candidatesOf questions answers requiredOnly).
  - exists (fst p). split; [done|].
    assert (Hin : In p pairs).
    { eapply Permutation_in; [symmetry; apply js_sort_perm_b64|].
      rewrite Hs. by left. }
    subst pairs. apply in_map_iff in Hin as (c & <- & Hc).
    apply filter_In in Hc as [Hc Hcand]. by rewrite list_elem_of_In.
Qed.

(** The required items come first in binary64 as well: with [requiredOnly]
    set and a required item unanswered, a required unanswered item is
    returned. *)
Lemma pickNext_required_open questions answers stats :
  (∃ r, r ∈ questions ∧ lq_required r = true ∧ isAnswered answers r = false) →
  ∃ q, pickNextLikertQuestion questions answers stats true = Some q ∧
       q ∈ questions ∧ lq_required q = true ∧ isAnswered answers q = false.
Proof.
  intros (r & Hr & Hreq & Hopen).
  destruct (pickNext_is_candidate questions answers stats true)
    as (q & Hq & Hin & Hcand).
  { intros Hnil.
    assert (Hc : In r (candidatesOf questions answers true)).
    { apply filter_In. split; [by apply list_elem_of_In|].
      unfold isCandidate. by rewrite Hopen, Hreq. }
    by rewrite Hnil in Hc. }
  exists q. split; [done|]. split; [done|].
  unfold isCandidate in Hcand. cbn [negb orb] in Hcand.
  apply andb_true_iff in Hcand as [Hopen' Hreq'].
  split; [done|]. by apply negb_true_iff.
Qed.

(** C6 (amended).  When the candidate set is not empty and no candidate's
    gain is a not-a-number, the selector returns the candidate whose gain,
    as computed in binary64, is maximal, the earliest one in the question
    list among those of equal computed gain: every candidate before it has
    a strictly smaller computed gain, every candidate after it one that is
    not larger.  The computed gain is 1 for an axis without observations
    and otherwise |4 - axis mean| * (1 + sum of the related-category
    weights, 0 without any), each operation rounded to binary64. *)
Theorem pickNext_max_computed_gain
    (questions : list LikertQuestion) (answers : gmap string float)
    (stats : gmap string AxisStats) (requiredOnly : bool) :
  candidatesOf questions answers requiredOnly ≠ [] →
  (∀ c, c ∈ candidatesOf questions answers requiredOnly →
        is_nan (computeInformationGain c stats) = false) →
  ∃ q before after,
    pickNextLikertQuestion questions answers stats requiredOnly = Some q ∧
    questions = before ++ q :: after ∧
    isCandidate answers requiredOnly q = true ∧
    (∀ c, computeInformationGain c stats = gainAsSpecified c stats) ∧
    (∀ c, c ∈ before → isCandidate answers requiredOnly c = true →
          (computeInformationGain c stats <? computeInformationGain q stats)%float
          = true) ∧
    (∀ c, c ∈ after → isCandidate answers requiredOnly c = true →
          (computeInformationGain c stats <=? computeInformationGain q stats)%float
          = true).
Proof.
  intros Hne Hnum. rewrite pickNext_ranked by done.
  destruct (rank_first_max stats _ Hne Hnum)
    as (q & before & after & Hq & Hl & Hb & Ha).
  apply filter_split in Hl as (b' & a' & -> & <- & <- & Hcand).
  exists q, b', a'. split; [done|]. split; [done|]. split; [done|].
  split; [intros c; apply computeInformationGain_as_specified|].
  split; intros c Hc Hcc.
  - apply Hb. rewrite list_elem_of_In, filter_In, <- list_elem_of_In. done.
  - apply Ha. rewrite list_elem_of_In, filter_In, <- list_elem_of_In. done.
Qed.

Lemma pickNext_max_computed_gain_witness :
  candidatesOf Binary64Example.questions Binary64Example.answers false ≠ [] ∧
  Forall (fun c => is_nan (computeInformationGain c Binary64Example.stats) = false)
         (candidatesOf Binary64Example.questions Binary64Example.answers false) ∧
  ∃ q before after,
    pickNextLikertQuestion Binary64Example.questions Binary64Example.answers
      Binary64Example.stats false = Some q ∧
    Binary64Example.questions = before ++ q :: after ∧
    isCandidate Binary64Example.answers false q = true ∧
    (∀ c, computeInformationGain c Binary64Example.stats
          = gainAsSpecified c Binary64Example.stats) ∧
    (∀ c, c ∈ before → isCandidate Binary64Example.answers false c = true →
          (computeInformationGain c Binary64Example.stats
           <? computeInformationGain q Binary64Example.stats)%float = true) ∧
    (∀ c, c ∈ after → isCandidate Binary64Example.answers false c = true →
          (computeInformationGain c Binary64Example.stats
           <=? computeInformationGain q Binary64Example.stats)%float = true).
Proof.
  assert (Hnum : Forall (fun c => is_nan (computeInformationGain c Binary64Example.stats) = false)
                   (candidatesOf Binary64Example.questions Binary64Example.answers false)).
  { assert (Hc : candidatesOf Binary64Example.questions Binary64Example.answers false
                 = [Binary64Example.openActivity; Binary64Example.openValues])
      by (by vm_compute).
    rewrite Hc. repeat (constructor; [by vm_compute|]). constructor. }
  split; [vm_compute; discriminate|]. split; [exact Hnum|].
  apply (pickNext_max_computed_gain Binary64Example.questions
           Binary64Example.answers Binary64Example.stats false).
  - vm_compute. discriminate.
  - intros c Hc. rewrite List.Forall_forall in Hnum. apply Hnum.
    by apply list_elem_of_In.
Defined.

(** The run: the open item of "values" is returned, although the open item
    of "activity" stands before it in the list, and both axis means are at
    the same distance 2/3 from the midpoint.  The rounded quotients 10/3
    and 14/3 are not: in binary64 the second gain is the larger one. *)
Example pickNext_rounded_means :
  pickNextLikertQuestion Binary64Example.questions Binary64Example.answers
    Binary64Example.stats false = Some Binary64Example.openValues ∧
  (computeInformationGain Binary64Example.openActivity Binary64Example.stats
   <? computeInformationGain Binary64Example.openValues Binary64Example.stats)%float
  = true ∧
  exactGain Binary64Example.openActivity Binary64Example.stats == 2 # 3 ∧
  exactGain Binary64Example.openValues Binary64Example.stats == 2 # 3.
Proof. by vm_compute. Qed.

(** C6, as stated, fails on that run: the item returned is not the first
    candidate of maximal gain for the gain of the formula, because the
    earlier candidate has the same gain 2/3. *)
Lemma max_gain_counterexample :
  ∃ q,
    pickNextLikertQuestion Binary64Example.questions Binary64Example.answers
      Binary64Example.stats false = Some q ∧
    ¬ firstOfMaximalGain (fun c => exactGain c Binary64Example.stats)
        Binary64Example.questions Binary64Example.answers false q.
Proof.
  exists Binary64Example.openValues. split; [by vm_compute|].
  intros (before & after & Hl & _ & Hb & _).
  destruct before as [|b before]; [discriminate Hl|].
  injection Hl as <- Hl.
  assert (Hlt : exactGain Binary64Example.openActivity Binary64Example.stats
                < exactGain Binary64Example.openValues Binary64Example.stats).
  { apply Hb; [apply list_elem_of_here|by vm_compute]. }
  vm_compute in Hlt. discriminate Hlt.
Qed.

End Binary64Facts.
